(** * ACE3 [docs/tools/document_functions.py]: header parsing and diagnostics

    A shallow embedding of the function-header crawler.  Python text is
    modelled as a list of 8-bit characters (code points below 256, i.e. the
    Latin-1 range of the decoded file text); the character classes of
    [str] methods and of the [re] module are the ones CPython uses on that
    range.  Regular expressions are kept as syntax and run by a backtracking
    matcher with the priorities of [re] (ordered alternation, greedy and lazy
    repetition, capture groups). *)

From Stdlib Require Import Ascii String DecimalString.
From Stdlib Require Import List Bool Arith ZArith Lia Permutation.
Import ListNotations.

Set Implicit Arguments.

(** ** Python text *)

Definition str := list ascii.

Definition py (s : string) : str := list_ascii_of_string s.

Definition code_of (c : ascii) : nat := nat_of_ascii c.

Definition between (lo hi n : nat) : bool := (lo <=? n) && (n <=? hi).

Definition char_eqb (a b : ascii) : bool := Ascii.eqb a b.

Fixpoint str_eqb (a b : str) : bool :=
  match a, b with
  | [], [] => true
  | x :: a', y :: b' => char_eqb x y && str_eqb a' b'
  | _, _ => false
  end.

Definition NL : ascii := ascii_of_nat 10.
Definition CR : ascii := ascii_of_nat 13.

(** [str.isspace] on one character, which is also the class [\s] of [re]:
    TAB..CR, FS..US, SPACE, NEL and NBSP. *)
Definition isspace (c : ascii) : bool :=
  let n := code_of c in
  between 9 13 n || between 28 32 n || (n =? 133) || (n =? 160).

(** The class [\d] of [re] for text patterns: the decimal digits. *)
Definition isdigit (c : ascii) : bool := between 48 57 (code_of c).

(** Cased characters ([_PyUnicode_IsCased]) below 256. *)
Definition iscased (c : ascii) : bool :=
  let n := code_of c in
  between 65 90 n || between 97 122 n || (n =? 170) || (n =? 181) || (n =? 186)
  || between 192 214 n || between 216 246 n || between 248 255 n.

(** The class [\w] of [re] for text patterns: alphanumeric or underscore. *)
Definition isword (c : ascii) : bool :=
  let n := code_of c in
  between 48 57 n || between 65 90 n || between 97 122 n || (n =? 95)
  || (n =? 170) || (n =? 178) || (n =? 179) || (n =? 181) || (n =? 185) || (n =? 186)
  || between 188 190 n || between 192 214 n || between 216 246 n || between 248 255 n.

(** Simple lower-case mapping. *)
Definition lower (c : ascii) : ascii :=
  let n := code_of c in
  if between 65 90 n || (between 192 222 n && negb (n =? 215))
  then ascii_of_nat (n + 32) else c.

(** Title-case mapping of one character.  The sharp s maps to two characters.
    The title-case forms of the micro sign and of y with diaeresis lie outside
    the 8-bit alphabet; they are left in place, and in either reading the
    result is not an ASCII letter. *)
Definition totitle (c : ascii) : str :=
  let n := code_of c in
  if between 97 122 n || (between 224 254 n && negb (n =? 247))
  then [ascii_of_nat (n - 32)]
  else if n =? 223 then [ascii_of_nat 83; ascii_of_nat 115]
  else [c].

(** [str.capitalize]: first character title-cased, the rest lower-cased. *)
Definition capitalize (s : str) : str :=
  match s with
  | [] => []
  | c :: r => totitle c ++ map lower r
  end.

(** [str.title]: a character after a cased one is lower-cased, any other is
    title-cased. *)
Fixpoint title_from (previous_is_cased : bool) (s : str) : str :=
  match s with
  | [] => []
  | c :: r =>
      (if previous_is_cased then [lower c] else totitle c)
        ++ title_from (iscased c) r
  end.

Definition title (s : str) : str := title_from false s.

Fixpoint lstrip (s : str) : str :=
  match s with
  | c :: r => if isspace c then lstrip r else s
  | [] => []
  end.

Definition rstrip (s : str) : str := rev (lstrip (rev s)).

(** [str.strip()] *)
Definition strip (s : str) : str := rstrip (lstrip s).

(** Line boundaries of [str.splitlines] below 256: LF, VT, FF, CR, FS, GS, RS
    and NEL (CR LF counts as one boundary). *)
Definition islinebreak (c : ascii) : bool :=
  let n := code_of c in
  between 10 13 n || between 28 30 n || (n =? 133).

(** [str.splitlines(keepends)].  [cur] holds the current line reversed;
    [cr] tells that the previous character was a CR immediately followed by
    the LF now under the cursor, the two forming one boundary. *)
Fixpoint splitlines_from (keepends cr : bool) (cur : str) (s : str) : list str :=
  match s with
  | [] => match cur with [] => [] | _ => [rev cur] end
  | c :: r =>
      if islinebreak c then
        if char_eqb c CR && match r with d :: _ => char_eqb d NL | [] => false end
        then splitlines_from keepends true cur r
        else
          let ending := if cr then [CR; c] else [c] in
          (rev cur ++ if keepends then ending else [])
            :: splitlines_from keepends false [] r
      else splitlines_from keepends false (c :: cur) r
  end.

Definition splitlines (keepends : bool) (s : str) : list str :=
  splitlines_from keepends false [] s.

(** [sep.join(parts)] *)
Fixpoint join (sep : str) (parts : list str) : str :=
  match parts with
  | [] => []
  | [p] => p
  | p :: rest => p ++ sep ++ join sep rest
  end.

Fixpoint startswith (p s : str) : bool :=
  match p, s with
  | [], _ => true
  | x :: p', y :: s' => char_eqb x y && startswith p' s'
  | _ :: _, [] => false
  end.

(** [s.split(sep)] for a non-empty separator: cut at the successive
    non-overlapping occurrences of [sep], left to right.  [skip] counts the
    characters of an occurrence still to be passed over. *)
Fixpoint split_from (sep : str) (skip : nat) (cur : str) (s : str) : list str :=
  match s with
  | [] => [rev cur]
  | c :: r =>
      match skip with
      | S n => split_from sep n cur r
      | O =>
          if startswith sep s
          then rev cur :: split_from sep (length sep - 1) [] r
          else split_from sep 0 (c :: cur) r
      end
  end.

Definition split (sep : str) (s : str) : list str := split_from sep 0 [] s.

(** [str(n)] for a non-negative integer. *)
Definition str_of_nat (n : nat) : str :=
  py (NilZero.string_of_uint (Nat.to_uint n)).

Arguments char_eqb : simpl never.
Arguments isspace : simpl never.
Arguments isdigit : simpl never.
Arguments isword : simpl never.
Arguments iscased : simpl never.
Arguments islinebreak : simpl never.
Arguments lower : simpl never.
Arguments totitle : simpl never.

(** ** Regular expressions of the [re] module *)

(** Character classes: [\s], [\d], [\w] and bracketed unions of them. *)
Inductive cset : Type :=
| CSpace
| CDigit
| CWord
| CUnion (a b : cset).

Fixpoint in_cset (cs : cset) (c : ascii) : bool :=
  match cs with
  | CSpace => isspace c
  | CDigit => isdigit c
  | CWord => isword c
  | CUnion a b => in_cset a c || in_cset b c
  end.

Inductive regex : Type :=
| Eps
| Lit (c : ascii)
| Cls (cs : cset)
| Dot
| Bol
| Eol
| Cat (a b : regex)
| Alt (a b : regex)
| Star (greedy : bool) (a : regex)
| Grp (n : nat) (a : regex).

(** [a+], [a+?] and [a?], [a??] in terms of the above; the backtracking order
    is the one of [re]. *)
Definition Plus (greedy : bool) (a : regex) : regex := Cat a (Star greedy a).

Definition Opt (greedy : bool) (a : regex) : regex :=
  if greedy then Alt a Eps else Alt Eps a.

Fixpoint Str (s : str) : regex :=
  match s with
  | [] => Eps
  | c :: r => Cat (Lit c) (Str r)
  end.

Record flags : Type := mkFlags {
  IGNORECASE : bool;
  MULTILINE : bool;
  DOTALL : bool
}.

Definition no_flags : flags := mkFlags false false false.

(** Matcher state: the character before the cursor ([None] at the start of
    the subject), the text from the cursor on, and the groups closed so far. *)
Record mstate : Type := mkMstate {
  m_prev : option ascii;
  m_rest : str;
  m_groups : list (nat * str)
}.

Definition advance (st : mstate) (c : ascii) (r : str) : mstate :=
  mkMstate (Some c) r (m_groups st).

Definition set_group (n : nat) (v : str) (st : mstate) : mstate :=
  mkMstate (m_prev st) (m_rest st) ((n, v) :: m_groups st).

Definition lit_matches (fl : flags) (c x : ascii) : bool :=
  if IGNORECASE fl then char_eqb (lower c) (lower x) else char_eqb c x.

Definition at_bol (fl : flags) (st : mstate) : bool :=
  match m_prev st with
  | None => true
  | Some p => MULTILINE fl && char_eqb p NL
  end.

Definition at_eol (fl : flags) (st : mstate) : bool :=
  match m_rest st with
  | [] => true
  | c :: r =>
      char_eqb c NL && (MULTILINE fl || match r with [] => true | _ => false end)
  end.

Definition kont := mstate -> option mstate.

(** Repetition of [body].  Every round has to consume text, which bounds the
    number of rounds by the length of the remaining text. *)
Fixpoint star_loop (body : mstate -> kont -> option mstate) (greedy : bool)
    (k : kont) (fuel : nat) (st : mstate) : option mstate :=
  match fuel with
  | O => None
  | S f =>
      let again :=
        body st (fun st' =>
          if length (m_rest st') <? length (m_rest st)
          then star_loop body greedy k f st' else None) in
      if greedy then
        match again with Some m => Some m | None => k st end
      else
        match k st with Some m => Some m | None => again end
  end.

(** Backtracking matcher in continuation-passing style: [rmatch fl r st k]
    is the first way, in the priority order of [re], to match [r] at [st] so
    that the continuation [k] succeeds on what follows. *)
Fixpoint rmatch (fl : flags) (r : regex) (st : mstate) (k : kont)
    {struct r} : option mstate :=
  match r with
  | Eps => k st
  | Lit c =>
      match m_rest st with
      | x :: xs => if lit_matches fl c x then k (advance st x xs) else None
      | [] => None
      end
  | Cls cs =>
      match m_rest st with
      | x :: xs => if in_cset cs x then k (advance st x xs) else None
      | [] => None
      end
  | Dot =>
      match m_rest st with
      | x :: xs =>
          if DOTALL fl || negb (char_eqb x NL) then k (advance st x xs) else None
      | [] => None
      end
  | Bol => if at_bol fl st then k st else None
  | Eol => if at_eol fl st then k st else None
  | Cat a b => rmatch fl a st (fun st' => rmatch fl b st' k)
  | Alt a b =>
      match rmatch fl a st k with
      | Some m => Some m
      | None => rmatch fl b st k
      end
  | Star greedy a =>
      star_loop (rmatch fl a) greedy k (S (length (m_rest st))) st
  | Grp n a =>
      rmatch fl a st (fun st' =>
        k (set_group n
             (firstn (length (m_rest st) - length (m_rest st')) (m_rest st)) st'))
  end.

(** Match objects: the matched text (group 0) and the numbered groups. *)
Record match_obj : Type := mkMatch {
  m_whole : str;
  m_caps : list (nat * str)
}.

Fixpoint lookup_group (n : nat) (gs : list (nat * str)) : option str :=
  match gs with
  | [] => None
  | (i, v) :: rest => if i =? n then Some v else lookup_group n rest
  end.

(** [m.group(n)]; [None] stands for Python's [None] of a group that took no
    part in the match. *)
Definition group (n : nat) (m : match_obj) : option str :=
  lookup_group n (m_caps m).

(** A match of [r] starting at the cursor, [prev] being the character before
    it. *)
Definition match_at (fl : flags) (r : regex) (prev : option ascii) (s : str)
  : option match_obj :=
  match rmatch fl r (mkMstate prev s []) (fun st => Some st) with
  | Some st => Some (mkMatch (firstn (length s - length (m_rest st)) s) (m_groups st))
  | None => None
  end.

(** [re.match(pattern, s, flags)] *)
Definition re_match (fl : flags) (r : regex) (s : str) : option match_obj :=
  match_at fl r None s.

Definition group_text (n : nat) (m : match_obj) : str :=
  match group n m with Some v => v | None => [] end.

(** [re.split(pattern, s, 0, flags)] for a pattern with groups [1..ngroups]
    that cannot match the empty text: the pieces between the successive
    leftmost matches, each followed by the groups of the match after it.  A
    group outside the match contributes Python's [None]; the one pattern this
    program splits on has its group on every path, and the model writes the
    empty text there.  [skip] counts the characters of the current match
    still to be passed over, [cur] is the current piece reversed. *)
Fixpoint split_scan (fl : flags) (r : regex) (ngroups : nat) (skip : nat)
    (prev : option ascii) (cur : str) (s : str) : list str :=
  match s with
  | [] => [rev cur]
  | c :: rest =>
      match skip with
      | S n => split_scan fl r ngroups n (Some c) cur rest
      | O =>
          match match_at fl r prev s with
          | Some m =>
              match length (m_whole m) with
              | O => split_scan fl r ngroups 0 (Some c) (c :: cur) rest
              | S n =>
                  rev cur
                    :: map (fun i => group_text i m) (seq 1 ngroups)
                    ++ split_scan fl r ngroups n (Some c) [] rest
              end
          | None => split_scan fl r ngroups 0 (Some c) (c :: cur) rest
          end
      end
  end.

Definition re_split (fl : flags) (r : regex) (ngroups : nat) (s : str) : list str :=
  split_scan fl r ngroups 0 None [] s.

(** ** The patterns of the program *)

Definition chr (s : string) : ascii :=
  match s with String c _ => c | EmptyString => zero end.

(** [r"\s*/\*.+?\*/"] with [re.S] *)
Definition header_re : regex :=
  Cat (Star true (Cls CSpace))
    (Cat (Str (py "/*")) (Cat (Plus false Dot) (Str (py "*/")))).

Definition header_flags : flags := mkFlags false false true.

(** [r"^(Author|Argument|Return Value|Example|Public)s?:\s?"] with [re.M] *)
Definition section_re : regex :=
  Cat Bol
    (Cat (Grp 1 (Alt (Str (py "Author")) (Alt (Str (py "Argument"))
            (Alt (Str (py "Return Value")) (Alt (Str (py "Example"))
               (Str (py "Public")))))))
       (Cat (Opt true (Lit (chr "s")))
          (Cat (Lit (chr ":")) (Opt true (Cls CSpace))))).

Definition section_flags : flags := mkFlags false true false.

(** [r"(Yes|No)"] with [re.I] *)
Definition public_re : regex := Grp 1 (Alt (Str (py "Yes")) (Str (py "No"))).

Definition public_flags : flags := mkFlags true false false.

(** [r"^(\d+):\s(.+?)\<([\s\w]+?)\>(\s\(default: (.+)\))?$"] *)
Definition argument_re : regex :=
  Cat Bol
    (Cat (Grp 1 (Plus true (Cls CDigit)))
       (Cat (Lit (chr ":"))
          (Cat (Cls CSpace)
             (Cat (Grp 2 (Plus false Dot))
                (Cat (Lit (chr "<"))
                   (Cat (Grp 3 (Plus false (Cls (CUnion CSpace CWord))))
                      (Cat (Lit (chr ">"))
                         (Cat (Opt true
                                 (Grp 4
                                    (Cat (Cls CSpace)
                                       (Cat (Str (py "(default: "))
                                          (Cat (Grp 5 (Plus true Dot))
                                             (Lit (chr ")")))))))
                            Eol)))))))).

(** [r"^(\d+):"] *)
Definition index_re : regex :=
  Cat Bol (Cat (Grp 1 (Plus true (Cls CDigit))) (Lit (chr ":"))).

(** [r"^(.+?)\<([\s\w]+?)\>"] *)
Definition return_re : regex :=
  Cat Bol
    (Cat (Grp 1 (Plus false Dot))
       (Cat (Lit (chr "<"))
          (Cat (Grp 2 (Plus false (Cls (CUnion CSpace CWord))))
             (Lit (chr ">"))))).

(** ** Exceptions, the object and the world around it *)

Inductive exn : Type :=
| IndexError
| UnboundLocalError.

Inductive result (A : Type) : Type :=
| Ok (a : A)
| Raise (e : exn).

Arguments Ok {A} a.
Arguments Raise {A} e.

(** One entry of [self.arguments]: the list
    [[arg_index, arg_name, arg_types, arg_default, arg_notes]]. *)
Record Argument : Type := mkArgument {
  arg_index : str;
  arg_name : str;
  arg_types : str;
  arg_default : str;
  arg_notes : list str
}.

(** The attributes of a [FunctionFile].  [header_text] and [sections] only
    come into being in [process_header], which writes them before anything
    reads them; they start out empty here. *)
Record FunctionFile : Type := mkFunctionFile {
  directory : str;
  debug : bool;
  path : str;
  header : str;
  public : bool;
  authors : list str;
  description : str;
  arguments : list Argument;
  return_value : list str;
  example : str;
  logged : bool;
  header_text : str;
  sections : list str
}.

(** [FunctionFile.__init__] *)
Definition init (directory : str) : FunctionFile :=
  mkFunctionFile directory false [] [] false [] [] [] [] [] false [] [].

(** What a run can be observed to do: the object, the texts printed, one for
    each call of [print] and oldest first (a text that holds a newline
    shows as several lines), the chunks written to the wiki files, and, as
    an instrument of the model, the (level, message) pair of every call of
    [feedback] in the order of the calls. *)
Record World : Type := mkWorld {
  self : FunctionFile;
  stdout : list str;
  files : list (str * str);
  diagnostics : list (Z * str)
}.

Definition M (A : Type) : Type := World -> result A * World.

Definition ret {A : Type} (a : A) : M A := fun w => (Ok a, w).

Definition raise {A : Type} (e : exn) : M A := fun w => (Raise e, w).

Definition bind {A B : Type} (m : M A) (k : A -> M B) : M B :=
  fun w =>
    match m w with
    | (Ok a, w') => k a w'
    | (Raise e, w') => (Raise e, w')
    end.

Notation "x <- m ;; k" := (bind m (fun x => k))
  (at level 61, m at next level, right associativity).
Notation "m ;;; k" := (bind m (fun _ => k))
  (at level 61, right associativity).

Definition get_self : M FunctionFile := fun w => (Ok (self w), w).

Definition modify_self (f : FunctionFile -> FunctionFile) : M unit :=
  fun w => (Ok tt, mkWorld (f (self w)) (stdout w) (files w) (diagnostics w)).

Definition set_debug (v : bool) (o : FunctionFile) : FunctionFile :=
  mkFunctionFile (directory o) v (path o) (header o) (public o) (authors o)
    (description o) (arguments o) (return_value o) (example o) (logged o)
    (header_text o) (sections o).

Definition set_path (v : str) (o : FunctionFile) : FunctionFile :=
  mkFunctionFile (directory o) (debug o) v (header o) (public o) (authors o)
    (description o) (arguments o) (return_value o) (example o) (logged o)
    (header_text o) (sections o).

Definition set_header (v : str) (o : FunctionFile) : FunctionFile :=
  mkFunctionFile (directory o) (debug o) (path o) v (public o) (authors o)
    (description o) (arguments o) (return_value o) (example o) (logged o)
    (header_text o) (sections o).

Definition set_public (v : bool) (o : FunctionFile) : FunctionFile :=
  mkFunctionFile (directory o) (debug o) (path o) (header o) v (authors o)
    (description o) (arguments o) (return_value o) (example o) (logged o)
    (header_text o) (sections o).

Definition set_authors (v : list str) (o : FunctionFile) : FunctionFile :=
  mkFunctionFile (directory o) (debug o) (path o) (header o) (public o) v
    (description o) (arguments o) (return_value o) (example o) (logged o)
    (header_text o) (sections o).

Definition set_description (v : str) (o : FunctionFile) : FunctionFile :=
  mkFunctionFile (directory o) (debug o) (path o) (header o) (public o)
    (authors o) v (arguments o) (return_value o) (example o) (logged o)
    (header_text o) (sections o).

Definition set_arguments (v : list Argument) (o : FunctionFile) : FunctionFile :=
  mkFunctionFile (directory o) (debug o) (path o) (header o) (public o)
    (authors o) (description o) v (return_value o) (example o) (logged o)
    (header_text o) (sections o).

Definition set_return_value (v : list str) (o : FunctionFile) : FunctionFile :=
  mkFunctionFile (directory o) (debug o) (path o) (header o) (public o)
    (authors o) (description o) (arguments o) v (example o) (logged o)
    (header_text o) (sections o).

Definition set_example (v : str) (o : FunctionFile) : FunctionFile :=
  mkFunctionFile (directory o) (debug o) (path o) (header o) (public o)
    (authors o) (description o) (arguments o) (return_value o) v (logged o)
    (header_text o) (sections o).

Definition set_logged (v : bool) (o : FunctionFile) : FunctionFile :=
  mkFunctionFile (directory o) (debug o) (path o) (header o) (public o)
    (authors o) (description o) (arguments o) (return_value o) (example o) v
    (header_text o) (sections o).

Definition set_header_text (v : str) (o : FunctionFile) : FunctionFile :=
  mkFunctionFile (directory o) (debug o) (path o) (header o) (public o)
    (authors o) (description o) (arguments o) (return_value o) (example o)
    (logged o) v (sections o).

Definition set_sections (v : list str) (o : FunctionFile) : FunctionFile :=
  mkFunctionFile (directory o) (debug o) (path o) (header o) (public o)
    (authors o) (description o) (arguments o) (return_value o) (example o)
    (logged o) (header_text o) v.

(** [print(line)] *)
Definition print (line : str) : M unit :=
  fun w => (Ok tt, mkWorld (self w) (stdout w ++ [line]) (files w) (diagnostics w)).

(** [file.write(text)] on the file [output] opened for appending. *)
Definition file_write (output text : str) : M unit :=
  fun w => (Ok tt, mkWorld (self w) (stdout w) (files w ++ [(output, text)]) (diagnostics w)).

Definition note_diagnostic (level : Z) (message : str) : M unit :=
  fun w => (Ok tt, mkWorld (self w) (stdout w) (files w) (diagnostics w ++ [(level, message)])).

(** Indexing [l[i]] with Python's reading of negative indices. *)
Definition py_nth {A : Type} (l : list A) (i : Z) : option A :=
  let n := Z.of_nat (length l) in
  if (0 <=? i)%Z then nth_error l (Z.to_nat i)
  else if (0 <=? n + i)%Z then nth_error l (Z.to_nat (n + i))
  else None.

Definition subscript {A : Type} (l : list A) (i : Z) : M A :=
  match py_nth l i with
  | Some a => ret a
  | None => raise IndexError
  end.

(** [l.index(x)]: position of the first element equal to [x]; [None] stands
    for the [ValueError]. *)
Fixpoint list_index (x : str) (l : list str) : option nat :=
  match l with
  | [] => None
  | y :: r => if str_eqb y x then Some 0 else option_map S (list_index x r)
  end.

Definition dquote : ascii := ascii_of_nat 34.

Definition quoted (s : str) : str := [dquote] ++ s ++ [dquote].

(** Severity levels as the program writes them; [default_level] is the
    default of the parameter [level] of [feedback]. *)
Definition default_level : Z := 0.
Definition Info : Z := 0.
Definition Warning : Z := 1.
Definition Error : Z := 2.
Definition Aborted : Z := 3.

Definition priority_labels : list str :=
  [py "Info"; py "Warning"; py "Error"; py "Aborted"].

Section FunctionFile.

(** [os.path.relpath], which depends on the working directory of the
    process, is taken as given.  It raises [ValueError] for the empty path;
    when a file is announced its object has the joined, non-empty path
    [import_header] gave it, and [relpath] stands for the function on such
    paths. *)
Variable relpath : str -> str -> str.

(** [FunctionFile.write] *)
Definition write (message : str) (indent : nat) : M unit :=
  print (concat (repeat (py "  ") indent) ++ message).

(** [FunctionFile.log_file] *)
Definition log_file (error : bool) : M unit :=
  o <- get_self ;;
  if negb (debug o) || error then
    if negb (logged o) then
      let rel_path := relpath (path o) (directory o) in
      write (py "Processing... " ++ rel_path) 1 ;;;
      modify_self (set_logged true)
    else ret tt
  else ret tt.

(** [FunctionFile.feedback]; its first step here is the instrument that
    records the call. *)
Definition feedback (message : str) (level : Z) : M unit :=
  note_diagnostic level message ;;;
  priority_str <- subscript priority_labels level ;;
  log_file (0 <? level)%Z ;;;
  write (priority_str ++ py ": " ++ message) 2.

(** [FunctionFile.import_header]; [code] is what [file.read()] returned. *)
Definition import_header (file_path code : str) : M unit :=
  modify_self (set_path file_path) ;;;
  let header_match := re_match header_flags header_re code in
  match header_match with
  | Some m => modify_self (set_header (m_whole m))
  | None => feedback (py "Missing header") 3
  end.

(** [FunctionFile.has_header] *)
Definition has_header (o : FunctionFile) : bool :=
  match header o with [] => false | _ => true end.

(** [FunctionFile.get_section] *)
Definition get_section (section_name : str) : M str :=
  o <- get_self ;;
  match list_index section_name (sections o) with
  | Some i => subscript (sections o) (Z.of_nat i + 1)
  | None =>
      feedback (py "Missing " ++ quoted section_name ++ py " header section") 2 ;;;
      ret []
  end.

(** [FunctionFile.process_public] *)
Definition process_public (raw : str) : M bool :=
  let public_text := removelast raw in
  (match re_match public_flags public_re public_text with
   | Some _ => ret tt
   | None => feedback (py "Invalid public value " ++ quoted public_text) 2
   end) ;;;
  ret (str_eqb (capitalize public_text) (py "Yes")).

(** [FunctionFile.is_public] *)
Definition is_public (o : FunctionFile) : bool := public o.

(** [FunctionFile.process_author] *)
Definition process_author (raw : str) : M (list str) :=
  authors_text <- subscript (splitlines false raw) 0 ;;
  ret (split (py ", ") authors_text).

(** [FunctionFile.process_description] *)
Definition process_description (raw : str) : M str :=
  let description_text := join [] (skipn 1 (splitlines true raw)) in
  ret description_text.

(** [arguments[-1][-1].append(argument)] on a non-empty list. *)
Fixpoint append_note (arguments : list Argument) (argument : str) : list Argument :=
  match arguments with
  | [] => []
  | [a] =>
      [mkArgument (arg_index a) (arg_name a) (arg_types a) (arg_default a)
         (arg_notes a ++ [argument])]
  | a :: rest => a :: append_note rest argument
  end.

Definition is_some {A : Type} (o : option A) : bool :=
  match o with Some _ => true | None => false end.

Definition is_empty {A : Type} (l : list A) : bool :=
  match l with [] => true | _ => false end.

(** One round of the loop of [process_arguments] over the lines. *)
Definition process_argument_line (argument : str) (arguments : list Argument)
  : M (list Argument) :=
  match re_match no_flags argument_re argument with
  | Some valid =>
      let arg_index := group_text 1 valid in
      let arg_name := group_text 2 valid in
      let arg_types := group_text 3 valid in
      let arg_default := group 5 valid in
      let arg_notes := [] in
      (if negb (str_eqb arg_index (str_of_nat (length arguments))) then
         feedback (py "Argument index " ++ arg_index
                     ++ py " does not match listed order") 1
       else ret tt) ;;;
      let arg_default := match arg_default with None => [] | Some d => d end in
      ret (arguments ++ [mkArgument arg_index arg_name arg_types arg_default arg_notes])
  | None =>
      if is_some (re_match no_flags index_re argument) || is_empty arguments then
        feedback (py "Malformed argument " ++ quoted argument) 2 ;;;
        ret arguments
      else ret (append_note arguments argument)
  end.

Fixpoint process_argument_lines (lines : list str) (arguments : list Argument)
  : M (list Argument) :=
  match lines with
  | [] => ret arguments
  | argument :: rest =>
      arguments' <- process_argument_line argument arguments ;;
      process_argument_lines rest arguments'
  end.

Definition count_empty (lines : list str) : nat :=
  length (filter (fun l => str_eqb l []) lines).

(** [FunctionFile.process_arguments] *)
Definition process_arguments (raw : str) : M (list Argument) :=
  let lines := splitlines false raw in
  first <- subscript lines 0 ;;
  if str_eqb first (py "None") then ret []
  else if count_empty lines =? length lines then
    feedback (py "No arguments provided (use " ++ quoted (py "None")
                ++ py " where appropriate)") 2 ;;;
    ret []
  else
    final <- subscript lines (-1) ;;
    lines' <- (if str_eqb final [] then ret (removelast lines)
               else feedback (py "No blank line after arguments list") 1 ;;;
                    ret lines) ;;
    process_argument_lines lines' [].

(** [FunctionFile.process_return_value].  When the pattern does not match,
    the locals [return_name] and [return_types] are unbound at the [return]
    statement. *)
Definition process_return_value (raw : str) : M (list str) :=
  let return_value := strip raw in
  if str_eqb (title return_value) (py "None") then ret [py "None"; py "N/A"]
  else
    match re_match no_flags return_re return_value with
    | Some valid =>
        let return_name := group_text 1 valid in
        let return_types := group_text 2 valid in
        ret [return_name; return_types]
    | None =>
        feedback (py "Malformed return value " ++ quoted return_value) 2 ;;;
        raise UnboundLocalError
    end.

(** The decoration-free text of the header, [self.header_text]. *)
Definition normalize_header (header : str) : str :=
  join [NL] (map (fun x => strip (skipn 3 x)) (splitlines false header)).

Definition split_sections (header_text : str) : list str :=
  re_split section_flags section_re 1 header_text.

Arguments normalize_header : simpl never.
Arguments split_sections : simpl never.

Definition when (b : bool) (m : M unit) : M unit := if b then m else ret tt.

(** [FunctionFile.process_header] *)
Definition process_header (debug_arg : bool) : M unit :=
  modify_self (set_debug debug_arg) ;;;
  o <- get_self ;;
  let text := normalize_header (header o) in
  modify_self (set_header_text text) ;;;
  modify_self (set_sections (split_sections text)) ;;;
  public_raw <- get_section (py "Public") ;;
  if is_empty public_raw then feedback (py "Public value undefined") 3
  else
    is_pub <- process_public public_raw ;;
    modify_self (set_public is_pub) ;;;
    o <- get_self ;;
    if negb (public o) && negb (debug o) then ret tt
    else
      author_raw <- get_section (py "Author") ;;
      arguments_raw <- get_section (py "Argument") ;;
      return_value_raw <- get_section (py "Return Value") ;;
      example_raw <- get_section (py "Example") ;;
      when (negb (is_empty author_raw))
        (a <- process_author author_raw ;;
         modify_self (set_authors a) ;;;
         d <- process_description author_raw ;;
         modify_self (set_description d)) ;;;
      when (negb (is_empty arguments_raw))
        (a <- process_arguments arguments_raw ;;
         modify_self (set_arguments a)) ;;;
      when (negb (is_empty return_value_raw))
        (r <- process_return_value return_value_raw ;;
         modify_self (set_return_value r)) ;;;
      when (negb (is_empty example_raw))
        (modify_self (set_example (strip example_raw))).

End FunctionFile.

(** ** Rendering and the crawl *)

Definition slash : ascii := ascii_of_nat 47.

(** The text before the first slash and the text from that slash on. *)
Fixpoint break_slash (s : str) : str * str :=
  match s with
  | [] => ([], [])
  | c :: r =>
      if char_eqb c slash then ([], s)
      else let (a, b) := break_slash r in (c :: a, b)
  end.

Fixpoint drop_slashes (s : str) : str :=
  match s with
  | c :: r => if char_eqb c slash then drop_slashes r else s
  | [] => []
  end.

(** [os.path.basename] and [os.path.dirname] of [posixpath]. *)
Definition basename (p : str) : str := rev (fst (break_slash (rev p))).

Definition dirname (p : str) : str :=
  let head := rev (snd (break_slash (rev p))) in
  if forallb (fun c => char_eqb c slash) head then head
  else rev (drop_slashes (rev head)).

Definition endswith (suffix s : str) : bool := startswith (rev suffix) (rev s).

(** One row of the parameters table: the first four entries of an argument
    separated by [" | "] and closed by a newline. *)
Definition format_argument (a : Argument) : str :=
  arg_index a ++ py " | " ++ arg_name a ++ py " | " ++ arg_types a ++ py " | "
    ++ arg_default a ++ [NL].

(** [document_function]; creating the directory leaves no trace here, and
    every [file.write] is recorded with the name of the file it appends to.
    The component is a base name, so joining it to the directory is a
    concatenation. *)
Definition document_function : M unit :=
  function <- get_self ;;
  let component := basename (dirname (dirname (path function))) in
  let output := py "../wiki/functions/" ++ component ++ py ".md" in
  let fname := basename (path function) in
  file_write output
    ([NL] ++ py "## ace_" ++ component ++ py "_fnc_"
       ++ firstn (length fname - 8) (skipn 4 fname) ++ [NL]) ;;;
  file_write output (py "__Description__" ++ [NL; NL] ++ description function) ;;;
  file_write output
    (py "__Parameters__" ++ [NL; NL]
       ++ py "Index | Description | Datatype(s) | Default Value" ++ [NL]
       ++ py "--- | --- | --- | ---" ++ [NL]) ;;;
  fold_right (fun argument rest => file_write output (format_argument argument) ;;; rest)
    (ret tt) (arguments function) ;;;
  file_write output [NL] ;;;
  return_name <- subscript (return_value function) 0 ;;
  return_types <- subscript (return_value function) 1 ;;
  file_write output
    (py "__Return Value__" ++ [NL; NL] ++ py "Description | Datatype(s)" ++ [NL]
       ++ py "--- | ---" ++ [NL] ++ return_name ++ py " | " ++ return_types
       ++ [NL; NL]) ;;;
  file_write output
    (py "__Example__" ++ [NL; NL] ++ py "```" ++ [NL] ++ example function ++ [NL]
       ++ py "```" ++ [NL]) ;;;
  file_write output ([NL] ++ py "__Authors__" ++ [NL; NL]) ;;;
  fold_right (fun author rest => file_write output (py "- " ++ author ++ [NL]) ;;; rest)
    (ret tt) (authors function) ;;;
  file_write output ([NL] ++ py "---" ++ [NL]).

Section Crawl.

Variable relpath : str -> str -> str.

(** The body of the loop of [crawl_dir] for one function file: [file_path]
    is the joined path and [code] the text of the file.  Each file gets a
    fresh [FunctionFile]. *)
Definition crawl_file (directory : str) (debug_arg : bool) (file_path code : str)
  : M unit :=
  modify_self (fun _ => init directory) ;;;
  import_header relpath file_path code ;;;
  function <- get_self ;;
  if has_header function then
    process_header relpath debug_arg ;;;
    function <- get_self ;;
    if is_public function && negb debug_arg then
      document_function ;;;
      feedback relpath (py "Publicly documented") default_level
    else ret tt
  else ret tt.

(** [os.path.join(root, file)] for a plain file name. *)
Definition path_join (root file : str) : str :=
  if is_empty root || endswith [slash] root then root ++ file
  else root ++ [slash] ++ file.

(** [crawl_dir] over what [os.walk] yields: the directories with the names
    and texts of their files. *)
Fixpoint crawl_files (directory : str) (debug_arg : bool) (root : str)
    (files_here : list (str * str)) : M unit :=
  match files_here with
  | [] => ret tt
  | (file, code) :: rest =>
      (if endswith (py ".sqf") file && startswith (py "fnc_") file then
         crawl_file directory debug_arg (path_join root file) code
       else ret tt) ;;;
      crawl_files directory debug_arg root rest
  end.

Fixpoint crawl_dir (directory : str) (debug_arg : bool)
    (walk : list (str * list (str * str))) : M unit :=
  match walk with
  | [] => ret tt
  | (root, files_here) :: rest =>
      crawl_files directory debug_arg root files_here ;;;
      crawl_dir directory debug_arg rest
  end.

End Crawl.

(** A world with a fresh object and nothing printed or written yet. *)
Definition fresh_world (directory : str) : World :=
  mkWorld (init directory) [] [] [].

(** The world with the header attribute of the object replaced. *)
Definition with_header (h : str) (w : World) : World :=
  mkWorld (set_header h (self w)) (stdout w) (files w) (diagnostics w).

(** ** The scenario header of the specification *)

Definition scenario_header : str :=
  join [NL]
    [py "/*";
     py " * Author: bux578";
     py " * Does a thing.";
     py " *";
     py " * Arguments:";
     py " * 0: Unit <OBJECT>";
     py " *";
     py " * Return Value:";
     py " * Success <BOOLEAN>";
     py " *";
     py " * Example:";
     py " * [player] call ace_test_fnc_thing;";
     py " *";
     py " * Public: Yes";
     py " */"].

Definition scenario_world : World :=
  with_header scenario_header (fresh_world (py "/addons")).

(** A public header whose return value lacks the angle brackets. *)
Definition malformed_return_header : str :=
  join [NL]
    [py "/*";
     py " * Author: bux578";
     py " * Does a thing.";
     py " *";
     py " * Return Value:";
     py " * Success BOOLEAN";
     py " *";
     py " * Public: Yes";
     py " */"].

(** ** Notions the properties are stated with *)

(** [p] is a prefix of [s] up to the case of the letters. *)
Fixpoint startswith_nocase (p s : str) : bool :=
  match p, s with
  | [], _ => true
  | x :: p', y :: s' => char_eqb (lower x) (lower y) && startswith_nocase p' s'
  | _ :: _, [] => false
  end.

(** The text starts, case-insensitively, with "Yes" or "No". *)
Definition starts_with_yes_or_no (s : str) : bool :=
  startswith_nocase (py "Yes") s || startswith_nocase (py "No") s.

(** The body [get_section] hands out for a name found among the sections:
    the element after its first occurrence, if there is one. *)
Definition section_body (section_name : str) (secs : list str) : option str :=
  match list_index section_name secs with
  | Some i => py_nth secs (Z.of_nat i + 1)
  | None => None
  end.

(** The object as [crawl_dir] has it when [process_header] starts: created by
    [__init__] and given its path and header by [import_header]. *)
Definition imported (directory file_path h : str) : FunctionFile :=
  set_header h (set_path file_path (init directory)).

(** A path as [crawl_dir] joins it for a function file, and the world in
    which [import_header] has left the object of that file with the header
    [h]: nothing printed or written yet. *)
Definition function_path : str := py "/addons/main/functions/fnc_thing.sqf".

Definition imported_world (h : str) : World :=
  mkWorld (imported (py "/addons") function_path h) [] [] [].

(** The state after the matcher has passed over the next [n] characters. *)
Fixpoint consume (st : mstate) (n : nat) : mstate :=
  match n, m_rest st with
  | S n', x :: xs => consume (advance st x xs) n'
  | _, _ => st
  end.

(** The literal text [p] matches at the head of [s] under the flags. *)
Fixpoint lits_match (fl : flags) (p s : str) : bool :=
  match p, s with
  | [], _ => true
  | c :: p', x :: s' => lit_matches fl c x && lits_match fl p' s'
  | _ :: _, [] => false
  end.

(** The world once [process_header] has stored its debug flag, the
    normalized text and the sections. *)
Definition start_header (debug_arg : bool) (w : World) : World :=
  let text := normalize_header (header (self w)) in
  mkWorld
    (set_sections (split_sections text)
       (set_header_text text (set_debug debug_arg (self w))))
    (stdout w) (files w) (diagnostics w).

(** The world with the public flag of the object replaced. *)
Definition with_public (v : bool) (w : World) : World :=
  mkWorld (set_public v (self w)) (stdout w) (files w) (diagnostics w).

(** A header whose Public value is neither "Yes" nor "No", and one that is
    explicitly private. *)
Definition invalid_public_header : str :=
  join [NL]
    [py "/*";
     py " * Author: bux578";
     py " * Does a thing.";
     py " *";
     py " * Public: Maybe";
     py " */"].

Definition private_header : str :=
  join [NL]
    [py "/*";
     py " * Author: bux578";
     py " * Does a thing.";
     py " *";
     py " * Public: No";
     py " */"].

(** A call of [feedback] with a level in {0,1,2,3}, whose message is among
    the lines [out] under the label of that level. *)
Definition labelled (out : list str) (d : Z * str) : Prop :=
  (0 <= fst d <= 3)%Z
  /\ exists label,
       py_nth priority_labels (fst d) = Some label
       /\ In label priority_labels
       /\ In (py "    " ++ label ++ py ": " ++ snd d) out.

(** [w'] continues [w]: more lines may have been printed and more calls of
    [feedback] made, every new call being [labelled] among the new lines. *)
Definition extends (w w' : World) : Prop :=
  exists out ds,
    stdout w' = stdout w ++ out
    /\ diagnostics w' = diagnostics w ++ ds
    /\ Forall (labelled out) ds.

(** A computation that only ever continues the world it starts from. *)
Definition steady {A : Type} (m : M A) : Prop :=
  forall w, extends w (snd (m w)).

(** [sub] occurs somewhere in [s]. *)
Fixpoint contains (sub s : str) : bool :=
  startswith sub s
  || match s with
     | [] => false
     | _ :: r => contains sub r
     end.

(** What follows the first "*/" of [s], if there is one. *)
Fixpoint after_close (s : str) : option str :=
  match s with
  | [] => None
  | _ :: r => if startswith (py "*/") s then Some (skipn 2 s) else after_close r
  end.

(** What follows a block that opens with "/*", holds one character at least
    and closes at the first "*/" from there. *)
Definition after_open (s : str) : option str :=
  match s with
  | a :: b :: _ :: r =>
      if char_eqb a (chr "/") && char_eqb b (chr "*") then after_close r else None
  | _ => None
  end.

(** What follows the header of [code]: leading whitespace and such a
    block. *)
Definition after_header (code : str) : option str := after_open (lstrip code).

(** The rest of the header pattern once the whitespace is passed. *)
Definition block_re : regex :=
  Cat (Str (py "/*")) (Cat (Plus false Dot) (Str (py "*/"))).

(** What the final state of a match is used for: the text left and the
    groups. *)
Definition outcome (st : mstate) : str * list (nat * str) :=
  (m_rest st, m_groups st).

(** A text of whitespace characters only. *)
Definition all_space (ws : str) : Prop := Forall (fun x => isspace x = true) ws.

(** ** Section markers, described without the matcher *)

Definition section_names : list str :=
  [py "Author"; py "Argument"; py "Return Value"; py "Example"; py "Public"].

(** The alternation of literal names, as the pattern writes it. *)
Fixpoint alts (names : list str) : regex :=
  match names with
  | [] => Eps
  | [n] => Str n
  | n :: ns => Alt (Str n) (alts ns)
  end.

(** The pattern after the group of names: [s?:\s?]. *)
Definition marker_tail_re : regex :=
  Cat (Opt true (Lit (chr "s"))) (Cat (Lit (chr ":")) (Opt true (Cls CSpace))).

(** The text without one leading whitespace character, if it has one. *)
Definition drop_gap (s : str) : str :=
  match s with
  | x :: r => if isspace x then r else s
  | [] => []
  end.

(** What follows a colon and an optional whitespace character at the head
    of [s]. *)
Definition after_colon (s : str) : option str :=
  match s with
  | c :: r => if char_eqb (chr ":") c then Some (drop_gap r) else None
  | [] => None
  end.

(** What follows an optional "s", a colon and an optional whitespace
    character at the head of [s]. *)
Definition marker_tail (s : str) : option str :=
  match s with
  | c :: r =>
      if char_eqb (chr "s") c then
        match after_colon r with
        | Some t => Some t
        | None => after_colon s
        end
      else after_colon s
  | [] => None
  end.

(** A marker at the head of [s]: the first of the names that is followed by
    the marker tail, with what follows the marker. *)
Fixpoint marker_among (names : list str) (s : str) : option (str * str) :=
  match names with
  | [] => None
  | n :: ns =>
      if startswith n s then
        match marker_tail (skipn (length n) s) with
        | Some t => Some (n, t)
        | None => marker_among ns s
        end
      else marker_among ns s
  end.

(** The cursor is at the start of a line: at the start of the text or right
    after a newline. *)
Definition line_start (prev : option ascii) : bool :=
  match prev with
  | None => true
  | Some p => char_eqb p NL
  end.

(** A section marker at the cursor. *)
Definition marker_here (prev : option ascii) (s : str) : option (str * str) :=
  if line_start prev then marker_among section_names s else None.

(** The continuation of the group of names: close group 1 and match the
    marker tail. *)
Definition after_name (st : mstate) : kont :=
  fun st' =>
    rmatch section_flags marker_tail_re
      (set_group 1 (firstn (length (m_rest st) - length (m_rest st')) (m_rest st)) st')
      (fun st'' => Some st'').

(** ** Headers as they are authored *)

(** A section as written: its name, whether the marker carries the plural
    "s", and everything between the colon and the next marker (or the end
    of the text). *)
Record authored : Type := mkAuthored {
  a_name : str;
  a_plural : bool;
  a_body : str
}.

Definition render_section (a : authored) : str :=
  a_name a ++ (if a_plural a then py "s" else []) ++ py ":" ++ a_body a.

(** The normalized text of a header: what precedes the first marker, then
    the sections in the order they were written. *)
Definition render (pre : str) (secs : list authored) : str :=
  pre ++ concat (map render_section secs).

(** The raw body of a section: the marker takes one whitespace character
    after the colon along, if there is one. *)
Definition raw_body (a : authored) : str := drop_gap (a_body a).

(** [s] starts with a section name, an optional "s" and a colon. *)
Definition heads_marker (s : str) : bool :=
  existsb (fun n => startswith (n ++ py ":") s || startswith (n ++ py "s:") s)
    section_names.

(** No line of [chunk] starts with a marker; [bol] tells whether [chunk]
    itself starts a line. *)
Fixpoint quiet (bol : bool) (chunk : str) : bool :=
  match chunk with
  | [] => true
  | c :: r => negb (bol && heads_marker chunk) && quiet (char_eqb c NL) r
  end.

(** [s] ends with a newline. *)
Definition ends_line (s : str) : bool :=
  match rev s with
  | c :: _ => char_eqb c NL
  | [] => false
  end.

(** The sections are as authored: recognized names, bodies that hold no
    marker of their own, and a newline before every following marker. *)
Fixpoint well_formed_sections (secs : list authored) : bool :=
  match secs with
  | [] => true
  | a :: rest =>
      existsb (str_eqb (a_name a)) section_names
      && quiet false (a_body a)
      && (is_empty rest || ends_line (a_body a))
      && well_formed_sections rest
  end.

Definition well_formed (pre : str) (secs : list authored) : bool :=
  quiet true pre
  && (is_empty pre || is_empty secs || ends_line pre)
  && well_formed_sections secs.

(** What [re.split] is to give for an authored text: the piece before the
    first marker, then name and raw body of every section. *)
Fixpoint pieces (piece : str) (secs : list authored) : list str :=
  match secs with
  | [] => [piece]
  | a :: rest => piece :: a_name a :: pieces (raw_body a) rest
  end.

(** The character before the cursor once [chunk] has been passed. *)
Definition last_seen (prev : option ascii) (chunk : str) : option ascii :=
  fold_left (fun _ c => Some c) chunk prev.

(** The whitespace character a marker takes along from the head of [s]. *)
Definition gap (s : str) : str :=
  match s with
  | x :: _ => if isspace x then [x] else []
  | [] => []
  end.

(** The marker a section opens with, including the whitespace character it
    takes along. *)
Definition token (a : authored) : str :=
  a_name a ++ (if a_plural a then py "s" else []) ++ py ":" ++ gap (a_body a).

(** [s] is empty or ends with a newline or a slash; no section name does. *)
Definition tail_ok (s : str) : bool :=
  match rev s with
  | [] => true
  | c :: _ => char_eqb c NL || char_eqb c slash
  end.

(** The scenario header with the Public section written first, and the
    same text as it is authored after normalization. *)
Definition shuffled_header : str :=
  join [NL]
    [py "/*";
     py " * Public: Yes";
     py " * Author: bux578";
     py " * Does a thing.";
     py " *";
     py " * Arguments:";
     py " * 0: Unit <OBJECT>";
     py " *";
     py " * Return Value:";
     py " * Success <BOOLEAN>";
     py " *";
     py " * Example:";
     py " * [player] call ace_test_fnc_thing;";
     py " */"].

Definition shuffled_sections : list authored :=
  [mkAuthored (py "Public") false (py " Yes" ++ [NL]);
   mkAuthored (py "Author") false
     (py " bux578" ++ [NL] ++ py "Does a thing." ++ [NL; NL]);
   mkAuthored (py "Argument") true ([NL] ++ py "0: Unit <OBJECT>" ++ [NL; NL]);
   mkAuthored (py "Return Value") false ([NL] ++ py "Success <BOOLEAN>" ++ [NL; NL]);
   mkAuthored (py "Example") false
     ([NL] ++ py "[player] call ace_test_fnc_thing;" ++ [NL])].

Definition private_sections : list authored :=
  [mkAuthored (py "Author") false
     (py " bux578" ++ [NL] ++ py "Does a thing." ++ [NL; NL]);
   mkAuthored (py "Public") false (py " No" ++ [NL])].

(** *** Reading a text as authored *)

(** The section that starts at the head of [s], if [s] starts with a marker:
    its name, its plural mark and everything after the colon. *)
Fixpoint head_among (names : list str) (s : str) : option authored :=
  match names with
  | [] => None
  | n :: ns =>
      if startswith (n ++ py ":") s
      then Some (mkAuthored n false (skipn (length n + 1) s))
      else if startswith (n ++ py "s:") s
      then Some (mkAuthored n true (skipn (length n + 2) s))
      else head_among ns s
  end.

(** The text [s], read from a place that is not a line start: what precedes
    the first marker at a line start, and the sections from there on. *)
Fixpoint author_from (s : str) : str * list authored :=
  match s with
  | [] => ([], [])
  | c :: s' =>
      let (chunk, secs) := author_from s' in
      if char_eqb c NL then
        match head_among section_names chunk with
        | Some a => ([c], a :: secs)
        | None => (c :: chunk, secs)
        end
      else (c :: chunk, secs)
  end.

(** A whole text read as authored; its first character starts a line. *)
Definition author (text : str) : str * list authored :=
  let (chunk, secs) := author_from text in
  match head_among section_names chunk with
  | Some a => ([], a :: secs)
  | None => (chunk, secs)
  end.

(** ** Notions for the further properties *)

(** The boundary [e] between a line and the [rest] of a text, as
    [str.splitlines] cuts: CR LF, or one line-break character - a CR only
    if no LF follows it -, or nothing at the end of the text. *)
Definition line_boundary (e rest : str) : Prop :=
  (e = [] /\ rest = [])
  \/ e = [CR; NL]
  \/ (exists c, e = [c] /\ islinebreak c = true
                /\ ~ (c = CR /\ exists r, rest = NL :: r)).

(** A line with its end kept is the same line followed by a line boundary:
    one line-break character, or CR LF. *)
Definition line_with_end (kept bare : str) : Prop :=
  exists e, kept = bare ++ e /\ Forall (fun c => islinebreak c = true) e /\ length e <= 2.

(** A computation keeps the invariant [I] of the world and raises only
    exceptions that are [allowed]. *)
Definition respects (I : World -> Prop) (allowed : exn -> Prop) {A : Type} (m : M A)
  : Prop :=
  forall w, I w -> I (snd (m w)) /\ forall e, fst (m w) = Raise e -> allowed e.

(** An update of the object that leaves alone what the lookups and the
    reports depend on: [sections], [logged], [debug], [path] and
    [directory]. *)
Definition gentle (f : FunctionFile -> FunctionFile) : Prop :=
  forall o,
    sections (f o) = sections o /\ logged (f o) = logged o /\ debug (f o) = debug o
    /\ path (f o) = path o /\ directory (f o) = directory o.

(** In a list of sections every recognized name is either absent or
    followed by an element, its body. *)
Definition good_sections (secs : list str) : Prop :=
  forall name, In name section_names ->
    list_index name secs = None \/ exists body, section_body name secs = Some body.

(** The line that announces a file. *)
Definition announcement (relpath : str -> str -> str) (o : FunctionFile) : str :=
  py "  Processing... " ++ relpath (path o) (directory o).

(** The text [feedback] hands to [print] for a call. *)
Definition report_text (d : Z * str) : str :=
  py "    "
    ++ match py_nth priority_labels (fst d) with Some label => label | None => [] end
    ++ py ": " ++ snd d.

(** [w] continues [w0] with one call of [print] for each call of
    [feedback], with the text of the report; the first call announces the
    file, unless it was announced before, with the text [heading] ahead of
    its own. *)
Definition account (heading : str) (w0 w : World) : Prop :=
  exists ds,
    diagnostics w = diagnostics w0 ++ ds
    /\ match ds with
       | [] => stdout w = stdout w0 /\ logged (self w) = logged (self w0)
       | _ :: _ =>
           logged (self w) = true
           /\ stdout w
              = stdout w0 ++ (if logged (self w0) then [] else [heading])
                  ++ map report_text ds
       end.

(** The invariant of the reports on one file: the object is in debug mode
    [debug_arg], its path is announced by the line [heading], and the output
    is accounted for. *)
Definition reporting (relpath : str -> str -> str) (debug_arg : bool) (heading : str)
    (w0 w : World) : Prop :=
  debug (self w) = debug_arg
  /\ announcement relpath (self w) = heading
  /\ account heading w0 w.

(** [w] continues [w0] with no file written and with calls of [feedback]
    at the levels Warning, Error and Aborted only. *)
Definition parsing (w0 w : World) : Prop :=
  files w = files w0
  /\ exists ds,
       diagnostics w = diagnostics w0 ++ ds
       /\ Forall (fun d => (1 <= fst d <= 3)%Z) ds.

(** [w] continues [w0] with chunks appended to files of the wiki only. *)
Definition documenting (w0 w : World) : Prop :=
  exists chunks,
    files w = files w0 ++ chunks
    /\ Forall (fun chunk =>
                 exists component,
                   fst chunk = py "../wiki/functions/" ++ component ++ py ".md") chunks.

(** The file [document_function] appends to, and the heading it starts the
    fragment with. *)
Definition output_of (function : FunctionFile) : str :=
  py "../wiki/functions/" ++ basename (dirname (dirname (path function))) ++ py ".md".

Definition heading_of (function : FunctionFile) : str :=
  [NL] ++ py "## ace_" ++ basename (dirname (dirname (path function))) ++ py "_fnc_"
    ++ firstn (length (basename (path function)) - 8)
         (skipn 4 (basename (path function)))
    ++ [NL].


(** The number of notes kept with the arguments, and the number of Error
    reports among the calls of [feedback]. *)
Definition notes_of (arguments : list Argument) : nat :=
  length (concat (map arg_notes arguments)).

Definition errors_of (ds : list (Z * str)) : nat :=
  length (filter (fun d => (fst d =? Error)%Z) ds).

(** The names [crawl_dir] takes for function files. *)
Definition is_function_file (file : str) : bool :=
  endswith (py ".sqf") file && startswith (py "fnc_") file.

(** A walk with the function files only. *)
Definition function_files (walk : list (str * list (str * str)))
  : list (str * list (str * str)) :=
  map (fun entry => (fst entry, filter (fun f => is_function_file (fst f)) (snd entry)))
    walk.

(** A name of a file or directory: a text without a slash. *)
Definition noslash (s : str) : Prop := Forall (fun c => c <> slash) s.

(** What an argument line ends with after the types: nothing, or a white
    space character and the default value in "(default: ...)". *)
Definition default_suffix (default : option (ascii * str)) : str :=
  match default with
  | None => []
  | Some (gap_char, value) => [gap_char] ++ py "(default: " ++ value ++ py ")"
  end.

Definition default_groups (default : option (ascii * str)) : list (nat * str) :=
  match default with
  | None => []
  | Some (gap_char, value) => [(4, default_suffix default); (5, value)]
  end.

Definition good_default (default : option (ascii * str)) : Prop :=
  match default with
  | None => True
  | Some (gap_char, value) =>
      isspace gap_char = true /\ value <> [] /\ Forall (fun c => c <> NL) value
  end.

(** * Properties *)

(** ** The monad and [feedback] *)

Lemma set_logged_same (o : FunctionFile) : set_logged (logged o) o = o.
Proof. destruct o; reflexivity. Qed.

Lemma priority_label_ok (level : Z) :
  (0 <= level <= 3)%Z ->
  exists label, py_nth priority_labels level = Some label /\ In label priority_labels.
Proof.
  intros H.
  assert (level = 0 \/ level = 1 \/ level = 2 \/ level = 3)%Z as Hc by lia.
  destruct Hc as [-> | [-> | [-> | ->]]]; eexists; (split; [reflexivity | simpl; tauto]).
Qed.

(** What a call of [feedback] with a level in range does: it returns, prints
    the labelled message last, records the diagnostic, and touches no
    attribute of the object but [logged]. *)
Lemma feedback_spec (relpath : str -> str -> str) (message : str) (level : Z) (w : World) :
  (0 <= level <= 3)%Z ->
  exists b pre label,
    feedback relpath message level w =
      (Ok tt,
       mkWorld (set_logged b (self w))
         (stdout w ++ pre ++ [py "    " ++ label ++ py ": " ++ message])
         (files w) (diagnostics w ++ [(level, message)]))
    /\ py_nth priority_labels level = Some label.
Proof.
  intros H. destruct (priority_label_ok H) as [label [Hl _]].
  unfold feedback, subscript. rewrite Hl.
  unfold log_file, get_self, bind, write, print, modify_self, note_diagnostic, ret; simpl.
  destruct (negb (debug (self w)) || (0 <? level)%Z); simpl.
  - destruct (logged (self w)) eqn:Hlog; simpl.
    + exists (logged (self w)), [], label. rewrite set_logged_same.
      split; reflexivity.
    + exists true, [py "  " ++ py "Processing... " ++ relpath (path (self w)) (directory (self w))], label.
      rewrite <- app_assoc. split; reflexivity.
  - exists (logged (self w)), [], label. rewrite set_logged_same.
    split; reflexivity.
Qed.

(** Replaces a call of [feedback] with a level in range by its outcome. *)
Ltac run_feedback :=
  match goal with
  | |- context [feedback ?r ?m ?l ?w] =>
      let b := fresh "b" in
      let pre := fresh "pre" in
      let label := fresh "label" in
      let Hf := fresh "Hf" in
      destruct (@feedback_spec r m l w) as [b [pre [label [Hf _]]]];
      [lia | rewrite Hf]
  end.

(** Case analysis over all 256 characters. *)
Ltac each_char c :=
  destruct c as [[|] [|] [|] [|] [|] [|] [|] [|]].

Lemma char_eqb_eq (a b : ascii) : char_eqb a b = true <-> a = b.
Proof. apply Ascii.eqb_eq. Qed.

Lemma str_eqb_eq (a b : str) : str_eqb a b = true <-> a = b.
Proof.
  revert b. induction a as [|x a IH]; intros [|y b]; simpl; split; intros H;
    try reflexivity; try discriminate.
  - apply andb_true_iff in H. destruct H as [H1 H2].
    apply char_eqb_eq in H1. apply IH in H2. subst. reflexivity.
  - injection H as -> ->. apply andb_true_iff. split.
    + apply char_eqb_eq. reflexivity.
    + apply IH. reflexivity.
Qed.

Lemma str_eqb_neq (a b : str) : str_eqb a b = false <-> a <> b.
Proof.
  split.
  - intros H E. apply str_eqb_eq in E. congruence.
  - intros H. destruct (str_eqb a b) eqn:E; [apply str_eqb_eq in E; contradiction | reflexivity].
Qed.

(** ** The scenario (C2) *)

(** C2, as the code behaves: on the scenario header, [process_header] yields
    public=true, authors=["bux578"], description="Does a thing.\n\n" (the blank
    line that closes the section stays in), one argument
    ("0","Unit ","OBJECT","",[]) and the return value ("Success ","BOOLEAN"),
    both names keeping the space written before the angle bracket, and the
    example "[player] call ace_test_fnc_thing;"; nothing is reported. *)
Theorem scenario_header_parses (relpath : str -> str -> str) :
  let r := process_header relpath false scenario_world in
  fst r = Ok tt
  /\ public (self (snd r)) = true
  /\ authors (self (snd r)) = [py "bux578"]
  /\ description (self (snd r)) = py "Does a thing." ++ [NL; NL]
  /\ arguments (self (snd r))
     = [mkArgument (py "0") (py "Unit ") (py "OBJECT") [] []]
  /\ return_value (self (snd r)) = [py "Success "; py "BOOLEAN"]
  /\ example (self (snd r)) = py "[player] call ace_test_fnc_thing;"
  /\ diagnostics (snd r) = [].
Proof.
  vm_compute. repeat split.
Qed.

(** C2 as stated does not hold: the description, the argument name and the
    return name the claim lists are not the ones the code produces. *)
Lemma scenario_header_not_as_claimed :
  let r := process_header (fun p _ => p) false scenario_world in
  ~ (public (self (snd r)) = true
     /\ authors (self (snd r)) = [py "bux578"]
     /\ description (self (snd r)) = py "Does a thing." ++ [NL]
     /\ arguments (self (snd r))
        = [mkArgument (py "0") (py "Unit") (py "OBJECT") [] []]
     /\ return_value (self (snd r)) = [py "Success"; py "BOOLEAN"]
     /\ example (self (snd r)) = py "[player] call ace_test_fnc_thing;").
Proof.
  intros r [_ [_ [H _]]]. vm_compute in H. discriminate H.
Qed.

(** ** Malformed return values (C1) *)

Lemma process_return_value_malformed (relpath : str -> str -> str) (raw : str) (w : World) :
  str_eqb (title (strip raw)) (py "None") = false ->
  re_match no_flags return_re (strip raw) = None ->
  exists w',
    process_return_value relpath raw w = (Raise UnboundLocalError, w')
    /\ diagnostics w'
       = diagnostics w ++ [(Error, py "Malformed return value " ++ quoted (strip raw))].
Proof.
  intros Ht Hm. unfold process_return_value. rewrite Ht, Hm.
  destruct (@feedback_spec relpath (py "Malformed return value " ++ quoted (strip raw)) 2 w)
    as [b [pre [label [Hf _]]]]; [lia|].
  unfold bind. rewrite Hf. eexists. split; reflexivity.
Qed.

(** C1, where the code departs from it: for every return-value body whose
    trimmed text does not title-case to "None" and does not match the
    pattern, [process_return_value] reports the one Error diagnostic
    "Malformed return value ..." and then raises [UnboundLocalError] instead
    of returning.  So it is for the body "Success BOOLEAN\n", and the
    exception leaves [process_header] as well. *)
Theorem process_return_value_raises (relpath : str -> str -> str) :
  (forall (raw : str) (w : World),
      str_eqb (title (strip raw)) (py "None") = false ->
      re_match no_flags return_re (strip raw) = None ->
      exists w',
        process_return_value relpath raw w = (Raise UnboundLocalError, w')
        /\ diagnostics w'
           = diagnostics w
               ++ [(Error, py "Malformed return value " ++ quoted (strip raw))])
  /\ (let raw := py "Success BOOLEAN" ++ [NL] in
      let r := process_return_value relpath raw
                 (imported_world malformed_return_header) in
      str_eqb (title (strip raw)) (py "None") = false
      /\ re_match no_flags return_re (strip raw) = None
      /\ fst r = Raise UnboundLocalError
      /\ diagnostics (snd r)
         = [(Error, py "Malformed return value " ++ quoted (py "Success BOOLEAN"))]
      /\ fst (process_header relpath false
                (imported_world malformed_return_header))
         = Raise UnboundLocalError).
Proof.
  split.
  - intros raw w. apply process_return_value_malformed.
  - vm_compute. repeat split.
Qed.

Lemma process_return_value_raises_witness :
  let relpath := fun (p _ : str) => p in
  exists w',
    process_return_value relpath (py "Success BOOLEAN" ++ [NL])
      (imported_world malformed_return_header)
      = (Raise UnboundLocalError, w')
    /\ diagnostics w'
       = [(Error, py "Malformed return value " ++ quoted (py "Success BOOLEAN"))].
Proof.
  intros relpath.
  destruct (process_return_value_raises relpath) as [H _].
  destruct (H (py "Success BOOLEAN" ++ [NL]) (imported_world malformed_return_header))
    as [w' [Hrun Hd]].
  - reflexivity.
  - reflexivity.
  - exists w'. split; [exact Hrun | exact Hd].
Defined.

(** ** Argument indices (C7) *)

Lemma process_argument_line_valid (relpath : str -> str -> str)
    (argument : str) (arguments : list Argument) (w : World) (valid : match_obj) :
  re_match no_flags argument_re argument = Some valid ->
  let arg_index := group_text 1 valid in
  let accepted :=
    mkArgument arg_index (group_text 2 valid) (group_text 3 valid)
      (match group 5 valid with None => [] | Some d => d end) [] in
  exists w',
    process_argument_line relpath argument arguments w
      = (Ok (arguments ++ [accepted]), w')
    /\ (arg_index = str_of_nat (length arguments) -> w' = w)
    /\ (arg_index <> str_of_nat (length arguments) ->
        diagnostics w'
        = diagnostics w
            ++ [(Warning, py "Argument index " ++ arg_index
                            ++ py " does not match listed order")]).
Proof.
  intros Hm arg_index accepted. unfold process_argument_line. rewrite Hm.
  fold arg_index.
  destruct (str_eqb arg_index (str_of_nat (length arguments))) eqn:E; simpl.
  - apply str_eqb_eq in E. exists w.
    split; [reflexivity|]. split; [reflexivity | intros; contradiction].
  - apply str_eqb_neq in E.
    destruct (@feedback_spec relpath
                (py "Argument index " ++ arg_index ++ py " does not match listed order")
                1 w) as [b [pre [label [Hf _]]]]; [lia|].
    unfold bind. simpl in Hf. simpl. rewrite Hf. eexists.
    split; [reflexivity|]. split; [intros; contradiction | intros _; reflexivity].
Qed.

(** C7: a line that matches the argument pattern is appended with the index
    as written; when that index is the decimal text of the number of
    arguments accepted so far nothing is reported, otherwise exactly the
    Warning "Argument index N does not match listed order" is.  So
    "0: Unit<OBJECT>" followed by "1: Target<OBJECT>" parses silently, and
    with "2: Target<OBJECT>" in second place the Warning for index 2 is the
    only diagnostic and the argument is kept with index "2". *)
Theorem argument_index_order (relpath : str -> str -> str) :
  (forall (argument : str) (arguments : list Argument) (w : World) (valid : match_obj),
      re_match no_flags argument_re argument = Some valid ->
      exists w',
        process_argument_line relpath argument arguments w
          = (Ok (arguments
                   ++ [mkArgument (group_text 1 valid) (group_text 2 valid)
                         (group_text 3 valid)
                         (match group 5 valid with None => [] | Some d => d end) []]),
             w')
        /\ (group_text 1 valid = str_of_nat (length arguments) -> w' = w)
        /\ (group_text 1 valid <> str_of_nat (length arguments) ->
            diagnostics w'
            = diagnostics w
                ++ [(Warning, py "Argument index " ++ group_text 1 valid
                                ++ py " does not match listed order")]))
  /\ (let r := process_arguments relpath
                 (py "0: Unit<OBJECT>" ++ [NL] ++ py "1: Target<OBJECT>" ++ [NL; NL])
                 (imported_world scenario_header) in
      fst r = Ok [mkArgument (py "0") (py "Unit") (py "OBJECT") [] [];
                  mkArgument (py "1") (py "Target") (py "OBJECT") [] []]
      /\ diagnostics (snd r) = [])
  /\ (let r := process_arguments relpath
                 (py "0: Unit<OBJECT>" ++ [NL] ++ py "2: Target<OBJECT>" ++ [NL; NL])
                 (imported_world scenario_header) in
      fst r = Ok [mkArgument (py "0") (py "Unit") (py "OBJECT") [] [];
                  mkArgument (py "2") (py "Target") (py "OBJECT") [] []]
      /\ diagnostics (snd r)
         = [(Warning, py "Argument index 2 does not match listed order")]).
Proof.
  split; [|split].
  - intros argument arguments w valid Hm.
    exact (process_argument_line_valid relpath argument arguments w Hm).
  - vm_compute. split; reflexivity.
  - vm_compute. split; reflexivity.
Qed.

Lemma argument_index_order_witness :
  let relpath := fun (p _ : str) => p in
  let w := imported_world scenario_header in
  let accepted := [mkArgument (py "0") (py "Unit") (py "OBJECT") [] []] in
  exists valid w',
    re_match no_flags argument_re (py "2: Target<OBJECT>") = Some valid
    /\ process_argument_line relpath (py "2: Target<OBJECT>") accepted w
       = (Ok (accepted ++ [mkArgument (py "2") (py "Target") (py "OBJECT") [] []]), w')
    /\ diagnostics w' = [(Warning, py "Argument index 2 does not match listed order")].
Proof.
  intros relpath w accepted.
  destruct (re_match no_flags argument_re (py "2: Target<OBJECT>")) as [valid|] eqn:Hm;
    [|vm_compute in Hm; discriminate Hm].
  destruct (argument_index_order relpath) as [Hgen _].
  destruct (Hgen (py "2: Target<OBJECT>") accepted w valid Hm) as [w' [Hrun [_ Hwarn]]].
  exists valid, w'. split; [reflexivity|].
  assert (Hv : Some valid = re_match no_flags argument_re (py "2: Target<OBJECT>"))
    by (symmetry; exact Hm).
  vm_compute in Hv. injection Hv as ->.
  split.
  - exact Hrun.
  - rewrite Hwarn; [reflexivity|]. vm_compute. discriminate.
Defined.

(** ** Equations of the matcher *)

Lemma rmatch_Cat fl a b st k :
  rmatch fl (Cat a b) st k = rmatch fl a st (fun st' => rmatch fl b st' k).
Proof. reflexivity. Qed.

Lemma rmatch_Alt fl a b st k :
  rmatch fl (Alt a b) st k
  = match rmatch fl a st k with Some m => Some m | None => rmatch fl b st k end.
Proof. reflexivity. Qed.

Lemma rmatch_Grp fl n a st k :
  rmatch fl (Grp n a) st k
  = rmatch fl a st (fun st' =>
      k (set_group n
           (firstn (length (m_rest st) - length (m_rest st')) (m_rest st)) st')).
Proof. reflexivity. Qed.

Lemma rmatch_Star fl g a st k :
  rmatch fl (Star g a) st k
  = star_loop (rmatch fl a) g k (S (length (m_rest st))) st.
Proof. reflexivity. Qed.

Lemma rmatch_Bol fl st k :
  rmatch fl Bol st k = if at_bol fl st then k st else None.
Proof. reflexivity. Qed.

Lemma rmatch_Dot fl st k :
  rmatch fl Dot st k
  = match m_rest st with
    | x :: xs =>
        if DOTALL fl || negb (char_eqb x NL) then k (advance st x xs) else None
    | [] => None
    end.
Proof. reflexivity. Qed.

Lemma rmatch_Cls fl cs st k :
  rmatch fl (Cls cs) st k
  = match m_rest st with
    | x :: xs => if in_cset cs x then k (advance st x xs) else None
    | [] => None
    end.
Proof. reflexivity. Qed.

Lemma rmatch_Lit fl c st k :
  rmatch fl (Lit c) st k
  = match m_rest st with
    | x :: xs => if lit_matches fl c x then k (advance st x xs) else None
    | [] => None
    end.
Proof. reflexivity. Qed.

Lemma rmatch_Str fl p st k :
  rmatch fl (Str p) st k
  = if lits_match fl p (m_rest st) then k (consume st (length p)) else None.
Proof.
  revert st. induction p as [|c p IH]; intros st.
  - reflexivity.
  - simpl. destruct (m_rest st) as [|x xs] eqn:E; [reflexivity|].
    destruct (lit_matches fl c x); [|reflexivity].
    rewrite IH. reflexivity.
Qed.

Lemma consume_rest st n :
  m_rest (consume st n) = skipn n (m_rest st).
Proof.
  revert st. induction n as [|n IH]; intros st; simpl.
  - reflexivity.
  - destruct (m_rest st) as [|x xs] eqn:E; [rewrite E; reflexivity|].
    rewrite IH. reflexivity.
Qed.

Lemma consume_groups st n : m_groups (consume st n) = m_groups st.
Proof.
  revert st. induction n as [|n IH]; intros st; simpl.
  - reflexivity.
  - destruct (m_rest st) as [|x xs]; [reflexivity|]. rewrite IH. reflexivity.
Qed.

(** The matcher only ever uses its continuation through its results. *)
Lemma star_loop_ext (body : mstate -> kont -> option mstate) (greedy : bool)
    (k1 k2 : kont) (fuel : nat) (st : mstate) :
  (forall s j1 j2, (forall x, j1 x = j2 x) -> body s j1 = body s j2) ->
  (forall x, k1 x = k2 x) ->
  star_loop body greedy k1 fuel st = star_loop body greedy k2 fuel st.
Proof.
  intros Hbody Hk. revert st. induction fuel as [|fuel IH]; intros st; [reflexivity|].
  cbn [star_loop]. rewrite (Hk st).
  rewrite (Hbody st
             (fun st' => if length (m_rest st') <? length (m_rest st)
                         then star_loop body greedy k1 fuel st' else None)
             (fun st' => if length (m_rest st') <? length (m_rest st)
                         then star_loop body greedy k2 fuel st' else None)).
  - reflexivity.
  - intros x. destruct (length (m_rest x) <? length (m_rest st)); [apply IH | reflexivity].
Qed.

Lemma rmatch_ext (fl : flags) (r : regex) (st : mstate) (k1 k2 : kont) :
  (forall x, k1 x = k2 x) -> rmatch fl r st k1 = rmatch fl r st k2.
Proof.
  revert st k1 k2. induction r as [| c | cs | | | | a IHa b IHb | a IHa b IHb | g a IHa | n a IHa];
    intros st k1 k2 Hk; cbn [rmatch].
  - apply Hk.
  - destruct (m_rest st); [reflexivity|]. destruct (lit_matches fl c a); [apply Hk | reflexivity].
  - destruct (m_rest st); [reflexivity|]. destruct (in_cset cs a); [apply Hk | reflexivity].
  - destruct (m_rest st); [reflexivity|].
    destruct (DOTALL fl || negb (char_eqb a NL)); [apply Hk | reflexivity].
  - destruct (at_bol fl st); [apply Hk | reflexivity].
  - destruct (at_eol fl st); [apply Hk | reflexivity].
  - apply IHa. intros x. apply IHb. exact Hk.
  - rewrite (IHa st k1 k2 Hk), (IHb st k1 k2 Hk). reflexivity.
  - apply star_loop_ext; [|exact Hk]. intros s j1 j2 Hj. apply IHa. exact Hj.
  - apply IHa. intros x. apply Hk.
Qed.

(** The fuel of a repetition never runs out: any amount above the length of
    the remaining text gives the same result. *)
Lemma star_loop_fuel (fl : flags) (a : regex) (greedy : bool) (k : kont)
    (f1 f2 : nat) (st : mstate) :
  length (m_rest st) < f1 ->
  length (m_rest st) < f2 ->
  star_loop (rmatch fl a) greedy k f1 st = star_loop (rmatch fl a) greedy k f2 st.
Proof.
  revert f2 st. induction f1 as [|f1 IH]; intros f2 st H1 H2; [lia|].
  destruct f2 as [|f2]; [lia|]. cbn [star_loop].
  rewrite (@rmatch_ext fl a st
             (fun st' => if length (m_rest st') <? length (m_rest st)
                         then star_loop (rmatch fl a) greedy k f1 st' else None)
             (fun st' => if length (m_rest st') <? length (m_rest st)
                         then star_loop (rmatch fl a) greedy k f2 st' else None)).
  - reflexivity.
  - intros x. destruct (length (m_rest x) <? length (m_rest st)) eqn:E; [|reflexivity].
    apply Nat.ltb_lt in E. apply IH; lia.
Qed.

(** ** The Public flag (C5, C9) *)

Lemma lits_match_nocase (p s : str) :
  lits_match public_flags p s = startswith_nocase p s.
Proof.
  revert s. induction p as [|c p IH]; intros [|x s]; simpl; try reflexivity.
  rewrite IH. reflexivity.
Qed.

Lemma public_re_prefix (s : str) :
  is_some (re_match public_flags public_re s) = starts_with_yes_or_no s.
Proof.
  unfold re_match, match_at, public_re, starts_with_yes_or_no.
  rewrite rmatch_Grp, rmatch_Alt, !rmatch_Str, !lits_match_nocase.
  cbn [m_rest].
  destruct (startswith_nocase (py "Yes") s); [reflexivity|].
  destruct (startswith_nocase (py "No") s); reflexivity.
Qed.

Lemma removelast_drops_last (raw : str) :
  raw <> [] -> exists c, raw = removelast raw ++ [c].
Proof.
  intros H. exists (last raw zero). apply app_removelast_last. exact H.
Qed.

Lemma process_public_run (relpath : str -> str -> str) (raw : str) (w : World) :
  exists w',
    process_public relpath raw w
      = (Ok (str_eqb (capitalize (removelast raw)) (py "Yes")), w')
    /\ (starts_with_yes_or_no (removelast raw) = true -> w' = w)
    /\ (starts_with_yes_or_no (removelast raw) = false ->
        exists b pre,
          w' = mkWorld (set_logged b (self w))
                 (stdout w ++ pre
                    ++ [py "    Error: Invalid public value " ++ quoted (removelast raw)])
                 (files w)
                 (diagnostics w
                    ++ [(Error, py "Invalid public value " ++ quoted (removelast raw))])).
Proof.
  unfold process_public.
  pose proof (public_re_prefix (removelast raw)) as Hp.
  destruct (re_match public_flags public_re (removelast raw)) as [m|]; simpl in Hp.
  - exists w. split; [reflexivity|]. split; [reflexivity|].
    intros H. rewrite H in Hp. discriminate Hp.
  - destruct (@feedback_spec relpath (py "Invalid public value " ++ quoted (removelast raw)) 2 w)
      as [b [pre [label [Hf Hl]]]]; [lia|].
    injection Hl as <-.
    unfold bind. rewrite Hf. eexists. split; [reflexivity|].
    split; [intros H; rewrite H in Hp; discriminate Hp|].
    intros _. exists b, pre. reflexivity.
Qed.

(** C5: for a non-empty raw Public body, [process_public] works on the body
    without its last character; it returns true exactly when that text
    capitalized is "Yes", and it reports the Error "Invalid public value ..."
    exactly when the text does not start, case-insensitively, with "Yes" or
    "No" - whatever follows such a prefix is never reported. *)
Theorem process_public_spec (relpath : str -> str -> str) (raw : str) (w : World) :
  raw <> [] ->
  let public_text := removelast raw in
  exists (c : ascii) (b : bool) (w' : World),
    raw = public_text ++ [c]
    /\ process_public relpath raw w = (Ok b, w')
    /\ (b = true <-> capitalize public_text = py "Yes")
    /\ (starts_with_yes_or_no public_text = true -> w' = w)
    /\ (starts_with_yes_or_no public_text = false ->
        diagnostics w'
        = diagnostics w ++ [(Error, py "Invalid public value " ++ quoted public_text)])
    /\ (forall tail : str,
          public_text = py "Yes" ++ tail \/ public_text = py "No" ++ tail -> w' = w).
Proof.
  intros Hne public_text.
  destruct (removelast_drops_last Hne) as [c Hc].
  destruct (process_public_run relpath raw w) as [w' [Hrun [Hok Hbad]]].
  exists c, (str_eqb (capitalize public_text) (py "Yes")), w'.
  split; [exact Hc|]. split; [exact Hrun|].
  split; [apply str_eqb_eq|]. split; [exact Hok|]. split.
  - intros H. destruct (Hbad H) as [b [pre ->]]. reflexivity.
  - intros tail [H | H]; apply Hok; fold public_text; rewrite H;
      unfold starts_with_yes_or_no; simpl; vm_compute; reflexivity.
Qed.

(** ** Private headers (C8, C9) *)

Lemma get_section_found (relpath : str -> str -> str) (name raw : str) (w : World) :
  section_body name (sections (self w)) = Some raw ->
  get_section relpath name w = (Ok raw, w).
Proof.
  unfold section_body, get_section, bind, get_self, subscript.
  destruct (list_index name (sections (self w))) as [i|]; [|discriminate].
  intros ->. reflexivity.
Qed.

Lemma process_header_start (relpath : str -> str -> str) (debug_arg : bool) (w : World) :
  process_header relpath debug_arg w
  = (public_raw <- get_section relpath (py "Public") ;;
     if is_empty public_raw then feedback relpath (py "Public value undefined") 3
     else
       is_pub <- process_public relpath public_raw ;;
       modify_self (set_public is_pub) ;;;
       o <- get_self ;;
       if negb (public o) && negb (debug o) then ret tt
       else
         author_raw <- get_section relpath (py "Author") ;;
         arguments_raw <- get_section relpath (py "Argument") ;;
         return_value_raw <- get_section relpath (py "Return Value") ;;
         example_raw <- get_section relpath (py "Example") ;;
         when (negb (is_empty author_raw))
           (a <- process_author author_raw ;;
            modify_self (set_authors a) ;;;
            d <- process_description author_raw ;;
            modify_self (set_description d)) ;;;
         when (negb (is_empty arguments_raw))
           (a <- process_arguments relpath arguments_raw ;;
            modify_self (set_arguments a)) ;;;
         when (negb (is_empty return_value_raw))
           (r <- process_return_value relpath return_value_raw ;;
            modify_self (set_return_value r)) ;;;
         when (negb (is_empty example_raw))
           (modify_self (set_example (strip example_raw))))
      (start_header debug_arg w).
Proof. reflexivity. Qed.

Lemma process_header_private (relpath : str -> str -> str) (w : World) (raw : str) :
  section_body (py "Public") (split_sections (normalize_header (header (self w)))) = Some raw ->
  raw <> [] ->
  capitalize (removelast raw) <> py "Yes" ->
  exists w1,
    process_public relpath raw (start_header false w) = (Ok false, w1)
    /\ process_header relpath false w = (Ok tt, with_public false w1).
Proof.
  intros Hsec Hne Hcap.
  destruct (process_public_run relpath raw (start_header false w)) as [w1 [Hrun [Hok Hbad]]].
  apply str_eqb_neq in Hcap. rewrite Hcap in Hrun.
  exists w1. split; [exact Hrun|].
  rewrite process_header_start.
  unfold bind at 1. rewrite (@get_section_found relpath (py "Public") raw); [|exact Hsec].
  destruct raw as [|c raw]; [contradiction|]. cbn [is_empty].
  unfold bind at 1. rewrite Hrun.
  unfold bind at 1. unfold modify_self at 1. unfold bind at 1. unfold get_self at 1.
  cbn [self public debug set_public negb andb].
  assert (Hd : debug (self w1) = false).
  { destruct (starts_with_yes_or_no (removelast (c :: raw))) eqn:E.
    - rewrite (Hok eq_refl). reflexivity.
    - destruct (Hbad eq_refl) as [b [pre ->]]. reflexivity. }
  rewrite Hd. reflexivity.
Qed.

Lemma totitle_Yes (c : ascii) (rest : str) :
  totitle c ++ rest = py "Yes" -> lower c = chr "y" /\ rest = py "es".
Proof.
  intros H. each_char c; vm_compute in H; try discriminate H;
    injection H as H; subst rest; split; reflexivity.
Qed.

Lemma lower_is (c x : ascii) :
  lower c = x -> x = chr "e" \/ x = chr "s" -> char_eqb (lower x) (lower c) = true.
Proof.
  intros H [-> | ->]; rewrite H; reflexivity.
Qed.

Lemma capitalize_Yes_prefix (t : str) :
  capitalize t = py "Yes" -> starts_with_yes_or_no t = true.
Proof.
  destruct t as [|c r]; [discriminate|]. unfold capitalize. intros H.
  apply totitle_Yes in H. destruct H as [Hc Hr].
  destruct r as [|a [|b [|x r]]]; try discriminate Hr.
  injection Hr as Ha Hb.
  unfold starts_with_yes_or_no. apply orb_true_iff. left.
  cbn [startswith_nocase py list_ascii_of_string].
  rewrite Hc. rewrite (@lower_is a _ Ha), (@lower_is b _ Hb); [reflexivity | tauto | tauto].
Qed.

Lemma invalid_public_not_yes (t : str) :
  starts_with_yes_or_no t = false -> str_eqb (capitalize t) (py "Yes") = false.
Proof.
  intros H. apply str_eqb_neq. intros E.
  apply capitalize_Yes_prefix in E. congruence.
Qed.

(** C8: when the Public section of a header parses to false and debug mode
    is off, [process_header] returns right after [process_public]: the
    object created for the file keeps authors=[], description="",
    arguments=[], return_value=[] and example="", and the only diagnostic
    there can be is the one [process_public] gave about the flag itself. *)
Theorem private_header_keeps_defaults (relpath : str -> str -> str)
    (d p h raw : str) (out : list str) (fs : list (str * str)) (ds : list (Z * str)) :
  let w := mkWorld (imported d p h) out fs ds in
  section_body (py "Public") (split_sections (normalize_header h)) = Some raw ->
  raw <> [] ->
  fst (process_public relpath raw (start_header false w)) = Ok false ->
  exists w',
    process_header relpath false w = (Ok tt, w')
    /\ w' = with_public false (snd (process_public relpath raw (start_header false w)))
    /\ public (self w') = false
    /\ authors (self w') = []
    /\ description (self w') = []
    /\ arguments (self w') = []
    /\ return_value (self w') = []
    /\ example (self w') = []
    /\ diagnostics w'
       = ds ++ (if starts_with_yes_or_no (removelast raw) then []
                else [(Error, py "Invalid public value " ++ quoted (removelast raw))]).
Proof.
  intros w Hsec Hne Hfalse.
  destruct (process_public_run relpath raw (start_header false w)) as [w1 [Hrun [Hok Hbad]]].
  rewrite Hrun in Hfalse. cbn [fst] in Hfalse.
  assert (Hcap : capitalize (removelast raw) <> py "Yes").
  { apply str_eqb_neq. congruence. }
  destruct (@process_header_private relpath w raw Hsec Hne Hcap) as [w1' [Hrun' Hhead]].
  rewrite Hrun in *. cbn [snd].
  assert (w1' = w1) by congruence. subst w1'.
  exists (with_public false w1). split; [exact Hhead|]. split; [reflexivity|].
  destruct (starts_with_yes_or_no (removelast raw)) eqn:E.
  - rewrite (Hok eq_refl). cbn. rewrite app_nil_r. repeat split.
  - destruct (Hbad eq_refl) as [b [pre ->]]. cbn. repeat split.
Qed.

Lemma private_header_keeps_defaults_witness :
  let relpath := fun (p _ : str) => p in
  let w := mkWorld (imported (py "/addons") (py "/addons/x/functions/fnc_a.sqf") private_header)
             [] [] [] in
  exists w',
    process_header relpath false w = (Ok tt, w')
    /\ authors (self w') = [] /\ arguments (self w') = [] /\ diagnostics w' = [].
Proof.
  intros relpath w.
  destruct (@private_header_keeps_defaults relpath (py "/addons")
              (py "/addons/x/functions/fnc_a.sqf") private_header (py "No" ++ [NL])
              [] [] [])
    as [w' [Hrun [_ [_ [Ha [_ [Hg [_ [_ Hd]]]]]]]]].
  - vm_compute. reflexivity.
  - discriminate.
  - vm_compute. reflexivity.
  - exists w'. split; [exact Hrun|]. split; [exact Ha|]. split; [exact Hg|].
    rewrite Hd. vm_compute. reflexivity.
Defined.

Lemma process_public_spec_witness :
  let relpath := fun (p _ : str) => p in
  exists (c : ascii) (b : bool) (w' : World),
    py "yES" ++ [NL] = py "yES" ++ [c]
    /\ process_public relpath (py "yES" ++ [NL]) (imported_world scenario_header) = (Ok b, w')
    /\ (b = true <-> capitalize (py "yES") = py "Yes").
Proof.
  intros relpath.
  destruct (@process_public_spec relpath (py "yES" ++ [NL]) (imported_world scenario_header))
    as [c [b [w' [Hc [Hrun [Hb _]]]]]].
  - discriminate.
  - exists c, b, w'. split; [exact Hc|]. split; [exact Hrun | exact Hb].
Defined.

(** C9: a Public body whose text (last character dropped) does not start,
    case-insensitively, with "Yes" or "No" makes [process_public] return
    false after the one Error diagnostic about the value; in non-debug mode
    [process_header] then stops as for a private function, the other fields
    staying at their defaults, with that Error as the only diagnostic. *)
Theorem invalid_public_is_private (relpath : str -> str -> str)
    (d p h raw : str) (out : list str) (fs : list (str * str)) (ds : list (Z * str)) :
  let w := mkWorld (imported d p h) out fs ds in
  let invalid := (Error, py "Invalid public value " ++ quoted (removelast raw)) in
  starts_with_yes_or_no (removelast raw) = false ->
  (forall w0 : World,
      exists w1,
        process_public relpath raw w0 = (Ok false, w1)
        /\ diagnostics w1 = diagnostics w0 ++ [invalid])
  /\ (section_body (py "Public") (split_sections (normalize_header h)) = Some raw ->
      raw <> [] ->
      exists w',
        process_header relpath false w = (Ok tt, w')
        /\ public (self w') = false
        /\ authors (self w') = []
        /\ description (self w') = []
        /\ arguments (self w') = []
        /\ return_value (self w') = []
        /\ example (self w') = []
        /\ diagnostics w' = ds ++ [invalid]).
Proof.
  intros w invalid Hbad. split.
  - intros w0.
    destruct (process_public_run relpath raw w0) as [w1 [Hrun [_ Hbad1]]].
    rewrite (invalid_public_not_yes _ Hbad) in Hrun.
    exists w1. split; [exact Hrun|].
    destruct (Hbad1 Hbad) as [b [pre ->]]. reflexivity.
  - intros Hsec Hne.
    assert (Hcap : capitalize (removelast raw) <> py "Yes").
    { apply str_eqb_neq. apply invalid_public_not_yes. exact Hbad. }
    destruct (@process_header_private relpath w raw Hsec Hne Hcap) as [w1 [Hrun Hhead]].
    destruct (process_public_run relpath raw (start_header false w)) as [w1' [Hrun' [_ Hbad1]]].
    assert (w1' = w1) by congruence. subst w1'.
    destruct (Hbad1 Hbad) as [b [pre Hw1]].
    exists (with_public false w1). split; [exact Hhead|].
    rewrite Hw1. cbn. repeat split.
Qed.

Lemma invalid_public_is_private_witness :
  let relpath := fun (p _ : str) => p in
  let w := mkWorld (imported (py "/addons") (py "/addons/x/functions/fnc_a.sqf")
                      invalid_public_header) [] [] [] in
  exists w',
    process_header relpath false w = (Ok tt, w')
    /\ public (self w') = false
    /\ diagnostics w' = [(Error, py "Invalid public value " ++ quoted (py "Maybe"))].
Proof.
  intros relpath w.
  destruct (@invalid_public_is_private relpath (py "/addons")
              (py "/addons/x/functions/fnc_a.sqf") invalid_public_header
              (py "Maybe" ++ [NL]) [] [] [])
    as [_ Hhead].
  - vm_compute. reflexivity.
  - destruct Hhead as [w' [Hrun [Hp [_ [_ [_ [_ [_ Hd]]]]]]]].
    + vm_compute. reflexivity.
    + discriminate.
    + exists w'. split; [exact Hrun|]. split; [exact Hp | exact Hd].
Defined.

(** ** Empty argument lists (C6) *)

Lemma splitlines_from_nonempty (keepends cr : bool) (cur s : str) :
  s <> [] \/ cur <> [] -> splitlines_from keepends cr cur s <> [].
Proof.
  revert cr cur. induction s as [|c r IH]; intros cr cur H.
  - destruct H as [H | H]; [contradiction|].
    simpl. destruct cur; [contradiction | discriminate].
  - simpl. destruct (islinebreak c).
    + destruct (char_eqb c CR && match r with d :: _ => char_eqb d NL | [] => false end) eqn:E.
      * apply IH. left. destruct r; [|discriminate].
        rewrite andb_false_r in E. discriminate E.
      * discriminate.
    + apply IH. right. discriminate.
Qed.

Lemma splitlines_nonempty (keepends : bool) (raw : str) :
  raw <> [] -> splitlines keepends raw <> [].
Proof.
  intros H. apply splitlines_from_nonempty. left. exact H.
Qed.

Lemma count_empty_all (lines : list str) :
  Forall (fun l => l = []) lines -> count_empty lines = length lines.
Proof.
  unfold count_empty. induction 1 as [|l ls Hl _ IH]; simpl.
  - reflexivity.
  - subst l. simpl. rewrite IH. reflexivity.
Qed.

(** C6: a body whose first line is exactly "None" gives the empty argument
    list and no diagnostic; a body all of whose lines are empty gives the
    empty list and exactly the one Error diagnostic "No arguments provided
    ...".  The body is not the empty text: [process_header] hands the
    Arguments section to [process_arguments] only if it is not empty. *)
Theorem process_arguments_none_or_blank (relpath : str -> str -> str) (raw : str) (w : World) :
  (nth_error (splitlines false raw) 0 = Some (py "None") ->
   process_arguments relpath raw w = (Ok [], w))
  /\ (raw <> [] ->
      Forall (fun l => l = []) (splitlines false raw) ->
      exists w',
        process_arguments relpath raw w = (Ok [], w')
        /\ diagnostics w'
           = diagnostics w
               ++ [(Error, py "No arguments provided (use " ++ quoted (py "None")
                             ++ py " where appropriate)")]).
Proof.
  split.
  - intros H. unfold process_arguments, subscript, py_nth. cbn [Z.leb Z.to_nat Z.compare].
    rewrite H. reflexivity.
  - intros Hne Hall. unfold process_arguments.
    pose proof (splitlines_nonempty false Hne) as Hl.
    rewrite (count_empty_all Hall), Nat.eqb_refl.
    destruct (splitlines false raw) as [|l ls]; [contradiction|].
    inversion Hall as [|? ? Hl0 _]; subst.
    unfold subscript, py_nth. cbn [Z.leb Z.to_nat Z.compare nth_error].
    unfold bind. cbn [ret str_eqb py list_ascii_of_string].
    run_feedback. eexists. split; reflexivity.
Qed.

Lemma process_arguments_none_or_blank_witness :
  let relpath := fun (p _ : str) => p in
  let w := imported_world scenario_header in
  process_arguments relpath (py "None" ++ [NL; NL]) w = (Ok [], w)
  /\ exists w',
       process_arguments relpath [NL; NL] w = (Ok [], w')
       /\ diagnostics w'
          = [(Error, py "No arguments provided (use " ++ quoted (py "None")
                       ++ py " where appropriate)")].
Proof.
  intros relpath w. split.
  - apply (process_arguments_none_or_blank relpath (py "None" ++ [NL; NL]) w).
    reflexivity.
  - destruct (process_arguments_none_or_blank relpath [NL; NL] w) as [_ H].
    destruct H as [w' [Hrun Hd]].
    + discriminate.
    + vm_compute. repeat constructor.
    + exists w'. split; [exact Hrun | exact Hd].
Defined.

(** Why the body must not be the empty text: it has no line at all, and
    [lines[0]] raises [IndexError].  [process_header] keeps this input away
    from [process_arguments]. *)
Lemma process_arguments_empty_body_raises :
  let relpath := fun (p _ : str) => p in
  let w := imported_world scenario_header in
  Forall (fun l => l = []) (splitlines false [])
  /\ process_arguments relpath [] w = (Raise IndexError, w)
  /\ ~ (exists w',
          process_arguments relpath [] w = (Ok [], w')
          /\ diagnostics w'
             = diagnostics w
                 ++ [(Error, py "No arguments provided (use " ++ quoted (py "None")
                               ++ py " where appropriate)")]).
Proof.
  intros relpath w. split; [constructor|]. split; [reflexivity|].
  intros [w' [H _]]. vm_compute in H. discriminate H.
Qed.

(** ** Severity levels (C10) *)

Lemma labelled_mono (out0 out out1 : list str) (d : Z * str) :
  labelled out d -> labelled (out0 ++ out ++ out1) d.
Proof.
  intros [Hr [label [Hl [Hin Hout]]]]. split; [exact Hr|].
  exists label. repeat split; try assumption.
  apply in_or_app. right. apply in_or_app. left. exact Hout.
Qed.

Lemma extends_refl (w : World) : extends w w.
Proof.
  exists [], []. rewrite !app_nil_r. repeat split. constructor.
Qed.

Lemma extends_trans (w1 w2 w3 : World) :
  extends w1 w2 -> extends w2 w3 -> extends w1 w3.
Proof.
  intros [o1 [d1 [Ho1 [Hd1 Hf1]]]] [o2 [d2 [Ho2 [Hd2 Hf2]]]].
  exists (o1 ++ o2), (d1 ++ d2).
  rewrite Ho2, Ho1, Hd2, Hd1, !app_assoc. repeat split.
  apply Forall_app. split.
  - eapply Forall_impl; [|exact Hf1]. intros d Hd.
    apply (@labelled_mono [] o1 o2). exact Hd.
  - eapply Forall_impl; [|exact Hf2]. intros d Hd.
    pose proof (@labelled_mono o1 o2 [] d Hd) as H. rewrite app_nil_r in H. exact H.
Qed.

Lemma steady_ret (A : Type) (a : A) : steady (ret a).
Proof. intros w. apply extends_refl. Qed.

Lemma steady_raise (A : Type) (e : exn) : steady (@raise A e).
Proof. intros w. apply extends_refl. Qed.

Lemma steady_bind (A B : Type) (m : M A) (k : A -> M B) :
  steady m -> (forall a, steady (k a)) -> steady (bind m k).
Proof.
  intros Hm Hk w. unfold bind. specialize (Hm w).
  destruct (m w) as [[a | e] w1]; cbn [snd] in *.
  - eapply extends_trans; [exact Hm | apply Hk].
  - exact Hm.
Qed.

Lemma steady_get_self : steady get_self.
Proof. intros w. apply extends_refl. Qed.

Lemma steady_modify_self (f : FunctionFile -> FunctionFile) : steady (modify_self f).
Proof. intros w. exists [], []. cbn. rewrite !app_nil_r. repeat split. constructor. Qed.

Lemma steady_file_write (output text : str) : steady (file_write output text).
Proof. intros w. exists [], []. cbn. rewrite !app_nil_r. repeat split. constructor. Qed.

Lemma steady_subscript (A : Type) (l : list A) (i : Z) : steady (subscript l i).
Proof. unfold subscript. destruct (py_nth l i); [apply steady_ret | apply steady_raise]. Qed.

Lemma steady_when (b : bool) (m : M unit) : steady m -> steady (when b m).
Proof. intros H. destruct b; [exact H | apply steady_ret]. Qed.

Lemma steady_feedback (relpath : str -> str -> str) (message : str) (level : Z) :
  (0 <= level <= 3)%Z -> steady (feedback relpath message level).
Proof.
  intros H w.
  destruct (@feedback_spec relpath message level w H) as [b [pre [label [Hf Hl]]]].
  rewrite Hf. cbn [snd].
  exists (pre ++ [py "    " ++ label ++ py ": " ++ message]), [(level, message)].
  cbn [stdout diagnostics]. repeat split.
  constructor; [|constructor].
  split; [exact H|]. exists label. cbn [fst snd]. split; [exact Hl|]. split.
  - destruct (priority_label_ok H) as [l' [Hl' Hin]]. congruence.
  - apply in_or_app. right. left. reflexivity.
Qed.

Create HintDb steady.

#[local] Hint Resolve steady_ret steady_raise steady_get_self steady_modify_self
  steady_file_write steady_subscript steady_when : steady.

Ltac steady_step :=
  first
    [ apply steady_feedback; unfold default_level; lia
    | solve [auto with steady]
    | apply steady_when
    | match goal with
      | |- steady (if ?c then _ else _) => destruct c
      | |- steady (match ?x with Some _ => _ | None => _ end) => destruct x
      end
    | apply steady_bind; [|intros ?; cbv beta] ].

Ltac steady_auto := repeat steady_step.

Lemma steady_import_header (relpath : str -> str -> str) (file_path code : str) :
  steady (import_header relpath file_path code).
Proof.
  unfold import_header.
  destruct (re_match header_flags header_re code); steady_auto.
Qed.

Lemma steady_get_section (relpath : str -> str -> str) (name : str) :
  steady (get_section relpath name).
Proof.
  unfold get_section. apply steady_bind; [auto with steady|]. intros o.
  destruct (list_index name (sections o)); steady_auto.
Qed.

Lemma steady_process_public (relpath : str -> str -> str) (raw : str) :
  steady (process_public relpath raw).
Proof.
  unfold process_public.
  destruct (re_match public_flags public_re (removelast raw)); steady_auto.
Qed.

Lemma steady_process_author (raw : str) : steady (process_author raw).
Proof. unfold process_author. steady_auto. Qed.

Lemma steady_process_description (raw : str) : steady (process_description raw).
Proof. unfold process_description. steady_auto. Qed.

Lemma steady_process_argument_line (relpath : str -> str -> str)
    (argument : str) (arguments : list Argument) :
  steady (process_argument_line relpath argument arguments).
Proof.
  unfold process_argument_line.
  destruct (re_match no_flags argument_re argument).
  - apply steady_bind; [|intros; auto with steady].
    destruct (negb _); steady_auto.
  - destruct (is_some _ || is_empty arguments); steady_auto.
Qed.

Lemma steady_process_argument_lines (relpath : str -> str -> str)
    (lines : list str) (arguments : list Argument) :
  steady (process_argument_lines relpath lines arguments).
Proof.
  revert arguments. induction lines as [|l ls IH]; intros arguments; simpl.
  - auto with steady.
  - apply steady_bind; [apply steady_process_argument_line | intros a; apply IH].
Qed.

Lemma steady_process_arguments (relpath : str -> str -> str) (raw : str) :
  steady (process_arguments relpath raw).
Proof.
  unfold process_arguments.
  apply steady_bind; [auto with steady|]. intros first.
  destruct (str_eqb first (py "None")); [auto with steady|].
  destruct (count_empty _ =? _); [steady_auto|].
  apply steady_bind; [auto with steady|]. intros final.
  apply steady_bind; [|intros; apply steady_process_argument_lines].
  destruct (str_eqb final []); steady_auto.
Qed.

Lemma steady_process_return_value (relpath : str -> str -> str) (raw : str) :
  steady (process_return_value relpath raw).
Proof.
  unfold process_return_value.
  destruct (str_eqb _ _); [auto with steady|].
  destruct (re_match no_flags return_re (strip raw)); steady_auto.
Qed.

#[local] Hint Resolve steady_import_header steady_get_section steady_process_public
  steady_process_author steady_process_description steady_process_arguments
  steady_process_return_value : steady.

Lemma steady_process_header (relpath : str -> str -> str) (debug_arg : bool) :
  steady (process_header relpath debug_arg).
Proof. unfold process_header. steady_auto. Qed.

Lemma steady_fold_right (A : Type) (f : A -> M unit) (l : list A) :
  (forall a, steady (f a)) ->
  steady (fold_right (fun x rest => f x ;;; rest) (ret tt) l).
Proof.
  intros Hf. induction l as [|x l IH]; simpl.
  - apply steady_ret.
  - apply steady_bind; [apply Hf | intros _; exact IH].
Qed.

Lemma steady_document_function : steady document_function.
Proof.
  unfold document_function.
  repeat first
    [ steady_step
    | apply steady_fold_right; intros ?; apply steady_file_write ].
Qed.

#[local] Hint Resolve steady_process_header steady_document_function : steady.

Lemma steady_crawl_file (relpath : str -> str -> str) (directory : str)
    (debug_arg : bool) (file_path code : str) :
  steady (crawl_file relpath directory debug_arg file_path code).
Proof. unfold crawl_file. steady_auto. Qed.

Lemma steady_crawl_files (relpath : str -> str -> str) (directory : str)
    (debug_arg : bool) (root : str) (files_here : list (str * str)) :
  steady (crawl_files relpath directory debug_arg root files_here).
Proof.
  induction files_here as [|[file code] rest IH]; cbn [crawl_files].
  - apply steady_ret.
  - apply steady_bind; [|intros _; exact IH].
    destruct (endswith (py ".sqf") file && startswith (py "fnc_") file);
      [apply steady_crawl_file | apply steady_ret].
Qed.

Lemma steady_crawl_dir (relpath : str -> str -> str) (directory : str)
    (debug_arg : bool) (walk : list (str * list (str * str))) :
  steady (crawl_dir relpath directory debug_arg walk).
Proof.
  induction walk as [|[root files_here] rest IH]; cbn [crawl_dir].
  - apply steady_ret.
  - apply steady_bind; [apply steady_crawl_files | intros _; exact IH].
Qed.

(** C10: every call of [feedback] the program makes passes a level in
    {0,1,2,3} (the call without a level passing the default 0), so the label
    is found in the four-element list and the message is printed under one
    of "Info", "Warning", "Error", "Aborted".  This holds for
    [import_header] and [process_header] from any world, and for a whole
    crawl, whose calls are listed with their lines. *)
Theorem feedback_levels_in_range (relpath : str -> str -> str) (w : World) :
  default_level = 0%Z
  /\ length priority_labels = 4
  /\ (forall file_path code, extends w (snd (import_header relpath file_path code w)))
  /\ (forall debug_arg, extends w (snd (process_header relpath debug_arg w)))
  /\ (forall directory debug_arg walk,
        extends w (snd (crawl_dir relpath directory debug_arg walk w)))
  /\ (forall directory debug_arg walk,
        diagnostics w = [] ->
        let w' := snd (crawl_dir relpath directory debug_arg walk w) in
        Forall (fun d =>
                  (0 <= fst d <= 3)%Z
                  /\ exists label,
                       py_nth priority_labels (fst d) = Some label
                       /\ In label [py "Info"; py "Warning"; py "Error"; py "Aborted"]
                       /\ In (py "    " ++ label ++ py ": " ++ snd d) (stdout w'))
          (diagnostics w')).
Proof.
  split; [reflexivity|]. split; [reflexivity|].
  split; [intros; apply steady_import_header|].
  split; [intros; apply steady_process_header|].
  split; [intros; apply steady_crawl_dir|].
  intros directory debug_arg walk Hd w'.
  destruct (@steady_crawl_dir relpath directory debug_arg walk w)
    as [out [ds [Ho [Hds Hall]]]].
  fold w' in Ho, Hds. rewrite Hds, Hd. cbn [app].
  eapply Forall_impl; [|exact Hall].
  intros d [Hr [label [Hl [Hin Hout]]]]. split; [exact Hr|].
  exists label. split; [exact Hl|]. split; [exact Hin|].
  rewrite Ho. apply in_or_app. right. exact Hout.
Qed.

Lemma feedback_levels_in_range_witness :
  let relpath := fun (p _ : str) => p in
  let w := fresh_world (py "/addons") in
  let walk := [(py "/addons/x/functions",
                [(py "fnc_a.sqf", scenario_header); (py "fnc_b.sqf", py "no header")])] in
  Forall (fun d => (0 <= fst d <= 3)%Z)
    (diagnostics (snd (crawl_dir relpath (py "/addons") false walk w)))
  /\ length (diagnostics (snd (crawl_dir relpath (py "/addons") false walk w))) = 2.
Proof.
  intros relpath w walk.
  destruct (feedback_levels_in_range relpath w) as [_ [_ [_ [_ [_ H]]]]].
  specialize (H (py "/addons") false walk eq_refl). cbv zeta in H.
  split.
  - eapply Forall_impl; [|exact H]. intros d [Hr _]. exact Hr.
  - vm_compute. reflexivity.
Defined.

(** ** The header pattern (C4) *)

Lemma lits_match_plain (fl : flags) (p s : str) :
  IGNORECASE fl = false -> lits_match fl p s = startswith p s.
Proof.
  intros H. revert s. induction p as [|c p IH]; intros [|x s]; simpl; try reflexivity.
  unfold lit_matches. rewrite H, IH. reflexivity.
Qed.

Lemma close_then_done (st : mstate) :
  option_map outcome (rmatch header_flags (Str (py "*/")) st (fun st' => Some st'))
  = if startswith (py "*/") (m_rest st)
    then Some (skipn 2 (m_rest st), m_groups st) else None.
Proof.
  rewrite rmatch_Str, lits_match_plain by reflexivity.
  destruct (startswith (py "*/") (m_rest st)); [|reflexivity].
  unfold outcome. cbn [option_map]. rewrite consume_rest, consume_groups. reflexivity.
Qed.

(** The lazy repetition of the dot looks for the first place where what
    follows matches. *)
Lemma lazy_dots_find_close (fuel : nat) (st : mstate) :
  length (m_rest st) < fuel ->
  option_map outcome
    (star_loop (rmatch header_flags Dot) false
       (fun st' => rmatch header_flags (Str (py "*/")) st' (fun st'' => Some st''))
       fuel st)
  = option_map (fun r => (r, m_groups st)) (after_close (m_rest st)).
Proof.
  revert st. induction fuel as [|fuel IH]; intros st Hlen; [lia|].
  cbn [star_loop].
  pose proof (close_then_done st) as Hk.
  destruct (rmatch header_flags (Str (py "*/")) st (fun st'' => Some st'')) as [m|] eqn:Ek.
  - destruct (startswith (py "*/") (m_rest st)) eqn:Es; [|discriminate Hk].
    destruct (m_rest st) as [|x xs] eqn:Er; [discriminate Es|].
    cbn [after_close]. rewrite Es. exact Hk.
  - destruct (startswith (py "*/") (m_rest st)) eqn:Es; [discriminate Hk|].
    rewrite rmatch_Dot.
    destruct (m_rest st) as [|x xs] eqn:Er; [reflexivity|].
    cbn [header_flags DOTALL orb advance m_rest length].
    assert (Hlt : (length xs <? S (length xs)) = true) by (apply Nat.ltb_lt; lia).
    rewrite Hlt.
    rewrite IH by (cbn [m_rest advance]; cbn [length] in Hlen; lia).
    cbn [m_rest m_groups advance after_close]. rewrite Es. reflexivity.
Qed.

Lemma startswith_open (a b : ascii) (rest : str) :
  startswith (py "/*") (a :: b :: rest)
  = char_eqb a (chr "/") && char_eqb b (chr "*").
Proof.
  cbn [startswith py list_ascii_of_string]. rewrite andb_true_r.
  f_equal; apply Ascii.eqb_sym.
Qed.

Lemma block_after_open (st : mstate) :
  option_map outcome (rmatch header_flags block_re st (fun st' => Some st'))
  = option_map (fun r => (r, m_groups st)) (after_open (m_rest st)).
Proof.
  unfold block_re, Plus. rewrite rmatch_Cat, rmatch_Str, lits_match_plain by reflexivity.
  destruct (m_rest st) as [|a [|b rest]] eqn:Er; try reflexivity.
  - cbn. rewrite andb_false_r. reflexivity.
  - rewrite startswith_open. unfold after_open.
    destruct (char_eqb a (chr "/") && char_eqb b (chr "*")).
    + rewrite !rmatch_Cat, rmatch_Dot, consume_rest, Er.
      change (length (py "/*")) with 2. cbn [skipn].
      destruct rest as [|c rest]; [reflexivity|].
      cbn [header_flags DOTALL orb]. rewrite rmatch_Star.
      rewrite lazy_dots_find_close by (cbn [m_rest advance]; lia).
      cbn [m_rest m_groups advance]. rewrite consume_groups. reflexivity.
    + destruct rest; reflexivity.
Qed.

Lemma space_not_slash (x : ascii) : isspace x = true -> char_eqb x (chr "/") = false.
Proof.
  intros H. destruct (char_eqb x (chr "/")) eqn:E; [|reflexivity].
  apply char_eqb_eq in E. subst x. vm_compute in H. discriminate H.
Qed.

Lemma lstrip_space (x : ascii) (xs : str) : isspace x = true -> lstrip (x :: xs) = lstrip xs.
Proof. intros H. simpl. rewrite H. reflexivity. Qed.

Lemma lstrip_other (x : ascii) (xs : str) : isspace x = false -> lstrip (x :: xs) = x :: xs.
Proof. intros H. simpl. rewrite H. reflexivity. Qed.

(** The greedy repetition of [\s] ends up past all the leading whitespace,
    since the block cannot start on a whitespace character. *)
Lemma spaces_then_block (fuel : nat) (st : mstate) :
  length (m_rest st) < fuel ->
  option_map outcome
    (star_loop (rmatch header_flags (Cls CSpace)) true
       (fun st' => rmatch header_flags block_re st' (fun st'' => Some st''))
       fuel st)
  = option_map (fun r => (r, m_groups st)) (after_open (lstrip (m_rest st))).
Proof.
  revert st. induction fuel as [|fuel IH]; intros st Hlen; [lia|].
  cbn [star_loop]. rewrite rmatch_Cls.
  destruct (m_rest st) as [|x xs] eqn:Er.
  - rewrite block_after_open, Er. reflexivity.
  - cbn [in_cset]. destruct (isspace x) eqn:Hx.
    + assert (Hlt : (length (m_rest (advance st x xs)) <? length (x :: xs)) = true)
        by (apply Nat.ltb_lt; cbn; lia).
      rewrite Hlt. rewrite lstrip_space by exact Hx.
      specialize (IH (advance st x xs)).
      cbn [m_rest m_groups advance] in IH.
      rewrite <- IH by (cbn [length] in Hlen; lia).
      destruct (star_loop _ true _ fuel (advance st x xs)) as [m|]; [reflexivity|].
      rewrite block_after_open, Er. cbn [after_open].
      destruct xs as [|b [|c r]]; try reflexivity.
      rewrite (space_not_slash _ Hx). reflexivity.
    + rewrite lstrip_other by exact Hx. rewrite block_after_open, Er. reflexivity.
Qed.

Lemma header_re_outcome (code : str) :
  option_map outcome
    (rmatch header_flags header_re (mkMstate None code []) (fun st => Some st))
  = option_map (fun r => (r, [])) (after_header code).
Proof.
  unfold header_re. rewrite rmatch_Cat, rmatch_Star.
  change (Cat (Str (py "/*")) (Cat (Plus false Dot) (Str (py "*/")))) with block_re.
  rewrite spaces_then_block by (cbn; lia). reflexivity.
Qed.

(** The header pattern, run by the matcher, finds what [after_header]
    says. *)
Lemma header_match_spec (code : str) :
  re_match header_flags header_re code
  = match after_header code with
    | Some r => Some (mkMatch (firstn (length code - length r) code) [])
    | None => None
    end.
Proof.
  unfold re_match, match_at. pose proof (header_re_outcome code) as H.
  destruct (rmatch header_flags header_re (mkMstate None code []) (fun st => Some st))
    as [st|]; destruct (after_header code) as [r|]; try discriminate H; [|reflexivity].
  injection H as Hr Hg. rewrite Hr, Hg. reflexivity.
Qed.

Lemma lstrip_decompose (s : str) : exists ws, all_space ws /\ s = ws ++ lstrip s.
Proof.
  induction s as [|x s [ws [Hws Hs]]].
  - exists []. split; [constructor | reflexivity].
  - destruct (isspace x) eqn:Hx.
    + exists (x :: ws). rewrite lstrip_space by exact Hx. split.
      * constructor; assumption.
      * simpl. f_equal. exact Hs.
    + exists []. rewrite lstrip_other by exact Hx. split; [constructor | reflexivity].
Qed.

Lemma lstrip_app_spaces (ws r : str) : all_space ws -> lstrip (ws ++ r) = lstrip r.
Proof.
  induction 1 as [|x ws Hx _ IH]; [reflexivity|].
  cbn [app]. rewrite lstrip_space by exact Hx. exact IH.
Qed.

Lemma startswith_close_app (x : ascii) (b tail : str) :
  startswith (py "*/") (x :: b ++ py "*") = false ->
  startswith (py "*/") (x :: b ++ py "*/" ++ tail) = false.
Proof.
  cbn [startswith py list_ascii_of_string]. intros H.
  destruct (char_eqb _ x); [|reflexivity].
  destruct b as [|y b]; [reflexivity | exact H].
Qed.

Lemma after_close_found (body tail : str) :
  contains (py "*/") (body ++ py "*") = false ->
  after_close (body ++ py "*/" ++ tail) = Some tail.
Proof.
  induction body as [|x b IH]; intros H.
  - reflexivity.
  - cbn [app contains] in H. apply orb_false_iff in H. destruct H as [H1 H2].
    cbn [app after_close]. rewrite (startswith_close_app _ _ _ H1). exact (IH H2).
Qed.

Lemma after_close_exists (body tail : str) :
  after_close (body ++ py "*/" ++ tail) <> None.
Proof.
  induction body as [|x b IH].
  - discriminate.
  - cbn [app after_close]. destruct (startswith _ _); [discriminate | exact IH].
Qed.

Lemma startswith_app (p s : str) : startswith p s = true -> s = p ++ skipn (length p) s.
Proof.
  revert s. induction p as [|c p IH]; intros [|x s] H; try reflexivity; try discriminate H.
  cbn [startswith] in H. apply andb_true_iff in H. destruct H as [Hc Hs].
  apply char_eqb_eq in Hc. subst x. cbn [app length skipn]. f_equal. exact (IH _ Hs).
Qed.

Lemma after_close_some (s rest : str) :
  after_close s = Some rest ->
  exists body,
    s = body ++ py "*/" ++ rest /\ contains (py "*/") (body ++ py "*") = false.
Proof.
  revert rest. induction s as [|x s IH]; intros rest H; [discriminate H|].
  cbn [after_close] in H. destruct (startswith (py "*/") (x :: s)) eqn:E.
  - injection H as <-. exists []. split; [|reflexivity].
    exact (startswith_app _ _ E).
  - destruct (IH _ H) as [body [Hs Hc]]. exists (x :: body). split.
    + cbn [app]. f_equal. exact Hs.
    + cbn [app contains]. rewrite Hc, orb_false_r.
      cbn [startswith py list_ascii_of_string] in E |- *.
      destruct (char_eqb _ x); [|reflexivity]. cbn [andb] in E |- *.
      rewrite Hs in E. destruct body as [|y body]; [reflexivity | exact E].
Qed.

Lemma after_open_some (s rest : str) :
  after_open s = Some rest ->
  exists c body,
    s = py "/*" ++ c :: body ++ py "*/" ++ rest
    /\ contains (py "*/") (body ++ py "*") = false.
Proof.
  unfold after_open. destruct s as [|a [|b [|c r]]]; try discriminate.
  destruct (char_eqb a (chr "/") && char_eqb b (chr "*")) eqn:E; [|discriminate].
  apply andb_true_iff in E. destruct E as [Ea Eb].
  apply char_eqb_eq in Ea, Eb. subst a b. intros H.
  destruct (after_close_some _ H) as [body [Hr Hc]].
  exists c, body. split; [|exact Hc]. rewrite Hr. reflexivity.
Qed.

Lemma after_open_block (c : ascii) (body tail : str) :
  after_open (py "/*" ++ c :: body ++ py "*/" ++ tail)
  = after_close (body ++ py "*/" ++ tail).
Proof. reflexivity. Qed.

(** The header found, in terms of the text: whitespace, "/*", a character,
    and the shortest continuation that ends in "*/". *)
Lemma after_header_some (code rest : str) :
  after_header code = Some rest <->
  exists ws c body,
    all_space ws
    /\ code = ws ++ py "/*" ++ c :: body ++ py "*/" ++ rest
    /\ contains (py "*/") (body ++ py "*") = false.
Proof.
  unfold after_header. split.
  - intros H. destruct (lstrip_decompose code) as [ws [Hws Hcode]].
    destruct (after_open_some _ H) as [c [body [Hs Hc]]].
    exists ws, c, body. split; [exact Hws|]. split; [|exact Hc].
    rewrite <- Hs. exact Hcode.
  - intros [ws [c [body [Hws [Hcode Hc]]]]]. subst code.
    rewrite lstrip_app_spaces by exact Hws.
    change (lstrip (py "/*" ++ c :: body ++ py "*/" ++ rest))
      with (py "/*" ++ c :: body ++ py "*/" ++ rest).
    rewrite after_open_block. apply after_close_found. exact Hc.
Qed.

Lemma after_header_exists (code : str) :
  after_header code <> None <->
  exists ws c body tail,
    all_space ws /\ code = ws ++ py "/*" ++ c :: body ++ py "*/" ++ tail.
Proof.
  split.
  - intros H. destruct (after_header code) as [rest|] eqn:E; [|contradiction].
    apply after_header_some in E. destruct E as [ws [c [body [Hws [Hcode _]]]]].
    exists ws, c, body, rest. split; assumption.
  - intros [ws [c [body [tail [Hws Hcode]]]]]. subst code. unfold after_header.
    rewrite lstrip_app_spaces by exact Hws.
    change (lstrip (py "/*" ++ c :: body ++ py "*/" ++ tail))
      with (py "/*" ++ c :: body ++ py "*/" ++ tail).
    rewrite after_open_block. apply after_close_exists.
Qed.

Lemma firstn_matched (h rest : str) :
  firstn (length (h ++ rest) - length rest) (h ++ rest) = h.
Proof.
  rewrite length_app. replace (length h + length rest - length rest) with (length h) by lia.
  rewrite firstn_app, Nat.sub_diag, firstn_all. cbn [firstn]. apply app_nil_r.
Qed.

Lemma import_header_found (relpath : str -> str -> str) (file_path code : str) (w : World)
    (ws : str) (c : ascii) (body tail : str) :
  all_space ws ->
  contains (py "*/") (body ++ py "*") = false ->
  code = ws ++ py "/*" ++ c :: body ++ py "*/" ++ tail ->
  import_header relpath file_path code w
  = (Ok tt,
     mkWorld (set_header (ws ++ py "/*" ++ c :: body ++ py "*/") (set_path file_path (self w)))
       (stdout w) (files w) (diagnostics w)).
Proof.
  intros Hws Hc Hcode. unfold import_header. rewrite header_match_spec.
  assert (Hah : after_header code = Some tail).
  { apply after_header_some. exists ws, c, body. repeat split; assumption. }
  rewrite Hah. cbn [m_whole].
  replace code with ((ws ++ py "/*" ++ c :: body ++ py "*/") ++ tail)
    by (rewrite Hcode, <- !app_assoc; cbn [app]; rewrite <- !app_assoc; reflexivity).
  rewrite firstn_matched. reflexivity.
Qed.

Lemma import_header_missing (relpath : str -> str -> str) (file_path code : str) (w : World) :
  after_header code = None ->
  exists w',
    import_header relpath file_path code w = (Ok tt, w')
    /\ header (self w') = header (self w)
    /\ diagnostics w' = diagnostics w ++ [(Aborted, py "Missing header")].
Proof.
  intros H. unfold import_header. rewrite header_match_spec, H.
  unfold bind at 1. unfold modify_self at 1.
  run_feedback. eexists. split; [reflexivity|]. split; reflexivity.
Qed.

(** C4, as the code behaves: [import_header] finds a header exactly when
    the text is whitespace, then "/*", then at least one character, then
    somewhere after it "*/"; the header is then that whitespace together
    with the shortest such block (the first "*/" that starts after the
    character following "/*"), newlines included, and nothing is reported.
    Otherwise the header stays empty and the one diagnostic is the Aborted
    "Missing header". *)
Theorem import_header_spec (relpath : str -> str -> str) (file_path code : str) (w : World) :
  header (self w) = [] ->
  let r := import_header relpath file_path code w in
  fst r = Ok tt
  /\ (has_header (self (snd r)) = true <->
      exists ws c body tail,
        all_space ws /\ code = ws ++ py "/*" ++ c :: body ++ py "*/" ++ tail)
  /\ (forall ws c body tail,
        all_space ws ->
        contains (py "*/") (body ++ py "*") = false ->
        code = ws ++ py "/*" ++ c :: body ++ py "*/" ++ tail ->
        header (self (snd r)) = ws ++ py "/*" ++ c :: body ++ py "*/"
        /\ diagnostics (snd r) = diagnostics w)
  /\ (has_header (self (snd r)) = false ->
      header (self (snd r)) = []
      /\ diagnostics (snd r) = diagnostics w ++ [(Aborted, py "Missing header")]).
Proof.
  intros Hfresh r. subst r.
  destruct (after_header code) as [rest|] eqn:E.
  - pose proof E as E'. apply after_header_some in E'.
    destruct E' as [ws [c [body [Hws [Hcode Hc]]]]].
    rewrite (@import_header_found relpath file_path code w ws c body rest Hws Hc Hcode). cbn [fst snd self].
    assert (Hh : has_header
                   (set_header (ws ++ py "/*" ++ c :: body ++ py "*/")
                      (set_path file_path (self w))) = true).
    { unfold has_header. cbn [header set_header].
      destruct ws; reflexivity. }
    split; [reflexivity|]. split; [|split].
    + split; [|intros _; exact Hh].
      intros _. exists ws, c, body, rest. split; assumption.
    + intros ws' c' body' tail' Hws' Hc' Hcode'.
      pose proof (@import_header_found relpath file_path code w ws' c' body' tail' Hws' Hc' Hcode') as H2.
      rewrite (@import_header_found relpath file_path code w ws c body rest Hws Hc Hcode) in H2.
      apply (f_equal (fun p => header (self (snd p)))) in H2.
      cbn [snd self header set_header] in H2 |- *.
      split; [exact H2 | reflexivity].
    + rewrite Hh. discriminate.
  - destruct (@import_header_missing relpath file_path code w E) as [w' [Hrun [Hh Hd]]].
    rewrite Hrun. cbn [fst snd].
    assert (Hno : has_header (self w') = false).
    { unfold has_header. rewrite Hh, Hfresh. reflexivity. }
    split; [reflexivity|]. split; [|split].
    + split.
      * rewrite Hno. discriminate.
      * intros Hex. apply after_header_exists in Hex. contradiction.
    + intros ws c body tail Hws Hc Hcode.
      assert (after_header code = Some tail) as Hs
        by (apply after_header_some; exists ws, c, body; repeat split; assumption).
      congruence.
    + intros _. split; [rewrite Hh; exact Hfresh | exact Hd].
Qed.

Lemma import_header_spec_witness :
  let relpath := fun (p _ : str) => p in
  let code := [NL] ++ py "  /* a */ b */ c" in
  let r := import_header relpath (py "/addons/x/functions/fnc_a.sqf") code
             (fresh_world (py "/addons")) in
  header (self (snd r)) = [NL] ++ py "  /* a */"
  /\ diagnostics (snd r) = [].
Proof.
  intros relpath code r.
  destruct (@import_header_spec relpath (py "/addons/x/functions/fnc_a.sqf") code
              (fresh_world (py "/addons")) eq_refl) as [_ [_ [H _]]].
  apply (H ([NL] ++ py "  ") (chr " ") (py "a ") (py " b */ c")).
  - repeat constructor.
  - reflexivity.
  - reflexivity.
Defined.

(** C4 as stated fails on "/**/": after no whitespace the text begins with
    "/*" and a closing "*/" follows, yet no header is found and
    "Missing header" is reported. *)
Lemma empty_comment_is_no_header :
  let relpath := fun (p _ : str) => p in
  let code := py "/**/" in
  let r := import_header relpath (py "/addons/x/functions/fnc_a.sqf") code
             (fresh_world (py "/addons")) in
  (exists ws body tail,
      all_space ws /\ code = ws ++ py "/*" ++ body ++ py "*/" ++ tail)
  /\ has_header (self (snd r)) = false
  /\ diagnostics (snd r) = [(Aborted, py "Missing header")].
Proof.
  intros relpath code r. split.
  - exists [], [], []. split; [constructor | reflexivity].
  - vm_compute. split; reflexivity.
Qed.

(** ** The section pattern (C3) *)

Lemma lits_match_section (p s : str) : lits_match section_flags p s = startswith p s.
Proof. apply lits_match_plain. reflexivity. Qed.

Lemma marker_tail_outcome (st : mstate) :
  option_map outcome (rmatch section_flags marker_tail_re st (fun st' => Some st'))
  = option_map (fun t => (t, m_groups st)) (marker_tail (m_rest st)).
Proof.
  assert (Hcolon : forall st0,
    option_map outcome
      (rmatch section_flags (Cat (Lit (chr ":")) (Opt true (Cls CSpace))) st0
         (fun st' => Some st'))
    = option_map (fun t => (t, m_groups st0)) (after_colon (m_rest st0))).
  { intros st0. rewrite rmatch_Cat, rmatch_Lit. unfold after_colon.
    destruct (m_rest st0) as [|c r]; [reflexivity|].
    unfold lit_matches. cbn [section_flags IGNORECASE].
    destruct (char_eqb (chr ":") c); [|reflexivity].
    unfold Opt. rewrite rmatch_Alt, rmatch_Cls. cbn [rmatch m_rest advance in_cset].
    unfold drop_gap. destruct r as [|x r]; [reflexivity|].
    destruct (isspace x); reflexivity. }
  unfold marker_tail_re. rewrite rmatch_Cat. unfold Opt at 1.
  rewrite rmatch_Alt, rmatch_Lit.
  change (rmatch section_flags Eps st
            (fun st' => rmatch section_flags (Cat (Lit (chr ":")) (Opt true (Cls CSpace)))
                          st' (fun st'0 => Some st'0)))
    with (rmatch section_flags (Cat (Lit (chr ":")) (Opt true (Cls CSpace))) st
            (fun st' => Some st')).
  unfold marker_tail.
  destruct (m_rest st) as [|c r] eqn:Er.
  - rewrite Hcolon, Er. reflexivity.
  - unfold lit_matches. cbn [section_flags IGNORECASE].
    destruct (char_eqb (chr "s") c).
    + pose proof (Hcolon (advance st c r)) as H1. cbn [m_rest m_groups advance] in H1.
      destruct (rmatch section_flags (Cat (Lit (chr ":")) (Opt true (Cls CSpace)))
                  (advance st c r) (fun st' => Some st')) as [m|].
      * destruct (after_colon r) as [t|]; [exact H1 | discriminate H1].
      * destruct (after_colon r) as [t|]; [discriminate H1|].
        rewrite Hcolon, Er. reflexivity.
    + rewrite Hcolon, Er. reflexivity.
Qed.

Lemma firstn_prefix (n s : str) :
  startswith n s = true ->
  firstn (length s - length (skipn (length n) s)) s = n.
Proof.
  intros H. apply startswith_app in H.
  rewrite H at 1 3. rewrite firstn_matched. reflexivity.
Qed.

Lemma one_name_outcome (n : str) (st : mstate) :
  option_map outcome (rmatch section_flags (Str n) st (after_name st))
  = if startswith n (m_rest st)
    then option_map (fun t => (t, (1, n) :: m_groups st))
           (marker_tail (skipn (length n) (m_rest st)))
    else None.
Proof.
  rewrite rmatch_Str, lits_match_section.
  destruct (startswith n (m_rest st)) eqn:E; [|reflexivity].
  unfold after_name. rewrite marker_tail_outcome.
  cbn [m_rest m_groups set_group]. rewrite consume_rest, consume_groups.
  rewrite (firstn_prefix _ _ E). reflexivity.
Qed.

Lemma alts_outcome (names : list str) (st : mstate) :
  names <> [] ->
  option_map outcome (rmatch section_flags (alts names) st (after_name st))
  = option_map (fun nt => (snd nt, (1, fst nt) :: m_groups st))
      (marker_among names (m_rest st)).
Proof.
  induction names as [|n ns IH]; intros Hne; [contradiction|].
  destruct ns as [|n2 ns].
  - cbn [alts marker_among]. rewrite one_name_outcome.
    destruct (startswith n (m_rest st)); [|reflexivity].
    destruct (marker_tail (skipn (length n) (m_rest st))); reflexivity.
  - change (alts (n :: n2 :: ns)) with (Alt (Str n) (alts (n2 :: ns))).
    rewrite rmatch_Alt. pose proof (one_name_outcome n st) as H1.
    cbn [marker_among].
    destruct (rmatch section_flags (Str n) st (after_name st)) as [m|].
    + destruct (startswith n (m_rest st)); [|discriminate H1].
      destruct (marker_tail (skipn (length n) (m_rest st))); [exact H1 | discriminate H1].
    + rewrite IH by discriminate.
      destruct (startswith n (m_rest st)); [|reflexivity].
      destruct (marker_tail (skipn (length n) (m_rest st))); [discriminate H1 | reflexivity].
Qed.

(** The section pattern, run by the matcher, finds the marker that
    [marker_here] describes, its name being group 1. *)
Lemma section_match_spec (prev : option ascii) (s : str) :
  match_at section_flags section_re prev s
  = match marker_here prev s with
    | Some (n, t) => Some (mkMatch (firstn (length s - length t) s) [(1, n)])
    | None => None
    end.
Proof.
  unfold match_at, marker_here.
  change section_re with (Cat Bol (Cat (Grp 1 (alts section_names)) marker_tail_re)).
  rewrite rmatch_Cat, rmatch_Bol.
  replace (at_bol section_flags (mkMstate prev s [])) with (line_start prev)
    by (unfold at_bol, line_start; destruct prev; reflexivity).
  destruct (line_start prev); [|reflexivity].
  rewrite rmatch_Cat, rmatch_Grp.
  pose proof (@alts_outcome section_names (mkMstate prev s [])) as H.
  unfold after_name in H. cbn [m_rest m_groups] in H |- *.
  specialize (H ltac:(discriminate)).
  destruct (rmatch section_flags (alts section_names) (mkMstate prev s []) _) as [m|];
    destruct (marker_among section_names s) as [[n t]|]; try discriminate H;
    [|reflexivity].
  cbn [option_map fst snd outcome] in H. injection H as Hr Hg. rewrite Hr, Hg.
  reflexivity.
Qed.

Lemma startswith_app_l (n p s : str) :
  startswith (n ++ p) s = startswith n s && startswith p (skipn (length n) s).
Proof.
  revert s. induction n as [|c n IH]; intros s.
  - reflexivity.
  - destruct s as [|x s]; [reflexivity|].
    cbn [app startswith length skipn]. rewrite IH, andb_assoc. reflexivity.
Qed.

Lemma marker_tail_none (r : str) :
  startswith (py ":") r = false ->
  startswith (py "s:") r = false ->
  marker_tail r = None.
Proof.
  unfold marker_tail, after_colon. cbn [chr startswith py list_ascii_of_string].
  destruct r as [|c r]; [reflexivity|]. rewrite andb_true_r. intros H1 H2.
  rewrite H1. destruct (char_eqb "s"%char c); [|reflexivity].
  cbn [andb] in H2. destruct r as [|d r]; [reflexivity|].
  rewrite andb_true_r in H2. rewrite H2. reflexivity.
Qed.

Lemma marker_among_none (names : list str) (s : str) :
  existsb (fun n => startswith (n ++ py ":") s || startswith (n ++ py "s:") s) names = false ->
  marker_among names s = None.
Proof.
  induction names as [|n ns IH]; [reflexivity|].
  cbn [existsb marker_among]. intros H.
  apply orb_false_iff in H. destruct H as [H Hns].
  apply orb_false_iff in H. destruct H as [H1 H2].
  rewrite startswith_app_l in H1, H2.
  destruct (startswith n s); [|exact (IH Hns)].
  cbn [andb] in H1, H2. rewrite (marker_tail_none _ H1 H2). exact (IH Hns).
Qed.

Lemma not_heads_no_marker (prev : option ascii) (s : str) :
  line_start prev && heads_marker s = false -> marker_here prev s = None.
Proof.
  unfold marker_here. destruct (line_start prev); [|reflexivity].
  cbn [andb]. apply marker_among_none.
Qed.

Lemma startswith_app_cases (h v rest : str) :
  startswith h (v ++ rest) = true -> startswith h v = true \/ startswith v h = true.
Proof.
  revert v. induction h as [|c h IH]; intros v H.
  - left. reflexivity.
  - destruct v as [|x v]; [right; reflexivity|].
    cbn [app startswith] in H |- *. apply andb_true_iff in H. destruct H as [Hc Hr].
    apply char_eqb_eq in Hc. subst x.
    assert (Hcc : char_eqb c c = true) by (apply char_eqb_eq; reflexivity).
    rewrite Hcc. cbn [andb]. exact (IH _ Hr).
Qed.

Lemma ends_line_has_newline (v : str) :
  ends_line v = true -> existsb (char_eqb NL) v = true.
Proof.
  unfold ends_line. intros H. destruct (rev v) as [|c l] eqn:E; [discriminate H|].
  apply char_eqb_eq in H. subst c.
  rewrite <- (rev_involutive v), E. cbn [rev]. rewrite existsb_app. cbn [existsb].
  assert (Hn : char_eqb NL NL = true) by (apply char_eqb_eq; reflexivity).
  rewrite Hn. apply orb_true_r.
Qed.

Lemma prefix_has_newline (v h : str) :
  startswith v h = true -> ends_line v = true -> existsb (char_eqb NL) h = true.
Proof.
  intros Hp He. apply startswith_app in Hp. rewrite Hp, existsb_app.
  rewrite (ends_line_has_newline _ He). reflexivity.
Qed.

Lemma names_have_no_newline :
  forallb (fun n => negb (existsb (char_eqb NL) (n ++ py ":"))
                    && negb (existsb (char_eqb NL) (n ++ py "s:")))
    section_names = true.
Proof. reflexivity. Qed.

Lemma heads_marker_app (v rest : str) :
  heads_marker v = false ->
  rest = [] \/ ends_line v = true ->
  heads_marker (v ++ rest) = false.
Proof.
  intros Hv [-> | He]; [rewrite app_nil_r; exact Hv|].
  destruct (heads_marker (v ++ rest)) eqn:E; [|reflexivity].
  exfalso. unfold heads_marker in E. apply existsb_exists in E.
  destruct E as [n [Hin Hn]].
  pose proof names_have_no_newline as Hnl.
  rewrite forallb_forall in Hnl. specialize (Hnl n Hin).
  apply andb_true_iff in Hnl. destruct Hnl as [Hn1 Hn2].
  apply negb_true_iff in Hn1, Hn2.
  assert (Hfalse : forall h, (h = n ++ py ":" \/ h = n ++ py "s:") ->
                             startswith h (v ++ rest) = true -> False).
  { intros h Hh Hs. apply startswith_app_cases in Hs. destruct Hs as [Hs | Hs].
    - assert (heads_marker v = true); [|congruence].
      unfold heads_marker. apply existsb_exists. exists n. split; [exact Hin|].
      destruct Hh as [-> | ->]; rewrite Hs; [reflexivity | apply orb_true_r].
    - pose proof (prefix_has_newline _ _ Hs He) as Hc.
      destruct Hh as [-> | ->]; congruence. }
  apply orb_true_iff in Hn. destruct Hn as [Hn | Hn].
  - exact (Hfalse _ (or_introl eq_refl) Hn).
  - exact (Hfalse _ (or_intror eq_refl) Hn).
Qed.

Lemma ends_line_cons (c : ascii) (v : str) :
  v <> [] -> ends_line (c :: v) = ends_line v.
Proof.
  intros Hv. unfold ends_line. cbn [rev].
  destruct (rev v) as [|x l] eqn:E.
  - exfalso. apply Hv. rewrite <- (rev_involutive v), E. reflexivity.
  - reflexivity.
Qed.

Lemma split_scan_nomatch (prev : option ascii) (cur : str) (c : ascii) (s : str) :
  marker_here prev (c :: s) = None ->
  split_scan section_flags section_re 1 0 prev cur (c :: s)
  = split_scan section_flags section_re 1 0 (Some c) (c :: cur) s.
Proof.
  intros H. cbn [split_scan]. rewrite section_match_spec, H. reflexivity.
Qed.

(** Scanning passes over a chunk without markers and adds it to the current
    piece. *)
Lemma scan_quiet (chunk : str) (prev : option ascii) (cur rest : str) :
  quiet (line_start prev) chunk = true ->
  rest = [] \/ chunk = [] \/ ends_line chunk = true ->
  split_scan section_flags section_re 1 0 prev cur (chunk ++ rest)
  = split_scan section_flags section_re 1 0 (last_seen prev chunk) (rev chunk ++ cur) rest.
Proof.
  revert prev cur. induction chunk as [|c v IH]; intros prev cur Hq Hend.
  - reflexivity.
  - cbn [quiet] in Hq. apply andb_true_iff in Hq. destruct Hq as [Hh Hq].
    apply negb_true_iff in Hh.
    cbn [app]. rewrite split_scan_nomatch.
    + rewrite IH.
      * unfold last_seen. cbn [fold_left rev]. rewrite <- app_assoc. reflexivity.
      * exact Hq.
      * destruct Hend as [H | [H | H]]; [left; exact H | discriminate H |].
        destruct v as [|x v]; [right; left; reflexivity|].
        right. right. rewrite ends_line_cons in H by discriminate. exact H.
    + apply not_heads_no_marker.
      destruct (line_start prev); [|reflexivity]. cbn [andb] in Hh |- *.
      change (c :: v ++ rest) with ((c :: v) ++ rest).
      apply heads_marker_app; [exact Hh|].
      destruct Hend as [H | [H | H]]; [left; exact H | discriminate H | right; exact H].
Qed.

Lemma gap_drop_gap (s : str) : s = gap s ++ drop_gap s.
Proof.
  unfold gap, drop_gap. destruct s as [|x r]; [reflexivity|].
  destruct (isspace x); reflexivity.
Qed.

Lemma marker_among_rendered (n : str) (pl : bool) (body : str) :
  In n section_names ->
  marker_among section_names (n ++ (if pl then py "s" else []) ++ py ":" ++ body)
  = Some (n, drop_gap body).
Proof.
  intros Hin. cbn [section_names In] in Hin.
  destruct Hin as [<- | [<- | [<- | [<- | [<- | []]]]]]; destruct pl; reflexivity.
Qed.

Lemma split_scan_skip (m : str) (prev : option ascii) (cur s : str) :
  split_scan section_flags section_re 1 (length m) prev cur (m ++ s)
  = split_scan section_flags section_re 1 0 (last_seen prev m) cur s.
Proof.
  revert prev. induction m as [|x m IH]; intros prev.
  - reflexivity.
  - cbn [length app split_scan]. rewrite IH. reflexivity.
Qed.

Lemma last_seen_app (prev : option ascii) (u : str) (x : ascii) :
  last_seen prev (u ++ [x]) = Some x.
Proof. unfold last_seen. rewrite fold_left_app. reflexivity. Qed.

Lemma last_seen_ends_line (prev : option ascii) (v : str) :
  ends_line v = true -> line_start (last_seen prev v) = true.
Proof.
  unfold ends_line. intros H. destruct (rev v) as [|c l] eqn:E; [discriminate H|].
  rewrite <- (rev_involutive v), E. cbn [rev]. rewrite last_seen_app. exact H.
Qed.

Lemma render_section_token (a : authored) :
  render_section a = token a ++ raw_body a.
Proof.
  unfold render_section, token, raw_body.
  rewrite (gap_drop_gap (a_body a)) at 1. rewrite <- !app_assoc. reflexivity.
Qed.

Lemma drop_gap_app (b t : str) :
  b <> [] \/ t = [] -> drop_gap (b ++ t) = drop_gap b ++ t.
Proof.
  intros [H | ->]; [|rewrite !app_nil_r; reflexivity].
  destruct b as [|x r]; [contradiction|]. cbn [app drop_gap].
  destruct (isspace x); reflexivity.
Qed.

(** At a line start, a rendered section is split off: the current piece
    ends, the name follows, and scanning goes on in the raw body. *)
Lemma split_scan_marker (a : authored) (t : str) (prev : option ascii) (cur : str) :
  line_start prev = true ->
  In (a_name a) section_names ->
  a_body a <> [] \/ t = [] ->
  split_scan section_flags section_re 1 0 prev cur (render_section a ++ t)
  = rev cur :: a_name a
      :: split_scan section_flags section_re 1 0 (last_seen prev (token a)) []
           (raw_body a ++ t).
Proof.
  intros Hbol Hin Hbody.
  assert (Hm : marker_here prev (render_section a ++ t)
               = Some (a_name a, raw_body a ++ t)).
  { unfold marker_here. rewrite Hbol. unfold render_section.
    rewrite <- !app_assoc. rewrite marker_among_rendered by exact Hin.
    unfold raw_body. rewrite drop_gap_app by exact Hbody. reflexivity. }
  rewrite render_section_token in Hm |- *. rewrite <- app_assoc in Hm |- *.
  destruct (token a) as [|c tk] eqn:Etok.
  { exfalso. unfold token in Etok. apply (f_equal (@length ascii)) in Etok.
    rewrite !length_app in Etok. cbn [length py list_ascii_of_string] in Etok. lia. }
  cbn [app] in Hm |- *. cbn [split_scan]. rewrite section_match_spec, Hm.
  change (c :: tk ++ raw_body a ++ t) with ((c :: tk) ++ raw_body a ++ t).
  rewrite firstn_matched. cbn [m_whole length seq map app].
  unfold group_text, group. cbn [m_caps lookup_group Nat.eqb].
  rewrite split_scan_skip. reflexivity.
Qed.

Lemma ends_line_app (u b : str) : ends_line b = true -> ends_line (u ++ b) = true.
Proof.
  unfold ends_line. rewrite rev_app_distr.
  destruct (rev b) as [|c l]; [discriminate|]. intros H. exact H.
Qed.

Lemma last_seen_twice (prev : option ascii) (u v : str) :
  last_seen (last_seen prev u) v = last_seen prev (u ++ v).
Proof. unfold last_seen. rewrite fold_left_app. reflexivity. Qed.

Lemma quiet_raw_body (a : authored) (prev : option ascii) :
  quiet false (a_body a) = true ->
  quiet (line_start (last_seen prev (token a))) (raw_body a) = true.
Proof.
  unfold token, raw_body, gap, drop_gap.
  destruct (a_body a) as [|x r]; [reflexivity|].
  destruct (isspace x).
  - rewrite !app_assoc, last_seen_app. cbn [quiet andb negb line_start].
    intros H. exact H.
  - rewrite app_nil_r, app_assoc. change (py ":") with [chr ":"].
    rewrite last_seen_app. intros H. exact H.
Qed.

Lemma line_start_after_section (a : authored) (prev : option ascii) :
  ends_line (a_body a) = true ->
  line_start (last_seen (last_seen prev (token a)) (raw_body a)) = true.
Proof.
  intros H. rewrite last_seen_twice, <- render_section_token.
  apply last_seen_ends_line. unfold render_section.
  rewrite !app_assoc. apply ends_line_app. exact H.
Qed.

Lemma raw_body_ends_line (a : authored) :
  ends_line (a_body a) = true ->
  raw_body a = [] \/ ends_line (raw_body a) = true.
Proof.
  unfold raw_body, drop_gap. destruct (a_body a) as [|x r]; [discriminate|].
  intros H. destruct (isspace x); [|right; exact H].
  destruct r as [|y r]; [left; reflexivity|].
  right. rewrite ends_line_cons in H by discriminate. exact H.
Qed.

Lemma is_empty_true (A : Type) (l : list A) : is_empty l = true -> l = [].
Proof. destruct l; [reflexivity | discriminate]. Qed.

(** Scanning the rendered sections from a line start yields their names and
    raw bodies in order. *)
Lemma scan_sections (secs : list authored) (prev : option ascii) (cur : str) :
  well_formed_sections secs = true ->
  secs = [] \/ line_start prev = true ->
  split_scan section_flags section_re 1 0 prev cur (concat (map render_section secs))
  = pieces (rev cur) secs.
Proof.
  revert prev cur. induction secs as [|a rest IH]; intros prev cur Hwf Hbol.
  - reflexivity.
  - destruct Hbol as [Hbol | Hbol]; [discriminate Hbol|].
    cbn [well_formed_sections] in Hwf.
    apply andb_true_iff in Hwf. destruct Hwf as [Hwf Hrest].
    apply andb_true_iff in Hwf. destruct Hwf as [Hwf Hend].
    apply andb_true_iff in Hwf. destruct Hwf as [Hname Hq].
    assert (Hin : In (a_name a) section_names).
    { apply existsb_exists in Hname. destruct Hname as [n [Hn Heq]].
      apply str_eqb_eq in Heq. rewrite Heq. exact Hn. }
    assert (Hcase : rest = [] \/ ends_line (a_body a) = true).
    { apply orb_true_iff in Hend. destruct Hend as [H | H];
        [left; exact (is_empty_true _ H) | right; exact H]. }
    cbn [map concat pieces].
    rewrite split_scan_marker; [|exact Hbol | exact Hin |].
    2:{ destruct Hcase as [-> | H]; [right; reflexivity|].
        left. intros E. rewrite E in H. discriminate H. }
    f_equal. f_equal.
    rewrite scan_quiet; [|apply quiet_raw_body; exact Hq|].
    2:{ destruct Hcase as [-> | H]; [left; reflexivity|].
        right. apply raw_body_ends_line. exact H. }
    rewrite IH; [|exact Hrest|].
    2:{ destruct Hcase as [-> | H]; [left; reflexivity|].
        right. apply line_start_after_section. exact H. }
    rewrite app_nil_r, rev_involutive. reflexivity.
Qed.

(** The sections [process_header] stores for an authored text. *)
Lemma split_sections_render (pre : str) (secs : list authored) :
  well_formed pre secs = true ->
  split_sections (render pre secs) = pieces pre secs.
Proof.
  unfold well_formed. intros Hwf.
  apply andb_true_iff in Hwf. destruct Hwf as [Hwf Hsecs].
  apply andb_true_iff in Hwf. destruct Hwf as [Hq Hpre].
  unfold split_sections, re_split, render.
  assert (Hcase : pre = [] \/ secs = [] \/ ends_line pre = true).
  { apply orb_true_iff in Hpre. destruct Hpre as [H | H]; [|right; right; exact H].
    apply orb_true_iff in H. destruct H as [H | H];
      [left | right; left]; exact (is_empty_true _ H). }
  rewrite scan_quiet; [|exact Hq|].
  2:{ destruct Hcase as [H | [H | H]];
        [right; left; exact H | left; rewrite H; reflexivity | right; right; exact H]. }
  rewrite scan_sections; [|exact Hsecs|].
  2:{ destruct Hcase as [H | [H | H]];
        [right; rewrite H; reflexivity | left; exact H
        | right; apply last_seen_ends_line; exact H]. }
  rewrite app_nil_r, rev_involutive. reflexivity.
Qed.

(** *** Looking a name up among the pieces *)

Lemma py_nth_succ (A : Type) (l : list A) (i : nat) :
  py_nth l (Z.of_nat i + 1) = nth_error l (S i).
Proof.
  unfold py_nth.
  assert (H : (0 <=? Z.of_nat i + 1)%Z = true) by (apply Z.leb_le; lia).
  rewrite H. f_equal. lia.
Qed.

Lemma section_body_skip (name y : str) (l : list str) :
  str_eqb y name = false -> section_body name (y :: l) = section_body name l.
Proof.
  intros H. unfold section_body. cbn [list_index]. rewrite H.
  destruct (list_index name l) as [i|]; [|reflexivity].
  cbn [option_map]. rewrite !py_nth_succ. reflexivity.
Qed.

Lemma section_body_hit (name x : str) (l : list str) :
  section_body name (name :: x :: l) = Some x.
Proof.
  unfold section_body. cbn [list_index].
  assert (H : str_eqb name name = true) by (apply str_eqb_eq; reflexivity).
  rewrite H. reflexivity.
Qed.

Lemma names_tail_not_ok :
  forallb (fun n => negb (tail_ok n)) section_names = true.
Proof. reflexivity. Qed.

Lemma tail_ok_not_name (s name : str) :
  tail_ok s = true -> In name section_names -> str_eqb s name = false.
Proof.
  intros Hs Hin. apply str_eqb_neq. intros ->.
  pose proof names_tail_not_ok as H. rewrite forallb_forall in H.
  specialize (H name Hin). rewrite Hs in H. discriminate H.
Qed.

Lemma ends_line_tail_ok (s : str) : s = [] \/ ends_line s = true -> tail_ok s = true.
Proof.
  intros [-> | H]; [reflexivity|]. unfold ends_line in H. unfold tail_ok.
  destruct (rev s); [reflexivity|]. rewrite H. reflexivity.
Qed.

Lemma tail_ok_suffix (u s : str) : tail_ok (u ++ s) = true -> tail_ok s = true.
Proof.
  unfold tail_ok. rewrite rev_app_distr. destruct (rev s); [reflexivity|].
  intros H. exact H.
Qed.

Lemma pieces_head (p : str) (secs : list authored) :
  exists l, pieces p secs = p :: l.
Proof. destruct secs; eexists; reflexivity. Qed.

(** A name that was authored once is found, and what [get_section] hands
    out for it is its raw body. *)
Lemma section_body_pieces (secs : list authored) (p name : str) (a : authored) :
  In name section_names ->
  tail_ok p = true ->
  well_formed_sections secs = true ->
  NoDup (map a_name secs) ->
  In a secs ->
  a_name a = name ->
  section_body name (pieces p secs) = Some (raw_body a).
Proof.
  intros Hname. revert p. induction secs as [|a0 rest IH]; intros p Hp Hwf Hnd Hin Ha.
  - destruct Hin.
  - cbn [pieces]. rewrite section_body_skip by (apply tail_ok_not_name; assumption).
    cbn [well_formed_sections] in Hwf.
    apply andb_true_iff in Hwf. destruct Hwf as [Hwf Hrest].
    apply andb_true_iff in Hwf. destruct Hwf as [_ Hend].
    cbn [map] in Hnd. inversion Hnd as [|? ? Hnotin Hnd']; subst.
    destruct (str_eqb (a_name a0) (a_name a)) eqn:E.
    + apply str_eqb_eq in E.
      assert (a = a0).
      { destruct Hin as [H | H]; [symmetry; exact H|].
        exfalso. apply Hnotin. rewrite E. apply in_map. exact H. }
      subst a0. destruct (pieces_head (raw_body a) rest) as [l ->].
      apply section_body_hit.
    + rewrite section_body_skip by exact E.
      destruct Hin as [H | H].
      { subst a0. apply str_eqb_neq in E. contradiction. }
      apply IH; try assumption; [|reflexivity].
      apply ends_line_tail_ok.
      apply orb_true_iff in Hend. destruct Hend as [He | He].
      * apply is_empty_true in He. subst rest. destruct H.
      * apply raw_body_ends_line. exact He.
Qed.

Lemma pieces_last_suffix (secs : list authored) (p : str) :
  exists u, p ++ concat (map render_section secs) = u ++ last (pieces p secs) [].
Proof.
  revert p. induction secs as [|a rest IH]; intros p.
  - exists []. cbn. rewrite app_nil_r. reflexivity.
  - destruct (IH (raw_body a)) as [u Hu].
    exists (p ++ token a ++ u). cbn [map concat pieces].
    rewrite render_section_token, <- !app_assoc. rewrite Hu.
    destruct (pieces_head (raw_body a) rest) as [l Hl]. rewrite Hl.
    cbn [last]. reflexivity.
Qed.

(** A name that was not authored is not found, provided the last piece is
    not that name. *)
Lemma list_index_pieces_none (secs : list authored) (p name : str) :
  In name section_names ->
  secs = [] \/ tail_ok p = true ->
  well_formed_sections secs = true ->
  ~ In name (map a_name secs) ->
  tail_ok (last (pieces p secs) []) = true ->
  list_index name (pieces p secs) = None.
Proof.
  intros Hname. revert p. induction secs as [|a0 rest IH]; intros p Hp Hwf Hnot Hlast.
  - cbn [pieces last] in Hlast |- *. cbn [list_index].
    rewrite (tail_ok_not_name _ Hlast Hname). reflexivity.
  - destruct Hp as [Hp | Hp]; [discriminate Hp|].
    cbn [well_formed_sections] in Hwf.
    apply andb_true_iff in Hwf. destruct Hwf as [Hwf Hrest].
    apply andb_true_iff in Hwf. destruct Hwf as [_ Hend].
    cbn [pieces list_index]. rewrite (tail_ok_not_name _ Hp Hname).
    assert (E : str_eqb (a_name a0) name = false).
    { apply str_eqb_neq. intros E. apply Hnot. left. exact E. }
    rewrite E.
    rewrite IH; [reflexivity | | exact Hrest | | ].
    + apply orb_true_iff in Hend. destruct Hend as [He | He].
      * left. exact (is_empty_true _ He).
      * right. apply ends_line_tail_ok. apply raw_body_ends_line. exact He.
    + intros Hin. apply Hnot. right. exact Hin.
    + cbn [pieces] in Hlast. destruct (pieces_head (raw_body a0) rest) as [l Hl].
      rewrite Hl in Hlast |- *. exact Hlast.
Qed.

(** *** The end of a normalized header *)

Lemma endswith_app (suffix s : str) :
  endswith suffix s = true -> exists s0, s = s0 ++ suffix.
Proof.
  unfold endswith. intros H. apply startswith_app in H.
  exists (rev (skipn (length (rev suffix)) (rev s))).
  rewrite <- (rev_involutive s) at 1. rewrite H at 1.
  rewrite rev_app_distr, rev_involutive. reflexivity.
Qed.

Lemma splitlines_last_line (h0 : str) (cr : bool) (cur : str) :
  exists L l, splitlines_from false cr cur (h0 ++ py "*/") = L ++ [l ++ py "*/"].
Proof.
  revert cr cur. induction h0 as [|c r IH]; intros cr cur.
  - exists [], (rev cur). cbn [app].
    change (splitlines_from false cr cur (py "*/"))
      with [rev (chr "/" :: chr "*" :: cur)].
    cbn [rev]. rewrite <- !app_assoc. reflexivity.
  - cbn [app splitlines_from]. destruct (islinebreak c).
    + destruct (char_eqb c CR && _).
      * apply IH.
      * destruct (IH false []) as [L [l H]]. rewrite H.
        eexists (_ :: L), l. reflexivity.
    + apply IH.
Qed.

Lemma join_snoc (sep : str) (xs : list str) (x : str) :
  join sep (xs ++ [x])
  = match xs with
    | [] => x
    | _ :: _ => join sep xs ++ sep ++ x
    end.
Proof.
  induction xs as [|y ys IH]; [reflexivity|].
  cbn [app]. destruct ys as [|z zs].
  - reflexivity.
  - cbn [app join] in IH |- *. rewrite IH. rewrite <- !app_assoc. reflexivity.
Qed.

Lemma skipn3_close (l : str) :
  skipn 3 (l ++ py "*/") = [] \/ exists y, skipn 3 (l ++ py "*/") = y ++ [slash].
Proof.
  destruct l as [|a [|b [|c l]]].
  - left. reflexivity.
  - left. reflexivity.
  - right. exists []. reflexivity.
  - right. exists (l ++ [chr "*"]). cbn [app skipn]. rewrite <- app_assoc. reflexivity.
Qed.

Lemma lstrip_keeps_last (y : str) (x : ascii) :
  isspace x = false -> exists z, lstrip (y ++ [x]) = z ++ [x].
Proof.
  intros Hx. induction y as [|c y [z Hz]].
  - exists []. cbn [app]. apply lstrip_other. exact Hx.
  - cbn [app]. destruct (isspace c) eqn:Hc.
    + exists z. rewrite lstrip_space by exact Hc. exact Hz.
    + exists (c :: y). rewrite lstrip_other by exact Hc. reflexivity.
Qed.

Lemma strip_keeps_last (y : str) (x : ascii) :
  isspace x = false -> exists z, strip (y ++ [x]) = z ++ [x].
Proof.
  intros Hx. destruct (@lstrip_keeps_last y x Hx) as [z Hz].
  exists z. unfold strip, rstrip. rewrite Hz, rev_app_distr. cbn [rev app].
  rewrite lstrip_other by exact Hx. cbn [rev]. rewrite rev_involutive. reflexivity.
Qed.

Lemma tail_ok_snoc (u : str) (x : ascii) :
  char_eqb x NL || char_eqb x slash = true -> tail_ok (u ++ [x]) = true.
Proof.
  intros H. unfold tail_ok. rewrite rev_app_distr. exact H.
Qed.

(** The normalized text of a header that ends with "*/" is empty or ends
    with a newline or a slash. *)
Lemma normalize_header_tail (h : str) :
  endswith (py "*/") h = true -> tail_ok (normalize_header h) = true.
Proof.
  intros H. apply endswith_app in H. destruct H as [h0 ->].
  unfold normalize_header, splitlines.
  destruct (splitlines_last_line h0 false []) as [L [l HL]]. rewrite HL.
  rewrite map_app. cbn [map]. rewrite join_snoc.
  assert (Hlast : strip (skipn 3 (l ++ py "*/")) = []
                  \/ exists z, strip (skipn 3 (l ++ py "*/")) = z ++ [slash]).
  { destruct (skipn3_close l) as [-> | [y ->]].
    - left. reflexivity.
    - right. apply strip_keeps_last. reflexivity. }
  destruct (map _ L) as [|x xs].
  - destruct Hlast as [-> | [z ->]]; [reflexivity|].
    apply tail_ok_snoc. reflexivity.
  - destruct Hlast as [-> | [z ->]].
    + rewrite app_nil_r. apply tail_ok_snoc. reflexivity.
    + rewrite !app_assoc. apply tail_ok_snoc. reflexivity.
Qed.

(** *** Every text can be read as authored *)

Lemma head_among_some (names : list str) (s : str) (a : authored) :
  head_among names s = Some a -> In (a_name a) names /\ s = render_section a.
Proof.
  induction names as [|n ns IH]; [discriminate|].
  cbn [head_among]. destruct (startswith (n ++ py ":") s) eqn:E1.
  - intros H. injection H as <-. split; [left; reflexivity|].
    apply startswith_app in E1. rewrite length_app in E1. cbn [length py list_ascii_of_string] in E1.
    unfold render_section. cbn [a_name a_plural a_body app]. rewrite E1 at 1.
    rewrite <- app_assoc. reflexivity.
  - destruct (startswith (n ++ py "s:") s) eqn:E2.
    + intros H. injection H as <-. split; [left; reflexivity|].
      apply startswith_app in E2. rewrite length_app in E2.
      cbn [length py list_ascii_of_string] in E2.
      unfold render_section. cbn [a_name a_plural a_body]. rewrite E2 at 1.
      rewrite <- !app_assoc. reflexivity.
    + intros H. destruct (IH H) as [Hin Hs]. split; [right; exact Hin | exact Hs].
Qed.

Lemma head_among_none (names : list str) (s : str) :
  head_among names s = None ->
  existsb (fun n => startswith (n ++ py ":") s || startswith (n ++ py "s:") s) names = false.
Proof.
  induction names as [|n ns IH]; [reflexivity|].
  cbn [head_among existsb].
  destruct (startswith (n ++ py ":") s); [discriminate|].
  destruct (startswith (n ++ py "s:") s); [discriminate|].
  exact IH.
Qed.

Lemma quiet_after_head (h b : str) (bol : bool) :
  existsb (char_eqb NL) h = false ->
  h <> [] ->
  quiet bol (h ++ b) = true -> quiet false b = true.
Proof.
  revert bol. induction h as [|x h IH]; intros bol Hnl Hne Hq; [contradiction|].
  cbn [existsb] in Hnl. apply orb_false_iff in Hnl. destruct Hnl as [Hx Hh].
  cbn [app quiet] in Hq. apply andb_true_iff in Hq. destruct Hq as [_ Hq].
  rewrite Ascii.eqb_sym in Hx. unfold char_eqb in Hq. rewrite Hx in Hq.
  destruct h as [|y h]; [exact Hq|].
  apply (IH false); [exact Hh | discriminate | exact Hq].
Qed.

Lemma ends_line_app_r (u b : str) : b <> [] -> ends_line (u ++ b) = ends_line b.
Proof.
  intros Hb. unfold ends_line. rewrite rev_app_distr.
  destruct (rev b) as [|c l] eqn:E; [|reflexivity].
  exfalso. apply Hb. rewrite <- (rev_involutive b), E. reflexivity.
Qed.

Lemma quiet_at_line_start (chunk : str) :
  quiet false chunk = true -> heads_marker chunk = false -> quiet true chunk = true.
Proof.
  destruct chunk as [|c r]; [reflexivity|]. cbn [quiet andb negb].
  intros Hq Hh. rewrite Hh. exact Hq.
Qed.

Lemma head_has_no_newline (a : authored) :
  In (a_name a) section_names ->
  existsb (char_eqb NL) (a_name a ++ (if a_plural a then py "s" else []) ++ py ":") = false.
Proof.
  intros Hin. pose proof names_have_no_newline as H.
  rewrite forallb_forall in H. specialize (H _ Hin).
  apply andb_true_iff in H. destruct H as [H1 H2].
  apply negb_true_iff in H1, H2. destruct (a_plural a); assumption.
Qed.

(** A chunk that starts with a marker is a well-formed first section. *)
Lemma section_of_chunk (chunk : str) (a : authored) (secs : list authored) :
  head_among section_names chunk = Some a ->
  quiet false chunk = true ->
  well_formed_sections secs = true ->
  secs = [] \/ ends_line chunk = true ->
  chunk = render_section a /\ well_formed_sections (a :: secs) = true.
Proof.
  intros Hhead Hq Hwf Hend. apply head_among_some in Hhead.
  destruct Hhead as [Hin Hchunk]. split; [exact Hchunk|].
  pose proof (head_has_no_newline a Hin) as Hnl.
  set (h := a_name a ++ (if a_plural a then py "s" else []) ++ py ":") in *.
  assert (Hbody : render_section a = h ++ a_body a)
    by (unfold render_section, h; rewrite <- !app_assoc; reflexivity).
  assert (Hh : h <> []).
  { unfold h. intros E. apply (f_equal (@length ascii)) in E.
    rewrite !length_app in E. cbn [length py list_ascii_of_string] in E. lia. }
  cbn [well_formed_sections]. rewrite Hwf, andb_true_r.
  apply andb_true_iff. split; [apply andb_true_iff; split|].
  - apply existsb_exists. exists (a_name a). split; [exact Hin|].
    apply str_eqb_eq. reflexivity.
  - apply (@quiet_after_head h (a_body a) false); [exact Hnl | exact Hh|].
    rewrite <- Hbody, <- Hchunk. exact Hq.
  - destruct Hend as [-> | He]; [reflexivity|].
    apply orb_true_iff. right. rewrite Hchunk, Hbody in He.
    destruct (a_body a) as [|x r] eqn:Eb.
    + rewrite app_nil_r in He. apply ends_line_has_newline in He. congruence.
    + rewrite ends_line_app_r in He by discriminate. exact He.
Qed.

Lemma author_from_spec (s : str) :
  s = fst (author_from s) ++ concat (map render_section (snd (author_from s)))
  /\ quiet false (fst (author_from s)) = true
  /\ well_formed_sections (snd (author_from s)) = true
  /\ (snd (author_from s) = [] \/ ends_line (fst (author_from s)) = true).
Proof.
  induction s as [|c s IH]; [repeat split; left; reflexivity|].
  cbn [author_from]. destruct (author_from s) as [chunk secs].
  cbn [fst snd] in IH. destruct IH as [Hs [Hq [Hwf Hend]]].
  assert (Hplain : c :: s = (c :: chunk) ++ concat (map render_section secs)
                   /\ quiet (char_eqb c NL) chunk = true ->
                   c :: s = (c :: chunk) ++ concat (map render_section secs)
                   /\ quiet false (c :: chunk) = true
                   /\ well_formed_sections secs = true
                   /\ (secs = [] \/ ends_line (c :: chunk) = true)).
  { intros [H1 H2]. split; [exact H1|]. split; [exact H2|]. split; [exact Hwf|].
    destruct Hend as [H | H]; [left; exact H|]. right.
    destruct chunk as [|x r]; [discriminate H|].
    rewrite ends_line_cons by discriminate. exact H. }
  destruct (char_eqb c NL) eqn:Ec.
  - destruct (head_among section_names chunk) as [a|] eqn:Eh; cbn [fst snd].
    + destruct (@section_of_chunk chunk a secs Eh Hq Hwf Hend) as [Hchunk Hwf'].
      split; [|split; [reflexivity | split; [exact Hwf'|]]].
      * cbn [map concat app]. rewrite <- Hchunk, <- Hs. reflexivity.
      * right. unfold ends_line. cbn [rev app]. exact Ec.
    + apply Hplain. split; [cbn [app]; f_equal; exact Hs|].
      apply quiet_at_line_start; [exact Hq|]. apply head_among_none. exact Eh.
  - cbn [fst snd]. apply Hplain. split; [cbn [app]; f_equal; exact Hs | exact Hq].
Qed.

(** Every text is authored in the sense of [well_formed]. *)
Lemma author_spec (text : str) :
  text = render (fst (author text)) (snd (author text))
  /\ well_formed (fst (author text)) (snd (author text)) = true.
Proof.
  unfold author. destruct (author_from_spec text) as [Hs [Hq [Hwf Hend]]].
  destruct (author_from text) as [chunk secs]. cbn [fst snd] in *.
  destruct (head_among section_names chunk) as [a|] eqn:Eh; cbn [fst snd].
  - destruct (@section_of_chunk chunk a secs Eh Hq Hwf Hend) as [Hchunk Hwf'].
    split.
    + unfold render. cbn [map concat app]. rewrite <- Hchunk. exact Hs.
    + unfold well_formed. rewrite Hwf'. reflexivity.
  - split; [exact Hs|]. unfold well_formed. rewrite Hwf, andb_true_r.
    apply andb_true_iff. split.
    + apply quiet_at_line_start; [exact Hq|]. apply head_among_none. exact Eh.
    + destruct Hend as [-> | He]; [|rewrite He; apply orb_true_r].
      rewrite orb_true_r. reflexivity.
Qed.

Lemma section_names_nodup : NoDup section_names.
Proof.
  unfold section_names.
  repeat (constructor; [cbn [In]; intuition discriminate|]).
  constructor.
Qed.

Lemma well_formed_pre_tail (pre : str) (secs : list authored) :
  well_formed pre secs = true -> secs = [] \/ tail_ok pre = true.
Proof.
  unfold well_formed. intros H.
  apply andb_true_iff in H. destruct H as [H _].
  apply andb_true_iff in H. destruct H as [_ H].
  apply orb_true_iff in H. destruct H as [H | H].
  - apply orb_true_iff in H. destruct H as [H | H].
    + right. rewrite (is_empty_true _ H). reflexivity.
    + left. exact (is_empty_true _ H).
  - right. apply ends_line_tail_ok. right. exact H.
Qed.

Lemma well_formed_sections_of (pre : str) (secs : list authored) :
  well_formed pre secs = true -> well_formed_sections secs = true.
Proof.
  unfold well_formed. intros H. apply andb_true_iff in H. apply H.
Qed.

(** The closing "*/" matters for the missing names: in a header text that
    is cut short, the last piece can be a name itself, and the lookup then
    runs past the end of the list. *)
Lemma stray_last_piece_raises :
  let relpath := fun (p _ : str) => p in
  let w := imported_world (py "/* Author:Public") in
  sections (self (start_header false w)) = [[]; py "Author"; py "Public"]
  /\ fst (get_section relpath (py "Public") (start_header false w)) = Raise IndexError.
Proof. vm_compute. split; reflexivity. Qed.

(** C3: the normalized text of every header can be read as authored: a
    leading piece [pre] and then sections, each with its marker at a line
    start and its body running up to the next marker or the end, no other
    line starting with a marker.  For every such reading: when each of the
    five names was authored exactly once, in whatever order, [get_section]
    returns for each name exactly its raw body and reports nothing; and for
    a header as [import_header] stores it (it ends with "*/"), a name that
    was not authored makes [get_section] report the Error
    "Missing "<name>" header section" and return the empty text. *)
Theorem get_section_recovers_bodies (relpath : str -> str -> str) (debug_arg : bool)
    (w : World) :
  let text := normalize_header (header (self w)) in
  (exists pre secs, text = render pre secs /\ well_formed pre secs = true)
  /\ (forall pre secs,
        text = render pre secs ->
        well_formed pre secs = true ->
        (Permutation (map a_name secs) section_names ->
         forall a, In a secs ->
           get_section relpath (a_name a) (start_header debug_arg w)
           = (Ok (raw_body a), start_header debug_arg w))
        /\ (endswith (py "*/") (header (self w)) = true ->
            forall name, In name section_names -> ~ In name (map a_name secs) ->
              exists w',
                get_section relpath name (start_header debug_arg w) = (Ok [], w')
                /\ diagnostics w'
                   = diagnostics w
                       ++ [(Error, py "Missing " ++ quoted name
                                     ++ py " header section")])).
Proof.
  intros text. split.
  { exists (fst (author text)), (snd (author text)). apply author_spec. }
  intros pre secs Htext Hwf. subst text.
  assert (Hsecs : sections (self (start_header debug_arg w)) = pieces pre secs).
  { cbn [start_header self sections set_sections]. rewrite Htext.
    apply split_sections_render. exact Hwf. }
  split.
  - intros Hperm a Hin. apply get_section_found. rewrite Hsecs.
    apply section_body_pieces with (a := a).
    + apply (Permutation_in _ Hperm). apply in_map. exact Hin.
    + destruct (well_formed_pre_tail _ _ Hwf) as [H | H]; [|exact H].
      subst secs. destruct Hin.
    + exact (well_formed_sections_of _ _ Hwf).
    + apply (Permutation_NoDup (Permutation_sym Hperm)). exact section_names_nodup.
    + exact Hin.
    + reflexivity.
  - intros Hend name Hname Hnot.
    assert (Hnone : list_index name (sections (self (start_header debug_arg w))) = None).
    { rewrite Hsecs. apply list_index_pieces_none.
      - exact Hname.
      - exact (well_formed_pre_tail _ _ Hwf).
      - exact (well_formed_sections_of _ _ Hwf).
      - exact Hnot.
      - destruct (pieces_last_suffix secs pre) as [u Hu].
        apply (tail_ok_suffix u). rewrite <- Hu.
        change (pre ++ concat (map render_section secs)) with (render pre secs).
        rewrite <- Htext. apply normalize_header_tail. exact Hend. }
    unfold get_section, bind, get_self. rewrite Hnone.
    run_feedback. eexists. split; reflexivity.
Qed.

Lemma get_section_recovers_bodies_witness :
  let relpath := fun (p _ : str) => p in
  let w1 := imported_world shuffled_header in
  let w2 := imported_world private_header in
  get_section relpath (py "Argument") (start_header false w1)
    = (Ok (py "0: Unit <OBJECT>" ++ [NL; NL]), start_header false w1)
  /\ exists w',
       get_section relpath (py "Example") (start_header false w2) = (Ok [], w')
       /\ diagnostics w'
          = [(Error, py "Missing " ++ quoted (py "Example") ++ py " header section")].
Proof.
  intros relpath w1 w2. split.
  - destruct (get_section_recovers_bodies relpath false w1) as [_ H].
    destruct (H [NL] shuffled_sections) as [H1 _].
    + vm_compute. reflexivity.
    + vm_compute. reflexivity.
    + apply (H1 (Permutation_cons_append _ _)
                (mkAuthored (py "Argument") true ([NL] ++ py "0: Unit <OBJECT>" ++ [NL; NL]))).
      cbn [shuffled_sections In]. right. right. left. reflexivity.
  - destruct (get_section_recovers_bodies relpath false w2) as [_ H].
    destruct (H [NL] private_sections) as [_ H2].
    + vm_compute. reflexivity.
    + vm_compute. reflexivity.
    + apply H2.
      * vm_compute. reflexivity.
      * cbn [section_names In]. right. right. right. left. reflexivity.
      * cbn [private_sections map a_name In]. intros [E | [E | []]]; discriminate E.
Defined.

(** * Further properties of the code *)

(** ** Authors and description *)

Lemma split_from_nonempty (sep : str) (skip : nat) (cur s : str) :
  split_from sep skip cur s <> [].
Proof.
  revert skip cur. induction s as [|c r IH]; intros skip cur; [discriminate|].
  cbn [split_from]. destruct skip as [|n]; [|apply IH].
  destruct (startswith sep (c :: r)); [discriminate | apply IH].
Qed.

Lemma split_from_skip (sep m : str) (cur s : str) :
  split_from sep (length m) cur (m ++ s) = split_from sep 0 cur s.
Proof.
  induction m as [|x m IH]; [reflexivity|].
  cbn [length app split_from]. exact IH.
Qed.

Lemma join_cons (sep p : str) (l : list str) :
  l <> [] -> join sep (p :: l) = p ++ sep ++ join sep l.
Proof. destruct l; [contradiction | reflexivity]. Qed.

(** Joining what [split] yields gives the text back. *)
Lemma join_split_from (sep : str) (n : nat) (cur s : str) :
  sep <> [] ->
  length s <= n ->
  join sep (split_from sep 0 cur s) = rev cur ++ s.
Proof.
  intros Hsep. revert cur s. induction n as [|n IH]; intros cur s Hlen.
  - destruct s; [|cbn in Hlen; lia]. cbn. rewrite app_nil_r. reflexivity.
  - destruct s as [|c r]; [cbn; rewrite app_nil_r; reflexivity|].
    cbn [split_from]. destruct (startswith sep (c :: r)) eqn:E.
    + pose proof (startswith_app _ _ E) as Hs.
      destruct sep as [|x sep']; [contradiction|].
      cbn [length skipn app] in Hs. injection Hs as Hx Hr.
      replace (length (x :: sep') - 1) with (length sep') by (cbn [length]; lia).
      rewrite Hr at 1.
      rewrite split_from_skip, join_cons by apply split_from_nonempty.
      rewrite IH.
      * cbn [rev app]. rewrite Hr at 2. rewrite Hx. reflexivity.
      * cbn [length] in Hlen. pose proof (length_skipn (length sep') r). lia.
    + rewrite IH by (cbn [length] in Hlen; lia).
      cbn [rev]. rewrite <- app_assoc. reflexivity.
Qed.

Lemma join_split (sep s : str) : sep <> [] -> join sep (split sep s) = s.
Proof.
  intros H. unfold split. apply (@join_split_from sep (length s) [] s H). lia.
Qed.

(** What [splitlines] cuts off: with the line ends kept, the lines add up
    to the text. *)
Lemma concat_splitlines_from (cr : bool) (cur s : str) :
  (cr = true -> exists r, s = NL :: r) ->
  concat (splitlines_from true cr cur s) = rev cur ++ (if cr then [CR] else []) ++ s.
Proof.
  revert cr cur. induction s as [|c r IH]; intros cr cur Hcr.
  - destruct cr; [destruct (Hcr eq_refl) as [r H]; discriminate H|].
    cbn. destruct cur; cbn; rewrite ?app_nil_r; reflexivity.
  - cbn [splitlines_from]. destruct (islinebreak c) eqn:Hc.
    + destruct (char_eqb c CR && match r with d :: _ => char_eqb d NL | [] => false end) eqn:E.
      * apply andb_true_iff in E. destruct E as [E1 E2]. apply char_eqb_eq in E1. subst c.
        destruct cr.
        { destruct (Hcr eq_refl) as [r' H]. discriminate H. }
        rewrite IH.
        -- reflexivity.
        -- intros _. destruct r as [|d r']; [discriminate E2|].
           apply char_eqb_eq in E2. subst d. exists r'. reflexivity.
      * cbn [concat]. rewrite IH by discriminate.
        destruct cr; cbn [rev app]; rewrite <- !app_assoc; reflexivity.
    + destruct cr.
      { destruct (Hcr eq_refl) as [r' H]. injection H as -> _. discriminate Hc. }
      rewrite IH by discriminate. cbn [rev app]. rewrite <- !app_assoc. reflexivity.
Qed.

Lemma concat_splitlines (s : str) : concat (splitlines true s) = s.
Proof.
  unfold splitlines. rewrite concat_splitlines_from by discriminate. reflexivity.
Qed.

Lemma join_empty (l : list str) : join [] l = concat l.
Proof.
  induction l as [|p l IH]; [reflexivity|].
  destruct l as [|q l]; [cbn; rewrite app_nil_r; reflexivity|].
  cbn [join concat app] in IH |- *. rewrite IH. reflexivity.
Qed.

Lemma splitlines_from_ends (cr : bool) (cur s : str) :
  Forall2 line_with_end (splitlines_from true cr cur s) (splitlines_from false cr cur s).
Proof.
  revert cr cur. induction s as [|c r IH]; intros cr cur.
  - cbn. destruct cur; constructor; [|constructor].
    exists []. rewrite app_nil_r. repeat split; [constructor | cbn; lia].
  - cbn [splitlines_from]. destruct (islinebreak c) eqn:Hc; [|apply IH].
    destruct (char_eqb c CR && _); [apply IH|].
    constructor; [|apply IH].
    cbv iota. rewrite app_nil_r. exists (if cr then [CR; c] else [c]).
    split; [reflexivity|].
    destruct cr; split.
    + constructor; [reflexivity | constructor; [exact Hc | constructor]].
    + cbn; lia.
    + constructor; [exact Hc | constructor].
    + cbn; lia.
Qed.

Lemma process_author_run (raw : str) (w : World) :
  raw <> [] ->
  exists authors_text,
    nth_error (splitlines false raw) 0 = Some authors_text
    /\ process_author raw w = (Ok (split (py ", ") authors_text), w).
Proof.
  intros Hne. pose proof (splitlines_nonempty false Hne) as Hl.
  unfold process_author.
  destruct (splitlines false raw) as [|authors_text rest]; [contradiction|].
  exists authors_text. split; reflexivity.
Qed.

Lemma startswith_app_r (sep v s : str) :
  startswith sep v = true -> startswith sep (v ++ s) = true.
Proof.
  revert v. induction sep as [|x sep IH]; intros [|y v] H; try reflexivity;
    try discriminate H.
  cbn [startswith app] in H |- *. apply andb_true_iff in H. destruct H as [H1 H2].
  rewrite H1, (IH _ H2). reflexivity.
Qed.

Lemma contains_none (sep x : str) :
  (forall u v, x = u ++ v -> startswith sep v = false) -> contains sep x = false.
Proof.
  induction x as [|c x IH]; intros H.
  - cbn [contains]. rewrite (H [] [] eq_refl). reflexivity.
  - cbn [contains]. rewrite (H [] (c :: x) eq_refl). cbn [orb].
    apply IH. intros u v E. apply (H (c :: u) v). rewrite E. reflexivity.
Qed.

(** No piece of a split holds the separator. *)
Lemma split_from_pieces (sep : str) (skip : nat) (cur s : str) :
  sep <> [] ->
  match skip with
  | O => forall u v, rev cur = u ++ v -> v <> [] -> startswith sep (v ++ s) = false
  | S _ => cur = []
  end ->
  Forall (fun piece => contains sep piece = false) (split_from sep skip cur s).
Proof.
  intros Hsep. revert skip cur.
  assert (Hnil : startswith sep [] = false) by (destruct sep; [contradiction | reflexivity]).
  assert (Hstart : forall n r,
            match n with
            | O => forall u v, rev (@nil ascii) = u ++ v -> v <> [] ->
                     startswith sep (v ++ r) = false
            | S _ => @nil ascii = []
            end).
  { intros [|n] r; [|reflexivity]. intros u v E Hv.
    cbn [rev] in E. symmetry in E. apply app_eq_nil in E. destruct E as [_ E].
    contradiction. }
  induction s as [|c r IH]; intros skip cur Hinv.
  - cbn [split_from]. constructor; [|constructor].
    destruct skip as [|n].
    + apply contains_none. intros u v E.
      destruct v as [|y v]; [exact Hnil|].
      rewrite <- (app_nil_r (y :: v)). apply (Hinv u); [exact E | discriminate].
    + subst cur. cbn [rev contains]. rewrite Hnil. reflexivity.
  - cbn [split_from]. destruct skip as [|n].
    + destruct (startswith sep (c :: r)) eqn:E.
      * constructor; [|apply IH; apply Hstart].
        apply contains_none. intros u v Ev.
        destruct v as [|y v]; [exact Hnil|].
        destruct (startswith sep (y :: v)) eqn:Es; [|reflexivity].
        rewrite <- (Hinv u (y :: v) Ev ltac:(discriminate)).
        symmetry. apply startswith_app_r. exact Es.
      * apply IH. intros u v Ev Hv.
        destruct (exists_last Hv) as [v' [x Ex]]. subst v.
        cbn [rev] in Ev. rewrite app_assoc in Ev. apply app_inj_tail in Ev.
        destruct Ev as [Ev ->].
        destruct v' as [|y v'].
        -- exact E.
        -- rewrite <- app_assoc. apply (Hinv u); [exact Ev | discriminate].
    + subst cur. apply IH. apply Hstart.
Qed.

(** X1: the authors are the pieces of the first line between the separators
    ", ": there is at least one, none of them holds a ", ", and joined by
    ", " they give the line back.  An empty body has no first line. *)
Theorem process_author_joins (raw : str) (w : World) :
  (raw <> [] ->
   exists authors_text authors,
     nth_error (splitlines false raw) 0 = Some authors_text
     /\ process_author raw w = (Ok authors, w)
     /\ authors <> []
     /\ Forall (fun author => contains (py ", ") author = false) authors
     /\ join (py ", ") authors = authors_text)
  /\ process_author [] w = (Raise IndexError, w).
Proof.
  split; [|reflexivity].
  intros Hne. destruct (process_author_run w Hne) as [authors_text [Hfirst Hrun]].
  exists authors_text, (split (py ", ") authors_text).
  split; [exact Hfirst|]. split; [exact Hrun|]. split; [|split].
  - apply split_from_nonempty.
  - apply split_from_pieces; [discriminate|].
    intros u v E Hv. cbn [rev] in E. symmetry in E. apply app_eq_nil in E.
    destruct E as [_ E]. contradiction.
  - apply join_split. discriminate.
Qed.

Lemma process_author_joins_witness :
  exists authors,
    process_author (py "commy2, PabstMirror" ++ [NL] ++ py "Does a thing." ++ [NL])
      (imported_world scenario_header)
    = (Ok authors, imported_world scenario_header)
    /\ join (py ", ") authors = py "commy2, PabstMirror".
Proof.
  destruct (process_author_joins
              (py "commy2, PabstMirror" ++ [NL] ++ py "Does a thing." ++ [NL])
              (imported_world scenario_header)) as [H _].
  destruct H as [authors_text [authors [Hfirst [Hrun [_ [_ Hjoin]]]]]].
  - discriminate.
  - exists authors. split; [exact Hrun|].
    rewrite Hjoin. vm_compute in Hfirst. injection Hfirst as <-. reflexivity.
Defined.

(** The first line of a text, its boundary, and what the lines after it
    add up to with their ends kept. *)
Lemma first_line_spec (cur s : str) :
  Forall (fun c => islinebreak c = false) cur ->
  match splitlines_from false false cur s with
  | [] => cur = [] /\ s = []
  | line :: _ =>
      Forall (fun c => islinebreak c = false) line
      /\ exists e,
           line_boundary e (concat (skipn 1 (splitlines_from true false cur s)))
           /\ rev cur ++ s
              = line ++ e ++ concat (skipn 1 (splitlines_from true false cur s))
  end.
Proof.
  revert cur. induction s as [|c r IH]; intros cur Hcur.
  - cbn [splitlines_from]. destruct cur as [|x cur]; [split; reflexivity|].
    split; [apply Forall_rev; exact Hcur|].
    exists []. cbn [skipn concat app]. split; [left; split; reflexivity|].
    rewrite !app_nil_r. reflexivity.
  - cbn [splitlines_from]. destruct (islinebreak c) eqn:Hc.
    + destruct (char_eqb c CR && match r with d :: _ => char_eqb d NL | [] => false end)
        eqn:E.
      * apply andb_true_iff in E. destruct E as [E1 E2]. apply char_eqb_eq in E1. subst c.
        destruct r as [|d r']; [discriminate E2|]. apply char_eqb_eq in E2. subst d.
        cbn [splitlines_from].
        replace (islinebreak NL) with true by reflexivity.
        replace (char_eqb NL CR) with false by reflexivity. cbn [andb skipn].
        rewrite concat_splitlines_from by discriminate. cbn [rev app].
        split; [rewrite app_nil_r; apply Forall_rev; exact Hcur|].
        exists [CR; NL]. split; [right; left; reflexivity|].
        rewrite app_nil_r. reflexivity.
      * cbn [skipn]. rewrite concat_splitlines_from by discriminate. cbn [rev app].
        split; [rewrite app_nil_r; apply Forall_rev; exact Hcur|].
        exists [c]. split.
        -- right. right. exists c. split; [reflexivity|]. split; [exact Hc|].
           intros [-> [r' ->]]. cbn in E. discriminate E.
        -- rewrite app_nil_r. reflexivity.
    + specialize (IH (c :: cur)).
      destruct (splitlines_from false false (c :: cur) r) as [|line rest].
      * destruct IH as [H _]; [constructor; assumption | discriminate H].
      * destruct IH as [Hline [e [He Heq]]]; [constructor; assumption|].
        split; [exact Hline|]. exists e. split; [exact He|].
        rewrite <- Heq. cbn [rev]. rewrite <- app_assoc. reflexivity.
Qed.

(** X2: nothing of the Author section is lost, and the description starts
    right after the first line.  The body is the authors line - the text up
    to the first line-break character -, one line boundary and the
    description; the boundary is CR LF, or a single line-break character (a
    CR only if no LF follows it), or nothing when the body ends with the
    authors line.  A body of one line has the empty description. *)
Theorem process_description_keeps_rest (raw : str) (w : World) :
  exists description_text,
    process_description raw w = (Ok description_text, w)
    /\ (forall authors_text,
          nth_error (splitlines false raw) 0 = Some authors_text ->
          Forall (fun c => islinebreak c = false) authors_text
          /\ exists e,
               line_boundary e description_text
               /\ raw = authors_text ++ e ++ description_text)
    /\ (length (splitlines false raw) <= 1 -> description_text = []).
Proof.
  unfold process_description. eexists. split; [reflexivity|].
  pose proof (splitlines_from_ends false [] raw) as Hends.
  fold (splitlines true raw) in Hends. fold (splitlines false raw) in Hends.
  rewrite join_empty. split.
  - intros authors_text Hfirst.
    pose proof (@first_line_spec [] raw (Forall_nil _)) as H.
    fold (splitlines false raw) in H. fold (splitlines true raw) in H.
    destruct (splitlines false raw) as [|a rest]; [discriminate Hfirst|].
    injection Hfirst as ->. exact H.
  - intros Hlen. apply Forall2_length in Hends.
    destruct (splitlines true raw) as [|k [|k2 ks]]; try reflexivity.
    cbn [length] in Hends. lia.
Qed.

Lemma process_description_keeps_rest_witness :
  let raw := py "bux578" ++ [CR; NL] ++ py "Does a thing." ++ [NL] in
  exists description_text e,
    process_description raw (imported_world scenario_header)
    = (Ok description_text, imported_world scenario_header)
    /\ raw = py "bux578" ++ e ++ description_text.
Proof.
  intros raw.
  destruct (process_description_keeps_rest raw (imported_world scenario_header))
    as [d [Hrun [H _]]].
  destruct (H (py "bux578")) as [_ [e [_ Hraw]]].
  - reflexivity.
  - exists d, e. split; [exact Hrun | exact Hraw].
Defined.

(** ** Invariants along the parsing functions *)

Section Respects.

Variable relpath : str -> str -> str.
Variable I : World -> Prop.
Variable allowed : exn -> Prop.

Hypothesis H_modify : forall f, gentle f -> respects I allowed (modify_self f).
Hypothesis H_feedback :
  forall message level, (1 <= level <= 3)%Z ->
    respects I allowed (feedback relpath message level).
Hypothesis H_get_section :
  forall name, In name section_names -> respects I allowed (get_section relpath name).
Hypothesis H_unbound : allowed UnboundLocalError.

Lemma respects_ret (A : Type) (a : A) : respects I allowed (ret a).
Proof. intros w Hw. split; [exact Hw | discriminate]. Qed.

Lemma respects_bind (A B : Type) (m : M A) (k : A -> M B) :
  respects I allowed m -> (forall a, respects I allowed (k a)) ->
  respects I allowed (bind m k).
Proof.
  intros Hm Hk w Hw. unfold bind. destruct (Hm w Hw) as [H1 H2].
  destruct (m w) as [[a | e] w1]; cbn [fst snd] in *.
  - apply Hk. exact H1.
  - split; [exact H1|]. intros e' E. apply H2. injection E as <-. reflexivity.
Qed.

Lemma respects_get_self : respects I allowed get_self.
Proof. intros w Hw. split; [exact Hw | discriminate]. Qed.

Lemma respects_when_nonempty (raw : str) (m : M unit) :
  (raw <> [] -> respects I allowed m) ->
  respects I allowed (when (negb (is_empty raw)) m).
Proof.
  intros H. destruct raw; [apply respects_ret|]. apply H. discriminate.
Qed.

Lemma gentle_setters :
  (forall v, gentle (set_public v)) /\ (forall v, gentle (set_authors v))
  /\ (forall v, gentle (set_description v)) /\ (forall v, gentle (set_arguments v))
  /\ (forall v, gentle (set_return_value v)) /\ (forall v, gentle (set_example v)).
Proof. repeat split. Qed.

Ltac respects_step :=
  first
    [ apply H_feedback; lia
    | apply H_modify; apply gentle_setters
    | apply H_get_section; cbn [section_names In]; tauto
    | apply respects_ret
    | apply respects_get_self
    | match goal with
      | |- respects _ _ (if ?c then _ else _) => destruct c
      | |- respects _ _ (match ?x with Some _ => _ | None => _ end) => destruct x
      end
    | apply respects_bind; [|intros ?; cbv beta] ].

Lemma respects_process_public (raw : str) : respects I allowed (process_public relpath raw).
Proof. unfold process_public. repeat respects_step. Qed.

Lemma respects_process_author (raw : str) :
  raw <> [] -> respects I allowed (process_author raw).
Proof.
  intros Hne w Hw. destruct (process_author_run w Hne) as [t [_ Hrun]].
  rewrite Hrun. split; [exact Hw | discriminate].
Qed.

Lemma respects_process_description (raw : str) :
  respects I allowed (process_description raw).
Proof. unfold process_description. apply respects_ret. Qed.

Lemma respects_process_argument_line (argument : str) (arguments : list Argument) :
  respects I allowed (process_argument_line relpath argument arguments).
Proof. unfold process_argument_line. repeat respects_step. Qed.

Lemma respects_process_argument_lines (lines : list str) (arguments : list Argument) :
  respects I allowed (process_argument_lines relpath lines arguments).
Proof.
  revert arguments. induction lines as [|l ls IH]; intros arguments;
    cbn [process_argument_lines].
  - apply respects_ret.
  - apply respects_bind; [apply respects_process_argument_line | intros a; apply IH].
Qed.

Lemma py_nth_last (A : Type) (l : list A) :
  l <> [] -> exists a, py_nth l (-1) = Some a.
Proof.
  intros H. unfold py_nth. cbn [Z.leb Z.compare].
  assert (Hn : (0 <=? Z.of_nat (length l) + -1)%Z = true).
  { apply Z.leb_le. destruct l; [contradiction|]. cbn [length]. lia. }
  rewrite Hn.
  destruct (nth_error l (Z.to_nat (Z.of_nat (length l) + -1))) as [a|] eqn:E;
    [exists a; reflexivity|].
  apply nth_error_None in E. destruct l; [contradiction|]. cbn [length] in E. lia.
Qed.

Lemma respects_process_arguments (raw : str) :
  raw <> [] -> respects I allowed (process_arguments relpath raw).
Proof.
  intros Hne. pose proof (splitlines_nonempty false Hne) as Hl.
  unfold process_arguments.
  destruct (splitlines false raw) as [|first rest] eqn:E; [contradiction|].
  unfold subscript at 1. cbn [py_nth Z.leb Z.compare Z.to_nat nth_error].
  apply respects_bind; [apply respects_ret|]. intros f.
  destruct (str_eqb f (py "None")); [apply respects_ret|].
  destruct (count_empty (first :: rest) =? length (first :: rest));
    [repeat respects_step|].
  destruct (@py_nth_last _ (first :: rest)) as [final Hfinal]; [discriminate|].
  unfold subscript. rewrite Hfinal.
  apply respects_bind; [apply respects_ret|]. intros f2.
  apply respects_bind; [repeat respects_step|].
  intros ls. apply respects_process_argument_lines.
Qed.

Lemma respects_process_return_value (raw : str) :
  respects I allowed (process_return_value relpath raw).
Proof.
  unfold process_return_value.
  destruct (str_eqb _ _); [apply respects_ret|].
  destruct (re_match no_flags return_re (strip raw)); [apply respects_ret|].
  apply respects_bind; [apply H_feedback; lia|].
  intros _ w Hw. split; [exact Hw|]. intros e E. injection E as <-. exact H_unbound.
Qed.

(** What [process_header] does once the sections are stored. *)
Lemma respects_process_header (debug_arg : bool) (w : World) :
  I (start_header debug_arg w) ->
  I (snd (process_header relpath debug_arg w))
  /\ forall e, fst (process_header relpath debug_arg w) = Raise e -> allowed e.
Proof.
  rewrite process_header_start.
  match goal with
  | |- _ -> I (snd (?b _)) /\ _ => assert (Hb : respects I allowed b)
  end.
  { repeat first
      [ apply respects_when_nonempty; intros ?
      | apply respects_process_public
      | apply respects_process_author; assumption
      | apply respects_process_description
      | apply respects_process_arguments; assumption
      | apply respects_process_return_value
      | respects_step ]. }
  intros Hw. exact (Hb _ Hw).
Qed.

End Respects.

(** ** Lookups never run past the sections of a stored header *)

Lemma list_index_skip_none (name y : str) (l : list str) :
  str_eqb y name = false -> list_index name l = None -> list_index name (y :: l) = None.
Proof. intros H1 H2. cbn [list_index]. rewrite H1, H2. reflexivity. Qed.

Lemma lookup_pieces (secs : list authored) (p name : str) :
  In name section_names ->
  well_formed_sections secs = true ->
  secs = [] \/ tail_ok p = true ->
  tail_ok (last (pieces p secs) []) = true ->
  list_index name (pieces p secs) = None
  \/ exists body, section_body name (pieces p secs) = Some body.
Proof.
  intros Hname. revert p. induction secs as [|a rest IH]; intros p Hwf Hp Hlast.
  - left. cbn [pieces last] in Hlast |- *. cbn [list_index].
    rewrite (tail_ok_not_name _ Hlast Hname). reflexivity.
  - destruct Hp as [Hp | Hp]; [discriminate Hp|].
    pose proof (tail_ok_not_name _ Hp Hname) as Hpn.
    cbn [well_formed_sections] in Hwf.
    apply andb_true_iff in Hwf. destruct Hwf as [Hwf Hrest].
    apply andb_true_iff in Hwf. destruct Hwf as [_ Hend].
    cbn [pieces]. destruct (pieces_head (raw_body a) rest) as [l Hl].
    destruct (str_eqb (a_name a) name) eqn:E.
    + right. apply str_eqb_eq in E. rewrite E, Hl.
      exists (raw_body a). rewrite section_body_skip by exact Hpn.
      apply section_body_hit.
    + destruct (IH (raw_body a)) as [Hnone | [body Hbody]].
      * exact Hrest.
      * apply orb_true_iff in Hend. destruct Hend as [He | He].
        -- left. exact (is_empty_true _ He).
        -- right. apply ends_line_tail_ok. apply raw_body_ends_line. exact He.
      * cbn [pieces] in Hlast. rewrite Hl in Hlast |- *. exact Hlast.
      * left. apply list_index_skip_none; [exact Hpn|].
        apply list_index_skip_none; assumption.
      * right. exists body. rewrite !section_body_skip by assumption. exact Hbody.
Qed.

Lemma stored_sections_good (h : str) :
  endswith (py "*/") h = true ->
  good_sections (split_sections (normalize_header h)).
Proof.
  intros Hend name Hname.
  destruct (author_spec (normalize_header h)) as [Htext Hwf].
  set (pre := fst (author (normalize_header h))) in *.
  set (secs := snd (author (normalize_header h))) in *.
  rewrite Htext, (split_sections_render _ _ Hwf).
  apply lookup_pieces.
  - exact Hname.
  - exact (well_formed_sections_of _ _ Hwf).
  - exact (well_formed_pre_tail _ _ Hwf).
  - destruct (pieces_last_suffix secs pre) as [u Hu].
    apply (tail_ok_suffix u). rewrite <- Hu.
    change (pre ++ concat (map render_section secs)) with (render pre secs).
    rewrite <- Htext. apply normalize_header_tail. exact Hend.
Qed.

Lemma get_section_good (relpath : str -> str -> str) (name : str) :
  In name section_names ->
  respects (fun w => good_sections (sections (self w)))
    (fun e => e = UnboundLocalError) (get_section relpath name).
Proof.
  intros Hname w Hw. destruct (Hw name Hname) as [Hnone | [body Hbody]].
  - unfold get_section, bind, get_self. rewrite Hnone.
    destruct (@feedback_spec relpath
                (py "Missing " ++ quoted name ++ py " header section") 2 w)
      as [b [pre [label [Hf _]]]]; [lia|].
    rewrite Hf. cbn [fst snd ret]. split; [|discriminate].
    cbn [self sections set_logged]. exact Hw.
  - rewrite (@get_section_found relpath name body w Hbody).
    split; [exact Hw | discriminate].
Qed.

(** X3: for a header as [import_header] stores it (it ends with "*/"),
    [get_section] returns for each of the five names: either the body that
    follows the name among the sections, with nothing reported, or the empty
    text after the one Error "Missing "<name>" header section".  It never
    runs past the end of the list. *)
Theorem get_section_returns (relpath : str -> str -> str) (debug_arg : bool)
    (w : World) (name : str) :
  endswith (py "*/") (header (self w)) = true ->
  In name section_names ->
  let w1 := start_header debug_arg w in
  (exists body,
      section_body name (sections (self w1)) = Some body
      /\ get_section relpath name w1 = (Ok body, w1))
  \/ (list_index name (sections (self w1)) = None
      /\ exists w',
           get_section relpath name w1 = (Ok [], w')
           /\ diagnostics w'
              = diagnostics w
                  ++ [(Error, py "Missing " ++ quoted name ++ py " header section")]).
Proof.
  intros Hend Hname w1.
  destruct (@stored_sections_good (header (self w)) Hend name Hname) as [Hnone | [body Hbody]].
  - right. split; [exact Hnone|].
    unfold get_section, bind, get_self.
    change (sections (self w1)) with (split_sections (normalize_header (header (self w)))).
    rewrite Hnone. run_feedback. eexists. split; reflexivity.
  - left. exists body. split; [exact Hbody|]. apply get_section_found. exact Hbody.
Qed.

Lemma get_section_returns_witness :
  let relpath := fun (p _ : str) => p in
  let w1 := start_header false (imported_world private_header) in
  get_section relpath (py "Public") w1 = (Ok (py "No" ++ [NL]), w1).
Proof.
  intros relpath w1.
  destruct (@get_section_returns relpath false
              (imported_world private_header) (py "Public"))
    as [[body [Hbody Hrun]] | [Hnone _]].
  - reflexivity.
  - cbn [section_names In]. tauto.
  - fold w1 in Hrun, Hbody. rewrite Hrun. vm_compute in Hbody.
    injection Hbody as <-. reflexivity.
  - vm_compute in Hnone. discriminate Hnone.
Defined.

(** X4: for a header as [import_header] stores it, the only exception
    [process_header] can raise is the [UnboundLocalError] of a malformed
    return value: no lookup of a section and no parser of a field runs out
    of bounds. *)
Theorem process_header_raises_only_unbound (relpath : str -> str -> str)
    (debug_arg : bool) (w : World) (e : exn) :
  endswith (py "*/") (header (self w)) = true ->
  fst (process_header relpath debug_arg w) = Raise e ->
  e = UnboundLocalError.
Proof.
  intros Hend.
  apply (@respects_process_header relpath
           (fun w => good_sections (sections (self w))) (fun e => e = UnboundLocalError)).
  - intros f Hf w0 Hw0. split; [|discriminate].
    cbn [modify_self snd self]. destruct (Hf (self w0)) as [Hs _]. rewrite Hs. exact Hw0.
  - intros message level Hl w0 Hw0.
    destruct (@feedback_spec relpath message level w0) as [b [pre [label [Hf _]]]]; [lia|].
    rewrite Hf. split; [exact Hw0 | discriminate].
  - intros name. apply get_section_good.
  - reflexivity.
  - cbn [start_header self sections set_sections]. apply stored_sections_good. exact Hend.
Qed.

Lemma process_header_raises_only_unbound_witness :
  let relpath := fun (p _ : str) => p in
  fst (process_header relpath false
         (imported_world malformed_return_header))
  = Raise UnboundLocalError.
Proof.
  intros relpath.
  destruct (fst (process_header relpath false
                   (imported_world malformed_return_header)))
    as [[]|e] eqn:E.
  - vm_compute in E. discriminate E.
  - f_equal.
    apply (@process_header_raises_only_unbound relpath false
             (imported_world malformed_return_header) e).
    + reflexivity.
    + exact E.
Defined.

(** ** What is printed and what is written *)

(** A call of [feedback] in full: the heading with the path goes first when
    the file is not yet announced and the call is an error or debug mode is
    off. *)
Lemma feedback_exact (relpath : str -> str -> str) (message : str) (level : Z) (w : World) :
  (0 <= level <= 3)%Z ->
  exists label,
    py_nth priority_labels level = Some label
    /\ feedback relpath message level w
       = (Ok tt,
          if (negb (debug (self w)) || (0 <? level)%Z) && negb (logged (self w))
          then mkWorld (set_logged true (self w))
                 (stdout w
                    ++ [py "  Processing... " ++ relpath (path (self w)) (directory (self w));
                        py "    " ++ label ++ py ": " ++ message])
                 (files w) (diagnostics w ++ [(level, message)])
          else mkWorld (self w)
                 (stdout w ++ [py "    " ++ label ++ py ": " ++ message])
                 (files w) (diagnostics w ++ [(level, message)])).
Proof.
  intros H. destruct (priority_label_ok H) as [label [Hl _]].
  exists label. split; [exact Hl|].
  unfold feedback, subscript. rewrite Hl.
  unfold log_file, get_self, bind, write, print, modify_self, note_diagnostic, ret; simpl.
  destruct (negb (debug (self w)) || (0 <? level)%Z); simpl.
  - destruct (logged (self w)); simpl; [reflexivity|].
    rewrite <- app_assoc. reflexivity.
  - reflexivity.
Qed.

Lemma account_refl (heading : str) (w : World) : account heading w w.
Proof. exists []. rewrite !app_nil_r. repeat split. Qed.

Lemma account_same (heading : str) (w0 w w' : World) :
  stdout w' = stdout w -> diagnostics w' = diagnostics w ->
  logged (self w') = logged (self w) ->
  account heading w0 w -> account heading w0 w'.
Proof.
  intros Ho Hd Hl [ds H]. exists ds. rewrite Ho, Hd, Hl. exact H.
Qed.

Lemma reporting_same (relpath : str -> str -> str) (debug_arg : bool) (heading : str)
    (w0 w w' : World) :
  stdout w' = stdout w -> diagnostics w' = diagnostics w ->
  logged (self w') = logged (self w) -> debug (self w') = debug (self w) ->
  path (self w') = path (self w) -> directory (self w') = directory (self w) ->
  reporting relpath debug_arg heading w0 w -> reporting relpath debug_arg heading w0 w'.
Proof.
  intros Ho Hd Hl Hg Hp Hdir [Hdebug [Hh Ha]]. split; [congruence|]. split.
  - unfold announcement. rewrite Hp, Hdir. exact Hh.
  - exact (@account_same _ w0 w w' Ho Hd Hl Ha).
Qed.

(** A call of [feedback] that announces the file if need be: an error, or
    any call when debug mode is off. *)
Lemma reporting_feedback (relpath : str -> str -> str) (debug_arg : bool)
    (heading message : str) (level : Z) (w0 w : World) :
  (0 <= level <= 3)%Z ->
  debug_arg = false \/ (1 <= level)%Z ->
  reporting relpath debug_arg heading w0 w ->
  fst (feedback relpath message level w) = Ok tt
  /\ files (snd (feedback relpath message level w)) = files w
  /\ reporting relpath debug_arg heading w0 (snd (feedback relpath message level w)).
Proof.
  intros Hlevel Hloud [Hdebug [Hh [ds [Hd Hm]]]].
  destruct (@feedback_exact relpath message level w Hlevel) as [label [Hlabel Hf]].
  assert (Htext : report_text (level, message) = py "    " ++ label ++ py ": " ++ message).
  { unfold report_text. cbn [fst snd]. rewrite Hlabel. reflexivity. }
  rewrite Hf. split; [reflexivity|]. cbn [snd].
  assert (Hc : negb (debug (self w)) || (0 <? level)%Z = true).
  { rewrite Hdebug. destruct Hloud as [-> | Hl]; [reflexivity|].
    apply orb_true_iff. right. apply Z.ltb_lt. lia. }
  rewrite Hc. cbn [andb]. rewrite <- Htext.
  destruct (logged (self w)) eqn:L; cbn [negb].
  - split; [reflexivity|]. split; [exact Hdebug|]. split; [exact Hh|].
    exists (ds ++ [(level, message)]).
    cbn [stdout diagnostics self]. rewrite Hd, <- !app_assoc.
    split; [reflexivity|].
    destruct ds as [|d ds]; cbn [app].
    + destruct Hm as [Ho Hl]. split; [exact L|]. rewrite Ho, <- Hl. reflexivity.
    + destruct Hm as [_ Ho]. split; [exact L|].
      rewrite Ho. change (d :: ds ++ [(level, message)]) with ((d :: ds) ++ [(level, message)]).
      rewrite map_app, <- !app_assoc. reflexivity.
  - split; [reflexivity|]. split; [exact Hdebug|]. split; [exact Hh|].
    destruct ds as [|d ds]; [|destruct Hm as [Hm _]; discriminate Hm].
    destruct Hm as [Ho Hl].
    exists [(level, message)].
    cbn [stdout diagnostics self logged set_logged]. rewrite Hd, Ho, !app_nil_r.
    split; [reflexivity|]. split; [reflexivity|].
    rewrite <- Hl, <- Hh. reflexivity.
Qed.

Lemma reporting_modify (relpath : str -> str -> str) (debug_arg : bool) (heading : str)
    (w0 : World) (f : FunctionFile -> FunctionFile) :
  gentle f ->
  respects (reporting relpath debug_arg heading w0) (fun _ => True) (modify_self f).
Proof.
  intros Hf w Hw. split; [|intros; exact Logic.I].
  destruct (Hf (self w)) as [_ [Hl [Hd [Hp Hdir]]]].
  apply (@reporting_same relpath debug_arg heading w0 w); try assumption; reflexivity.
Qed.

Lemma reporting_feedback_respects (relpath : str -> str -> str) (debug_arg : bool)
    (heading : str) (w0 : World) (message : str) (level : Z) :
  (1 <= level <= 3)%Z ->
  respects (reporting relpath debug_arg heading w0) (fun _ => True)
    (feedback relpath message level).
Proof.
  intros H w Hw. split; [|intros; exact Logic.I].
  apply reporting_feedback; [lia | right; lia | exact Hw].
Qed.

Lemma reporting_get_section (relpath : str -> str -> str) (debug_arg : bool)
    (heading : str) (w0 : World) (name : str) :
  respects (reporting relpath debug_arg heading w0) (fun _ => True)
    (get_section relpath name).
Proof.
  intros w Hw. split; [|intros; exact Logic.I].
  unfold get_section, bind, get_self.
  destruct (list_index name (sections (self w))) as [i|].
  - unfold subscript. destruct (py_nth _ _); exact Hw.
  - destruct (@reporting_feedback relpath debug_arg heading
                (py "Missing " ++ quoted name ++ py " header section") 2 w0 w)
      as [Hok [_ Ht]]; [lia | right; lia | exact Hw |].
    destruct (feedback relpath _ 2 w) as [r w1]. cbn [fst snd] in *. subst r.
    cbn [ret snd]. exact Ht.
Qed.

Lemma reporting_process_header (relpath : str -> str -> str) (debug_arg old : bool)
    (heading : str) (w0 w : World) :
  reporting relpath old heading w0 w ->
  reporting relpath debug_arg heading w0 (snd (process_header relpath debug_arg w)).
Proof.
  intros [_ [Hh Hw]].
  apply (@respects_process_header relpath (reporting relpath debug_arg heading w0)
           (fun _ => True)).
  - intros f Hf. apply reporting_modify. exact Hf.
  - intros message level Hl. apply reporting_feedback_respects. exact Hl.
  - intros name _. apply reporting_get_section.
  - exact Logic.I.
  - split; [reflexivity|]. split; [exact Hh|]. exact Hw.
Qed.

(** [import_header] leaves the object with the path of the file, and with
    the one report "Missing header" if the text does not start with a
    comment. *)
Lemma reporting_import_header (relpath : str -> str -> str) (file_path code : str)
    (w : World) (from : str) :
  debug (self w) = false ->
  directory (self w) = from ->
  let w' := snd (import_header relpath file_path code w) in
  fst (import_header relpath file_path code w) = Ok tt
  /\ files w' = files w
  /\ reporting relpath false
       (py "  Processing... " ++ relpath file_path from) w w'.
Proof.
  intros Hdebug Hfrom.
  set (w1 := mkWorld (set_path file_path (self w)) (stdout w) (files w) (diagnostics w)).
  assert (E : import_header relpath file_path code w
              = match re_match header_flags header_re code with
                | Some m => modify_self (set_header (m_whole m)) w1
                | None => feedback relpath (py "Missing header") 3 w1
                end).
  { unfold import_header. unfold bind at 1. unfold modify_self at 1.
    destruct (re_match header_flags header_re code); reflexivity. }
  rewrite E. clear E.
  assert (H1 : reporting relpath false
                 (py "  Processing... " ++ relpath file_path from) w w1).
  { split; [exact Hdebug|]. split; [rewrite <- Hfrom; reflexivity|].
    exists []. rewrite !app_nil_r. repeat split. }
  destruct (re_match header_flags header_re code) as [m|].
  - cbn [modify_self fst snd self files w1].
    split; [reflexivity|]. split; [reflexivity|].
    revert H1. apply reporting_same; reflexivity.
  - destruct (@reporting_feedback relpath false
                (py "  Processing... " ++ relpath file_path from)
                (py "Missing header") 3 w w1)
      as [Hok [Hfiles Hr]]; [lia | left; reflexivity | exact H1 |].
    cbv zeta. split; [exact Hok|]. split; [exact Hfiles | exact Hr].
Qed.

(** The writes of a loop over [file.write] calls. *)
Lemma fold_file_write (A : Type) (f : A -> str) (output : str) (l : list A) (w : World) :
  fold_right (fun x rest => file_write output (f x) ;;; rest) (ret tt) l w
  = (Ok tt,
     mkWorld (self w) (stdout w) (files w ++ map (fun x => (output, f x)) l)
       (diagnostics w)).
Proof.
  revert w. induction l as [|x l IH]; intros w.
  - cbn. rewrite app_nil_r. destruct w; reflexivity.
  - cbn [fold_right map]. unfold bind at 1. unfold file_write at 1.
    rewrite IH. cbn [self stdout files diagnostics]. rewrite <- app_assoc. reflexivity.
Qed.

(** ** Rendering *)

Lemma document_function_run (w : World) :
  let function := self w in
  let output := output_of function in
  let wrote chunks :=
    mkWorld (self w) (stdout w)
      (files w ++ map (fun chunk => (output, chunk)) chunks) (diagnostics w) in
  let before :=
    heading_of function
      :: (py "__Description__" ++ [NL; NL] ++ description function)
      :: (py "__Parameters__" ++ [NL; NL]
            ++ py "Index | Description | Datatype(s) | Default Value" ++ [NL]
            ++ py "--- | --- | --- | ---" ++ [NL])
      :: map format_argument (arguments function) ++ [[NL]] in
  document_function w
  = match return_value function with
    | return_name :: return_types :: _ =>
        (Ok tt,
         wrote (before
                  ++ [py "__Return Value__" ++ [NL; NL] ++ py "Description | Datatype(s)"
                        ++ [NL] ++ py "--- | ---" ++ [NL] ++ return_name ++ py " | "
                        ++ return_types ++ [NL; NL];
                      py "__Example__" ++ [NL; NL] ++ py "```" ++ [NL]
                        ++ example function ++ [NL] ++ py "```" ++ [NL];
                      [NL] ++ py "__Authors__" ++ [NL; NL]]
                  ++ map (fun author => py "- " ++ author ++ [NL]) (authors function)
                  ++ [[NL] ++ py "---" ++ [NL]]))
    | _ => (Raise IndexError, wrote before)
    end.
Proof.
  intros function output wrote before. unfold document_function.
  unfold bind at 1. unfold get_self at 1. cbv beta iota zeta.
  fold function. fold (output_of function). fold output. fold (heading_of function).
  do 3 (unfold bind at 1; unfold file_write at 1; cbv beta iota;
        cbn [self stdout files diagnostics]).
  unfold bind at 1. rewrite fold_file_write. cbn [self stdout files diagnostics].
  unfold bind at 1; unfold file_write at 1; cbv beta iota;
    cbn [self stdout files diagnostics].
  assert (Hfiles : forall (r : result unit) fs fs',
            fs = fs' ->
            (r, mkWorld (self w) (stdout w) fs (diagnostics w))
            = (r, mkWorld (self w) (stdout w) fs' (diagnostics w)))
    by (intros r fs fs' ->; reflexivity).
  unfold bind at 1. unfold subscript at 1.
  destruct (return_value function) as [|return_name [|return_types rest]].
  - cbn [py_nth Z.leb Z.compare Z.to_nat nth_error ret].
    unfold wrote, before. apply Hfiles.
    repeat (progress (cbn [map]; rewrite ?map_app, ?map_map)).
    repeat (rewrite <- app_assoc || rewrite <- app_comm_cons || rewrite app_nil_l).
    reflexivity.
  - cbn [py_nth Z.leb Z.compare Z.to_nat nth_error ret].
    unfold bind at 1. unfold subscript at 1.
    cbn [py_nth Z.leb Z.compare Z.to_nat].
    change (nth_error [return_name] (Pos.to_nat 1)) with (@None str).
    unfold wrote, before. apply Hfiles.
    repeat (progress (cbn [map]; rewrite ?map_app, ?map_map)).
    repeat (rewrite <- app_assoc || rewrite <- app_comm_cons || rewrite app_nil_l).
    reflexivity.
  - cbn [py_nth Z.leb Z.compare Z.to_nat nth_error ret].
    unfold bind at 1. unfold subscript at 1.
    cbn [py_nth Z.leb Z.compare Z.to_nat].
    change (nth_error (return_name :: return_types :: rest) (Pos.to_nat 1))
      with (Some return_types).
    cbn [ret].
    do 3 (unfold bind at 1; unfold file_write at 1; cbv beta iota;
          cbn [self stdout files diagnostics]).
    unfold bind at 1. rewrite fold_file_write. cbn [self stdout files diagnostics].
    unfold file_write. cbn [self stdout files diagnostics].
    unfold wrote, before. apply Hfiles.
    repeat (progress (cbn [map]; rewrite ?map_app, ?map_map)).
    repeat (rewrite <- app_assoc || rewrite <- app_comm_cons || rewrite app_nil_l).
    reflexivity.
Qed.

(** X12: [document_function] touches nothing but the one output file, and starts
    the fragment with the heading.  With fewer than two entries in
    [return_value] - as for a public header without a Return Value section,
    where the list is still empty - it raises [IndexError] when heading,
    description and parameter table are already written; otherwise it
    returns, having written the whole fragment. *)
Theorem document_function_outcome (w : World) :
  let function := self w in
  exists chunks,
    snd (document_function w)
    = mkWorld (self w) (stdout w)
        (files w ++ map (fun chunk => (output_of function, chunk)) chunks)
        (diagnostics w)
    /\ hd [] chunks = heading_of function
    /\ (length (return_value function) < 2 ->
        fst (document_function w) = Raise IndexError
        /\ length chunks = 4 + length (arguments function))
    /\ (2 <= length (return_value function) ->
        fst (document_function w) = Ok tt
        /\ length chunks
           = 8 + length (arguments function) + length (authors function)).
Proof.
  intros function. rewrite document_function_run. fold function.
  destruct (return_value function) as [|return_name [|return_types rest]];
    cbv zeta; eexists; (split; [reflexivity|]); (split; [reflexivity|]);
    cbn [fst]; repeat (rewrite ?length_app, ?length_map; cbn [length]);
    (split; intros H; [|]).
  all: cbn [length] in H.
  all: try lia.
  all: split; [reflexivity|].
  all: rewrite ?Nat.add_1_r; cbn [Nat.add]; try reflexivity.
  rewrite <- !plus_n_Sm. reflexivity.
Qed.

(** ** The crawl *)

Lemma crawl_file_reporting (relpath : str -> str -> str) (directory : str)
    (debug_arg : bool) (file_path code : str) (w : World) :
  exists mode,
    reporting relpath mode (py "  Processing... " ++ relpath file_path directory)
      (mkWorld (init directory) (stdout w) (files w) (diagnostics w))
      (snd (crawl_file relpath directory debug_arg file_path code w)).
Proof.
  unfold crawl_file. unfold bind at 1. unfold modify_self at 1.
  set (w0 := mkWorld (init directory) (stdout w) (files w) (diagnostics w)).
  unfold bind at 1.
  destruct (@reporting_import_header relpath file_path code w0 directory)
    as [Hok [_ Hr]]; [reflexivity | reflexivity |].
  cbv zeta in Hr.
  destruct (import_header relpath file_path code w0) as [r w2].
  cbn [fst snd] in Hok, Hr. subst r.
  unfold bind at 1. unfold get_self at 1.
  destruct (has_header (self w2)); [|exists false; exact Hr].
  unfold bind at 1.
  pose proof (@reporting_process_header relpath debug_arg false _ w0 w2 Hr) as Hp.
  destruct (process_header relpath debug_arg w2) as [[[]|e] w3]; cbn [snd] in Hp;
    [|exists debug_arg; exact Hp].
  unfold bind at 1. unfold get_self at 1.
  destruct (is_public (self w3) && negb debug_arg) eqn:Eb; [|exists debug_arg; exact Hp].
  apply andb_true_iff in Eb. destruct Eb as [_ Eb]. apply negb_true_iff in Eb. subst debug_arg.
  exists false. unfold bind at 1.
  pose proof (document_function_run w3) as Hrun. cbv zeta in Hrun. rewrite Hrun.
  destruct (return_value (self w3)) as [|return_name [|return_types rest]];
    try (cbn [snd]; revert Hp; apply reporting_same; reflexivity).
  match goal with
  | |- reporting _ _ _ _ (snd (feedback _ _ _ ?w4)) =>
      apply (@reporting_feedback relpath false _ (py "Publicly documented") default_level
               w0 w4); [unfold default_level; lia | left; reflexivity |]
  end.
  revert Hp. apply reporting_same; reflexivity.
Qed.

(** X14: what one function file adds to the output of the crawl, whatever
    the outcome.  Nothing, if no call of [feedback] was made for it;
    otherwise [print] is called once with the text that announces its path
    relative to the directory, and then once for each call of [feedback],
    in their order, with the text "    <Label>: <message>".  (A message
    that quotes a section body of several lines is one text, and shows as
    several lines.) *)
Theorem crawl_file_prints (relpath : str -> str -> str) (directory : str)
    (debug_arg : bool) (file_path code : str) (w : World) :
  file_path <> [] ->
  let w' := snd (crawl_file relpath directory debug_arg file_path code w) in
  exists ds,
    diagnostics w' = diagnostics w ++ ds
    /\ stdout w'
       = stdout w
           ++ match ds with
              | [] => []
              | _ :: _ =>
                  (py "  Processing... " ++ relpath file_path directory)
                    :: map report_text ds
              end.
Proof.
  intros _ w'.
  destruct (@crawl_file_reporting relpath directory debug_arg file_path code w)
    as [mode [_ [_ [ds [Hd Hm]]]]].
  fold w' in Hd, Hm. exists ds. split; [exact Hd|].
  destruct ds as [|d ds].
  - destruct Hm as [Ho _]. rewrite Ho, app_nil_r. reflexivity.
  - destruct Hm as [_ Ho]. exact Ho.
Qed.

Lemma crawl_file_prints_witness :
  let relpath := fun (p _ : str) => p in
  let code := join [NL] [py "/*"; py " * Public: Maybe"; py " * or not"; py " */"] in
  stdout (snd (crawl_file relpath (py "/addons") false
                 (py "/addons/main/functions/fnc_a.sqf") code
                 (fresh_world (py "/addons"))))
  = [py "  Processing... /addons/main/functions/fnc_a.sqf";
     py "    Error: Invalid public value "
       ++ quoted (py "Maybe" ++ [NL] ++ py "or not")].
Proof.
  intros relpath code.
  destruct (@crawl_file_prints relpath (py "/addons") false
              (py "/addons/main/functions/fnc_a.sqf") code (fresh_world (py "/addons")))
    as [ds [Hd Ho]].
  - discriminate.
  - rewrite Ho. vm_compute in Hd. subst ds. reflexivity.
Defined.

Lemma parsing_refl (w : World) : parsing w w.
Proof. split; [reflexivity|]. exists []. rewrite app_nil_r. split; [reflexivity | constructor]. Qed.

Lemma parsing_trans (w1 w2 w3 : World) : parsing w1 w2 -> parsing w2 w3 -> parsing w1 w3.
Proof.
  intros [Hf1 [d1 [Hd1 Hl1]]] [Hf2 [d2 [Hd2 Hl2]]]. split; [congruence|].
  exists (d1 ++ d2). rewrite Hd2, Hd1, app_assoc. split; [reflexivity|].
  apply Forall_app. split; assumption.
Qed.

Lemma parsing_same (w0 w w' : World) :
  files w' = files w -> diagnostics w' = diagnostics w -> parsing w0 w -> parsing w0 w'.
Proof. intros Hf Hd [H1 H2]. split; [congruence|]. rewrite Hd. exact H2. Qed.

Lemma parsing_feedback (relpath : str -> str -> str) (w0 : World) (message : str)
    (level : Z) :
  (1 <= level <= 3)%Z ->
  respects (parsing w0) (fun _ => True) (feedback relpath message level).
Proof.
  intros H w Hw. split; [|intros; exact Logic.I]. apply (parsing_trans Hw).
  destruct (@feedback_exact relpath message level w) as [label [_ Hf]]; [lia|].
  rewrite Hf. cbn [snd].
  destruct (_ && _); (split; [reflexivity|]); exists [(level, message)];
    (split; [reflexivity|]); constructor; [exact H | constructor | exact H | constructor].
Qed.

Lemma parsing_modify (w0 : World) (f : FunctionFile -> FunctionFile) :
  respects (parsing w0) (fun _ => True) (modify_self f).
Proof.
  intros w Hw. split; [|intros; exact Logic.I]. revert Hw. apply parsing_same; reflexivity.
Qed.

Lemma parsing_get_section (relpath : str -> str -> str) (w0 : World) (name : str) :
  respects (parsing w0) (fun _ => True) (get_section relpath name).
Proof.
  unfold get_section. intros w Hw. split; [|intros; exact Logic.I].
  unfold bind at 1. unfold get_self at 1.
  destruct (list_index name (sections (self w))) as [i|].
  - unfold subscript. destruct (py_nth _ _); exact Hw.
  - unfold bind.
    destruct (@parsing_feedback relpath w0
                (py "Missing " ++ quoted name ++ py " header section") 2
                ltac:(lia) w Hw) as [Hp _].
    destruct (feedback relpath _ 2 w) as [[[]|e] w1]; exact Hp.
Qed.

(** The two parsing steps write no file and report only at the levels
    Warning, Error and Aborted. *)
Lemma parsing_import_header (relpath : str -> str -> str) (file_path code : str)
    (w : World) :
  fst (import_header relpath file_path code w) = Ok tt
  /\ parsing w (snd (import_header relpath file_path code w)).
Proof.
  unfold import_header. unfold bind. unfold modify_self at 1.
  destruct (re_match header_flags header_re code) as [m|].
  - split; [reflexivity|]. cbn [modify_self snd].
    apply (@parsing_same w w); try reflexivity. apply parsing_refl.
  - match goal with
    | |- fst (feedback _ _ _ ?w1) = _ /\ _ =>
        destruct (@feedback_exact relpath (py "Missing header") 3 w1) as [label [_ Hf]];
          [lia|];
        destruct (@parsing_feedback relpath w (py "Missing header") 3 ltac:(lia) w1)
          as [Hp _]; [apply (@parsing_same w w); try reflexivity; apply parsing_refl|]
    end.
    split; [rewrite Hf; reflexivity | exact Hp].
Qed.

Lemma parsing_process_header (relpath : str -> str -> str) (debug_arg : bool) (w : World) :
  parsing w (snd (process_header relpath debug_arg w)).
Proof.
  apply (@respects_process_header relpath (parsing w) (fun _ => True)).
  - intros f _. apply parsing_modify.
  - intros message level Hl. apply parsing_feedback. exact Hl.
  - intros name _. apply parsing_get_section.
  - exact Logic.I.
  - apply (@parsing_same w w); try reflexivity. apply parsing_refl.
Qed.

Lemma crawl_file_debug (relpath : str -> str -> str) (directory : str)
    (file_path code : str) (w : World) :
  parsing w (snd (crawl_file relpath directory true file_path code w)).
Proof.
  unfold crawl_file. unfold bind at 1. unfold modify_self at 1.
  set (w0 := mkWorld (init directory) (stdout w) (files w) (diagnostics w)).
  assert (H0 : parsing w w0) by (apply (@parsing_same w w); try reflexivity; apply parsing_refl).
  unfold bind at 1.
  destruct (@parsing_import_header relpath file_path code w0) as [Hok Hi].
  destruct (import_header relpath file_path code w0) as [r w2].
  cbn [fst snd] in Hok, Hi. subst r.
  pose proof (parsing_trans H0 Hi) as H2.
  unfold bind at 1. unfold get_self at 1.
  destruct (has_header (self w2)); [|exact H2].
  unfold bind at 1.
  pose proof (parsing_trans H2 (@parsing_process_header relpath true w2)) as H3.
  destruct (process_header relpath true w2) as [[[]|e] w3]; cbn [snd] in H3; [|exact H3].
  unfold bind at 1. unfold get_self at 1. rewrite andb_false_r. exact H3.
Qed.

Lemma crawl_files_debug (relpath : str -> str -> str) (directory root : str)
    (files_here : list (str * str)) (w : World) :
  parsing w (snd (crawl_files relpath directory true root files_here w)).
Proof.
  revert w. induction files_here as [|[file code] rest IH]; intros w.
  - apply parsing_refl.
  - cbn [crawl_files]. unfold bind at 1.
    assert (H1 : parsing w
                   (snd ((if endswith (py ".sqf") file && startswith (py "fnc_") file
                          then crawl_file relpath directory true (path_join root file) code
                          else ret tt) w))).
    { destruct (_ && _); [apply crawl_file_debug | apply parsing_refl]. }
    destruct ((if endswith (py ".sqf") file && startswith (py "fnc_") file
               then crawl_file relpath directory true (path_join root file) code
               else ret tt) w) as [[[]|e] w1]; cbn [snd] in H1; [|exact H1].
    exact (parsing_trans H1 (IH w1)).
Qed.

(** X15: in debug mode the crawl only checks: it writes nothing to any file, and
    every call of [feedback] is a Warning, an Error or Aborted - no file is
    reported as "Publicly documented". *)
Theorem crawl_dir_debug_only_checks (relpath : str -> str -> str) (directory : str)
    (walk : list (str * list (str * str))) (w : World) :
  let w' := snd (crawl_dir relpath directory true walk w) in
  files w' = files w
  /\ exists ds,
       diagnostics w' = diagnostics w ++ ds
       /\ Forall (fun d => (Warning <= fst d <= Aborted)%Z) ds.
Proof.
  cbv zeta. change (parsing w (snd (crawl_dir relpath directory true walk w))).
  revert w. induction walk as [|[root files_here] rest IH]; intros w.
  - apply parsing_refl.
  - cbn [crawl_dir]. unfold bind at 1.
    pose proof (@crawl_files_debug relpath directory root files_here w) as H1.
    destruct (crawl_files relpath directory true root files_here w) as [[[]|e] w1];
      cbn [snd] in H1; [|exact H1].
    exact (parsing_trans H1 (IH w1)).
Qed.

Lemma documenting_refl (w : World) : documenting w w.
Proof. exists []. rewrite app_nil_r. split; [reflexivity | constructor]. Qed.

Lemma documenting_trans (w1 w2 w3 : World) :
  documenting w1 w2 -> documenting w2 w3 -> documenting w1 w3.
Proof.
  intros [c1 [Hf1 Hc1]] [c2 [Hf2 Hc2]]. exists (c1 ++ c2).
  rewrite Hf2, Hf1, app_assoc. split; [reflexivity|]. apply Forall_app. split; assumption.
Qed.

Lemma documenting_same (w w' : World) : files w' = files w -> documenting w w'.
Proof. intros H. exists []. rewrite app_nil_r. split; [exact H | constructor]. Qed.

Lemma documenting_document_function (w : World) :
  documenting w (snd (document_function w)).
Proof.
  pose proof (document_function_run w) as Hrun. cbv zeta in Hrun. rewrite Hrun.
  destruct (return_value (self w)) as [|return_name [|return_types rest]]; cbn [snd];
    eexists; (split; [reflexivity|]); apply Forall_forall; intros chunk Hin;
    apply in_map_iff in Hin; destruct Hin as [text [<- _]]; eexists; reflexivity.
Qed.

Lemma documenting_crawl_file (relpath : str -> str -> str) (directory : str)
    (debug_arg : bool) (file_path code : str) (w : World) :
  documenting w (snd (crawl_file relpath directory debug_arg file_path code w)).
Proof.
  unfold crawl_file. unfold bind at 1. unfold modify_self at 1.
  set (w0 := mkWorld (init directory) (stdout w) (files w) (diagnostics w)).
  assert (H0 : files w0 = files w) by reflexivity.
  unfold bind at 1.
  destruct (@parsing_import_header relpath file_path code w0) as [Hok [Hi _]].
  destruct (import_header relpath file_path code w0) as [r w2].
  cbn [fst snd] in Hok, Hi. subst r.
  assert (H2 : documenting w w2) by (apply documenting_same; congruence).
  unfold bind at 1. unfold get_self at 1.
  destruct (has_header (self w2)); [|exact H2].
  unfold bind at 1.
  destruct (@parsing_process_header relpath debug_arg w2) as [Hp _].
  destruct (process_header relpath debug_arg w2) as [[[]|e] w3]; cbn [snd] in Hp |- *;
    [|apply documenting_same; congruence].
  unfold bind at 1. unfold get_self at 1.
  destruct (is_public (self w3) && negb debug_arg);
    [|apply documenting_same; unfold ret; cbn [snd]; congruence].
  unfold bind at 1.
  pose proof (documenting_document_function w3) as Hdoc.
  assert (H3 : documenting w w3) by (apply documenting_same; congruence).
  destruct (document_function w3) as [[[]|e] w4]; cbn [snd] in Hdoc |- *;
    [|exact (documenting_trans H3 Hdoc)].
  apply (documenting_trans H3). apply (documenting_trans Hdoc).
  apply documenting_same.
  destruct (@feedback_exact relpath (py "Publicly documented") default_level w4)
    as [label [_ Hf]]; [unfold default_level; lia|].
  rewrite Hf. destruct (_ && _); reflexivity.
Qed.

Lemma documenting_crawl_files (relpath : str -> str -> str) (directory : str)
    (debug_arg : bool) (root : str) (files_here : list (str * str)) (w : World) :
  documenting w (snd (crawl_files relpath directory debug_arg root files_here w)).
Proof.
  revert w. induction files_here as [|[file code] rest IH]; intros w.
  - apply documenting_refl.
  - cbn [crawl_files]. unfold bind at 1.
    assert (H1 : documenting w
                   (snd ((if endswith (py ".sqf") file && startswith (py "fnc_") file
                          then crawl_file relpath directory debug_arg
                                 (path_join root file) code
                          else ret tt) w))).
    { destruct (_ && _); [apply documenting_crawl_file | apply documenting_refl]. }
    destruct ((if endswith (py ".sqf") file && startswith (py "fnc_") file
               then crawl_file relpath directory debug_arg (path_join root file) code
               else ret tt) w) as [[[]|e] w1]; cbn [snd] in H1; [|exact H1].
    exact (documenting_trans H1 (IH w1)).
Qed.

(** X16: the crawl never removes or rewrites what the files hold and writes
    nowhere but to the wiki: all it does to the files is to append chunks to
    files "../wiki/functions/<component>.md". *)
Theorem crawl_dir_appends_to_wiki (relpath : str -> str -> str) (directory : str)
    (debug_arg : bool) (walk : list (str * list (str * str))) (w : World) :
  exists chunks,
    files (snd (crawl_dir relpath directory debug_arg walk w)) = files w ++ chunks
    /\ Forall (fun chunk =>
                 exists component,
                   fst chunk = py "../wiki/functions/" ++ component ++ py ".md") chunks.
Proof.
  change (documenting w (snd (crawl_dir relpath directory debug_arg walk w))).
  revert w. induction walk as [|[root files_here] rest IH]; intros w.
  - apply documenting_refl.
  - cbn [crawl_dir]. unfold bind at 1.
    pose proof (@documenting_crawl_files relpath directory debug_arg root files_here w)
      as H1.
    destruct (crawl_files relpath directory debug_arg root files_here w)
      as [[[]|e] w1]; cbn [snd] in H1; [|exact H1].
    exact (documenting_trans H1 (IH w1)).
Qed.

(** ** Headers without a Public value *)

(** X6: when the header has no Public section, or one with nothing after the
    name, [process_header] gives up whatever the debug mode: it returns with
    all fields at their defaults, having announced the file and reported
    Aborted "Public value undefined" - after the Error about the missing
    section, if it is missing. *)
Theorem undefined_public_aborts (relpath : str -> str -> str) (debug_arg : bool)
    (d p h : str) (out : list str) (fs : list (str * str)) (ds : list (Z * str)) :
  let w := mkWorld (imported d p h) out fs ds in
  let secs := split_sections (normalize_header h) in
  let missing :=
    match list_index (py "Public") secs with
    | None => [py "Missing " ++ quoted (py "Public") ++ py " header section"]
    | Some _ => []
    end in
  list_index (py "Public") secs = None \/ section_body (py "Public") secs = Some [] ->
  exists w',
    process_header relpath debug_arg w = (Ok tt, w')
    /\ public (self w') = false
    /\ authors (self w') = []
    /\ description (self w') = []
    /\ arguments (self w') = []
    /\ return_value (self w') = []
    /\ example (self w') = []
    /\ files w' = fs
    /\ diagnostics w'
       = ds ++ map (fun message => (Error, message)) missing
            ++ [(Aborted, py "Public value undefined")]
    /\ stdout w'
       = out ++ [py "  Processing... " ++ relpath p d]
           ++ map (fun message => py "    Error: " ++ message) missing
           ++ [py "    Aborted: Public value undefined"].
Proof.
  intros w secs missing H. rewrite process_header_start.
  unfold bind at 1.
  assert (Hsecs : sections (self (start_header debug_arg w)) = secs) by reflexivity.
  destruct H as [Hnone | Hbody].
  - unfold get_section at 1. unfold bind at 1. unfold get_self at 1.
    rewrite Hsecs, Hnone. unfold bind at 1.
    destruct (@feedback_exact relpath
                (py "Missing " ++ quoted (py "Public") ++ py " header section") 2
                (start_header debug_arg w)) as [label [Hlabel Hf]]; [lia|].
    injection Hlabel as <-. rewrite Hf. clear Hf.
    change (logged (self (start_header debug_arg w))) with false.
    rewrite orb_true_r. cbn [andb negb ret is_empty].
    match goal with
    | |- exists w', feedback _ _ _ ?w1 = _ /\ _ =>
        destruct (@feedback_exact relpath (py "Public value undefined") 3 w1)
          as [label [Hlabel Hf]]; [lia|]
    end.
    injection Hlabel as <-. rewrite Hf. clear Hf.
    rewrite orb_true_r. cbn [andb negb self logged set_logged].
    eexists. split; [reflexivity|].
    unfold missing. rewrite Hnone. cbn [map].
    repeat (split; [reflexivity|]). split.
    + cbn [diagnostics]. rewrite <- app_assoc. reflexivity.
    + cbn [stdout]. rewrite <- app_assoc. reflexivity.
  - rewrite (@get_section_found relpath (py "Public") [] (start_header debug_arg w));
      [|rewrite Hsecs; exact Hbody].
    cbn [is_empty].
    destruct (@feedback_exact relpath (py "Public value undefined") 3
                (start_header debug_arg w)) as [label [Hlabel Hf]]; [lia|].
    injection Hlabel as <-. rewrite Hf. clear Hf.
    change (logged (self (start_header debug_arg w))) with false.
    rewrite orb_true_r. cbn [andb negb].
    eexists. split; [reflexivity|].
    unfold missing. unfold section_body in Hbody.
    destruct (list_index (py "Public") secs); [|discriminate Hbody].
    cbn [map]. repeat (split; [reflexivity|]). reflexivity.
Qed.

Lemma undefined_public_aborts_witness :
  let h := join [NL] [py "/*"; py " * Author: commy2"; py " * Public:"; py " */"] in
  exists w',
    process_header (fun p _ => p) true
      (mkWorld (imported (py "/addons") (py "fnc_a.sqf") h) [] [] []) = (Ok tt, w')
    /\ diagnostics w' = [(Aborted, py "Public value undefined")]
    /\ stdout w' = [py "  Processing... fnc_a.sqf"; py "    Aborted: Public value undefined"].
Proof.
  intros h.
  destruct (@undefined_public_aborts (fun p _ => p) true (py "/addons") (py "fnc_a.sqf")
              h [] [] [])
    as [w' [Hrun [_ [_ [_ [_ [_ [_ [_ [Hd Ho]]]]]]]]]].
  - right. reflexivity.
  - exists w'. split; [exact Hrun|]. split; [exact Hd | exact Ho].
Defined.

(** ** The lines of the Arguments section *)

Lemma notes_of_app (l1 l2 : list Argument) :
  notes_of (l1 ++ l2) = notes_of l1 + notes_of l2.
Proof. unfold notes_of. rewrite map_app, concat_app, length_app. reflexivity. Qed.

Lemma append_note_counts (arguments : list Argument) (argument : str) :
  arguments <> [] ->
  length (append_note arguments argument) = length arguments
  /\ notes_of (append_note arguments argument) = S (notes_of arguments).
Proof.
  induction arguments as [|a rest IH]; intros Hne; [contradiction|].
  destruct rest as [|b rest].
  - cbn [append_note length]. split; [reflexivity|].
    unfold notes_of. cbn [map concat arg_notes]. rewrite !app_nil_r, length_app.
    cbn [length]. lia.
  - destruct IH as [IH1 IH2]; [discriminate|].
    change (append_note (a :: b :: rest) argument)
      with (a :: append_note (b :: rest) argument).
    split.
    + cbn [length] in *. rewrite IH1. reflexivity.
    + change (a :: append_note (b :: rest) argument)
        with ([a] ++ append_note (b :: rest) argument).
      change (a :: b :: rest) with ([a] ++ b :: rest).
      rewrite !notes_of_app, IH2. lia.
Qed.

Lemma errors_of_app (d1 d2 : list (Z * str)) :
  errors_of (d1 ++ d2) = errors_of d1 + errors_of d2.
Proof. unfold errors_of. rewrite filter_app, length_app. reflexivity. Qed.

Lemma process_argument_line_accounted (relpath : str -> str -> str) (argument : str)
    (arguments : list Argument) (w : World) :
  exists result w' ds,
    process_argument_line relpath argument arguments w = (Ok result, w')
    /\ diagnostics w' = diagnostics w ++ ds
    /\ S (length arguments + notes_of arguments)
       = length result + notes_of result + errors_of ds.
Proof.
  unfold process_argument_line.
  destruct (re_match no_flags argument_re argument) as [valid|].
  - unfold bind at 1.
    match goal with
    | |- context [(if ?c then feedback _ ?m 1 else ret tt) w] =>
        assert (Hw : exists w' ds,
                   (if c then feedback relpath m 1 else ret tt) w = (Ok tt, w')
                   /\ diagnostics w' = diagnostics w ++ ds /\ errors_of ds = 0)
    end.
    { destruct (negb _).
      - match goal with
        | |- context [feedback _ ?m 1 w] =>
            destruct (@feedback_spec relpath m 1 w) as [b [pre [label [Hf _]]]]; [lia|]
        end.
        rewrite Hf. eexists. eexists [_]. split; [reflexivity|]. split; reflexivity.
      - exists w, []. rewrite app_nil_r. repeat split. }
    destruct Hw as [w' [ds [Hrun [Hd He]]]]. rewrite Hrun.
    eexists. exists w', ds. split; [reflexivity|]. split; [exact Hd|].
    rewrite length_app, notes_of_app, He. cbn [length].
    match goal with
    | |- context [notes_of [?a]] => change (notes_of [a]) with 0
    end.
    lia.
  - destruct (is_some (re_match no_flags index_re argument) || is_empty arguments) eqn:E.
    + unfold bind.
      match goal with
      | |- context [feedback _ ?m 2 w] =>
          destruct (@feedback_spec relpath m 2 w) as [b [pre [label [Hf _]]]]; [lia|]
      end.
      rewrite Hf. eexists. eexists. eexists [_]. split; [reflexivity|].
      split; [reflexivity|]. unfold errors_of. cbn [filter fst Z.eqb Error Pos.eqb length].
      lia.
    + apply orb_false_iff in E. destruct E as [_ E].
      destruct (@append_note_counts arguments argument) as [H1 H2].
      { destruct arguments; [discriminate E | discriminate]. }
      eexists. exists w, []. rewrite app_nil_r. split; [reflexivity|].
      split; [reflexivity|]. rewrite H1, H2. unfold errors_of. cbn [filter length]. lia.
Qed.

Lemma process_argument_lines_accounted (relpath : str -> str -> str) (lines : list str)
    (arguments : list Argument) (w : World) :
  exists result w' ds,
    process_argument_lines relpath lines arguments w = (Ok result, w')
    /\ diagnostics w' = diagnostics w ++ ds
    /\ length lines + length arguments + notes_of arguments
       = length result + notes_of result + errors_of ds.
Proof.
  revert arguments w. induction lines as [|argument rest IH]; intros arguments w.
  - exists arguments, w, []. rewrite app_nil_r. split; [reflexivity|].
    split; [reflexivity|]. unfold errors_of. cbn [filter length]. lia.
  - cbn [process_argument_lines]. unfold bind at 1.
    destruct (@process_argument_line_accounted relpath argument arguments w)
      as [r1 [w1 [d1 [Hrun [Hd1 Hn1]]]]].
    rewrite Hrun.
    destruct (IH r1 w1) as [r2 [w2 [d2 [Hrun2 [Hd2 Hn2]]]]].
    exists r2, w2, (d1 ++ d2). split; [exact Hrun2|].
    split; [rewrite Hd2, Hd1, app_assoc; reflexivity|].
    rewrite errors_of_app. cbn [length]. lia.
Qed.

Lemma nth_error_last (A : Type) (l : list A) (d : A) :
  l <> [] -> nth_error l (length l - 1) = Some (last l d).
Proof.
  induction l as [|a [|b l] IH]; intros H; [contradiction | reflexivity |].
  specialize (IH ltac:(discriminate)).
  cbn [length Nat.sub] in IH |- *. rewrite Nat.sub_0_r in IH. exact IH.
Qed.

Lemma count_empty_all_empty (lines : list str) :
  count_empty lines = length lines -> Forall (fun l => l = []) lines.
Proof.
  unfold count_empty. induction lines as [|l ls IH]; intros H; [constructor|].
  cbn [filter length] in H.
  pose proof (filter_length_le (fun l => str_eqb l []) ls) as Hle.
  destruct (str_eqb l []) eqn:E.
  - cbn [length] in H. constructor; [apply str_eqb_eq; exact E | apply IH; lia].
  - lia.
Qed.

(** X7: a non-empty Arguments body is always parsed to the end: no line is
    dropped and nothing fails.  Each line becomes an argument, or a note of
    the latest argument, or is reported with an Error - except the lines of
    a body that starts with "None", which are ignored, the lines of a blank
    body, which earn one Error together, and a blank last line. *)
Theorem process_arguments_accounts (relpath : str -> str -> str) (raw : str) (w : World) :
  raw <> [] ->
  let lines := splitlines false raw in
  exists arguments w' ds,
    process_arguments relpath raw w = (Ok arguments, w')
    /\ diagnostics w' = diagnostics w ++ ds
    /\ length arguments + notes_of arguments + errors_of ds <= length lines
    /\ (nth_error lines 0 <> Some (py "None") ->
        Exists (fun line => line <> []) lines ->
        length arguments + notes_of arguments + errors_of ds
        = length lines - (if str_eqb (last lines []) [] then 1 else 0)).
Proof.
  intros Hne lines. pose proof (splitlines_nonempty false Hne) as Hl.
  unfold process_arguments. fold lines. fold lines in Hl.
  destruct lines as [|first rest] eqn:E; [contradiction|].
  unfold subscript at 1. cbn [py_nth Z.leb Z.compare Z.to_nat nth_error].
  unfold bind at 1. cbn [ret].
  destruct (str_eqb first (py "None")) eqn:Enone.
  - exists [], w, []. rewrite app_nil_r. split; [reflexivity|]. split; [reflexivity|].
    split; [cbn; lia|]. intros Hfirst. apply str_eqb_eq in Enone. subst first.
    contradiction Hfirst. reflexivity.
  - destruct (count_empty (first :: rest) =? length (first :: rest)) eqn:Eblank.
    + unfold bind.
      match goal with
      | |- context [feedback _ ?m 2 w] =>
          destruct (@feedback_spec relpath m 2 w) as [b [pre [label [Hf _]]]]; [lia|]
      end.
      rewrite Hf. eexists. eexists. eexists [_]. split; [reflexivity|].
      split; [reflexivity|]. split; [cbn; lia|].
      intros _ Hex. apply Nat.eqb_eq, count_empty_all_empty in Eblank.
      apply Exists_exists in Hex. destruct Hex as [l [Hin Hl0]].
      rewrite Forall_forall in Eblank. contradiction (Hl0 (Eblank l Hin)).
    + destruct (@py_nth_last _ (first :: rest)) as [final Hfinal]; [discriminate|].
      assert (Hlast : final = last (first :: rest) []).
      { unfold py_nth in Hfinal. cbn [Z.leb Z.compare] in Hfinal.
        destruct (0 <=? Z.of_nat (length (first :: rest)) + -1)%Z; [|discriminate Hfinal].
        replace (Z.to_nat (Z.of_nat (length (first :: rest)) + -1))
          with (length (first :: rest) - 1) in Hfinal by lia.
        rewrite (@nth_error_last _ (first :: rest) []) in Hfinal by discriminate.
        injection Hfinal as <-. reflexivity. }
      unfold subscript. rewrite Hfinal. unfold bind at 1. cbn [ret].
      rewrite <- Hlast. unfold bind at 1.
      destruct (str_eqb final []) eqn:Efinal.
      * cbn [ret].
        destruct (@process_argument_lines_accounted relpath (removelast (first :: rest))
                    [] w) as [r [w' [ds [Hrun [Hd Hn]]]]].
        rewrite Hrun. exists r, w', ds. split; [reflexivity|]. split; [exact Hd|].
        assert (Hlen : length (removelast (first :: rest)) = length (first :: rest) - 1).
        { rewrite removelast_firstn_len, length_firstn. cbn [length]. lia. }
        rewrite Hlen in Hn. cbn [length notes_of map concat] in Hn |- *.
        split; [lia|]. intros _ _. lia.
      * unfold bind at 1.
        match goal with
        | |- context [feedback _ ?m 1 w] =>
            destruct (@feedback_spec relpath m 1 w) as [b [pre [label [Hf _]]]]; [lia|]
        end.
        rewrite Hf. cbn [ret].
        match goal with
        | |- context [process_argument_lines _ _ _ ?w1] =>
            destruct (@process_argument_lines_accounted relpath (first :: rest) [] w1)
              as [r [w' [ds [Hrun [Hd Hn]]]]]
        end.
        rewrite Hrun. eexists r, w', (_ :: ds). split; [reflexivity|].
        split; [rewrite Hd; cbn [diagnostics]; rewrite <- app_assoc; reflexivity|].
        change (errors_of ((1%Z, py "No blank line after arguments list") :: ds))
          with (errors_of ds).
        cbn [length notes_of map concat] in Hn |- *. split; [lia|]. intros _ _. lia.
Qed.

Lemma process_arguments_accounts_witness :
  let raw := py "0: Unit <OBJECT>" ++ [NL] ++ py "Also the target" ++ [NL; NL] in
  exists arguments w' ds,
    process_arguments (fun p _ => p) raw (imported_world scenario_header) = (Ok arguments, w')
    /\ diagnostics w' = ds
    /\ length arguments + notes_of arguments + errors_of ds = 2.
Proof.
  intros raw.
  destruct (@process_arguments_accounts (fun p _ => p) raw (imported_world scenario_header))
    as [arguments [w' [ds [Hrun [Hd [_ Hn]]]]]].
  - discriminate.
  - exists arguments, w', ds. split; [exact Hrun|]. split; [exact Hd|].
    apply Hn.
    + discriminate.
    + left. discriminate.
Defined.

(** ** The return value "None" *)

Lemma lower_letter_title (c x : ascii) :
  In x (py "none") -> lower c = x ->
  iscased c = true /\ totitle c = totitle x.
Proof.
  intros Hx H.
  assert (Hb : (char_eqb (lower c) "n" || char_eqb (lower c) "o"
                || char_eqb (lower c) "e")%char = true).
  { rewrite H. cbn in Hx. destruct Hx as [<- | [<- | [<- | [<- | []]]]]; reflexivity. }
  assert (Hgoal : iscased c = true /\ totitle c = totitle (lower c)).
  { clear H Hx. each_char c; vm_compute in Hb; try discriminate Hb; split; reflexivity. }
  rewrite H in Hgoal. exact Hgoal.
Qed.

(** X9: the word "none", in any mix of upper and lower case and with white
    space around it, is the return value [["None", "N/A"]]; nothing is
    reported. *)
Theorem none_return_value (relpath : str -> str -> str) (raw : str) (w : World) :
  map lower (strip raw) = py "none" ->
  process_return_value relpath raw w = (Ok [py "None"; py "N/A"], w).
Proof.
  intros H. unfold process_return_value.
  assert (Ht : title (strip raw) = py "None").
  { destruct (strip raw) as [|c1 [|c2 [|c3 [|c4 [|c5 r]]]]]; try discriminate H.
    cbn [map] in H. injection H as H1 H2 H3 H4.
    destruct (@lower_letter_title c1 "n"%char) as [E1 T1]; [cbn; tauto | exact H1 |].
    destruct (@lower_letter_title c2 "o"%char) as [E2 _]; [cbn; tauto | exact H2 |].
    destruct (@lower_letter_title c3 "n"%char) as [E3 _]; [cbn; tauto | exact H3 |].
    unfold title. cbn [title_from]. rewrite E1, E2, E3, T1, H2, H3, H4. reflexivity. }
  rewrite Ht. reflexivity.
Qed.

Lemma none_return_value_witness :
  process_return_value (fun p _ => p) ([NL] ++ py "  nOnE " ++ [NL])
    (imported_world scenario_header)
  = (Ok [py "None"; py "N/A"], imported_world scenario_header).
Proof.
  apply (@none_return_value (fun p _ => p) ([NL] ++ py "  nOnE " ++ [NL])
           (imported_world scenario_header)).
  reflexivity.
Defined.

(** ** The sections of any header text *)

(** X5: whatever the text, the split finds every marker and loses nothing
    but the markers.  The text can be read as a piece followed by sections -
    a name, one of the five, the rest of its marker (an optional "s", the
    colon, at most one white-space character) and a piece - such that no
    line of a piece starts with a marker; and for every such reading the
    list is the first piece and then, section by section, the name and the
    piece after its marker. *)
Theorem split_sections_keeps_text (text : str) :
  (exists pre secs,
      text = pre ++ concat (map (fun a => token a ++ raw_body a) secs)
      /\ well_formed pre secs = true
      /\ Forall (fun a => In (a_name a) section_names) secs)
  /\ (forall pre secs,
        text = pre ++ concat (map (fun a => token a ++ raw_body a) secs) ->
        well_formed pre secs = true ->
        split_sections text = pieces pre secs).
Proof.
  assert (Hrender : forall pre secs,
            pre ++ concat (map (fun a => token a ++ raw_body a) secs) = render pre secs).
  { intros pre secs. unfold render. f_equal. f_equal.
    apply map_ext. intros a. symmetry. apply render_section_token. }
  split.
  - destruct (author_spec text) as [Htext Hwf].
    exists (fst (author text)), (snd (author text)).
    split; [|split].
    + rewrite Hrender. exact Htext.
    + exact Hwf.
    + apply well_formed_sections_of in Hwf. clear Htext. revert Hwf.
      induction (snd (author text)) as [|a rest IH]; intros Hwf; [constructor|].
      cbn [well_formed_sections] in Hwf.
      apply andb_true_iff in Hwf. destruct Hwf as [Hwf Hrest].
      apply andb_true_iff in Hwf. destruct Hwf as [Hwf _].
      apply andb_true_iff in Hwf. destruct Hwf as [Hname _].
      constructor; [|exact (IH Hrest)].
      apply existsb_exists in Hname. destruct Hname as [n [Hn Heq]].
      apply str_eqb_eq in Heq. rewrite Heq. exact Hn.
  - intros pre secs Htext Hwf. rewrite Htext, Hrender.
    apply split_sections_render. exact Hwf.
Qed.

(** ** Files that are not function files *)

Lemma crawl_files_filter (relpath : str -> str -> str) (directory : str)
    (debug_arg : bool) (root : str) (files_here : list (str * str)) (w : World) :
  crawl_files relpath directory debug_arg root files_here w
  = crawl_files relpath directory debug_arg root
      (filter (fun f => is_function_file (fst f)) files_here) w.
Proof.
  revert w. induction files_here as [|[file code] rest IH]; intros w; [reflexivity|].
  cbn [crawl_files filter fst]. fold (is_function_file file).
  destruct (is_function_file file) eqn:E.
  - cbn [crawl_files]. fold (is_function_file file). rewrite E.
    unfold bind. destruct (crawl_file _ _ _ _ _ w) as [[[]|e] w1]; [apply IH | reflexivity].
  - unfold bind at 1. cbn [ret]. apply IH.
Qed.

(** X17: only the files named "fnc_*.sqf" count: the crawl of a walk is the
    crawl of its function files, whatever other files lie in between. *)
Theorem crawl_dir_function_files (relpath : str -> str -> str) (directory : str)
    (debug_arg : bool) (walk : list (str * list (str * str))) (w : World) :
  crawl_dir relpath directory debug_arg walk w
  = crawl_dir relpath directory debug_arg (function_files walk) w.
Proof.
  revert w. induction walk as [|[root files_here] rest IH]; intros w; [reflexivity|].
  cbn [crawl_dir function_files map fst snd]. unfold bind.
  rewrite crawl_files_filter.
  destruct (crawl_files _ _ _ _ _ w) as [[[]|e] w1]; [apply IH | reflexivity].
Qed.

(** ** Well-formed return values *)

(** A lazy repetition of a one-character pattern walks over [u] when what
    follows the repetition cannot match before the end of [u] and does match
    there. *)
Lemma lazy_loop_reaches (body : mstate -> kont -> option mstate) (ok : ascii -> bool)
    (k : kont) (gs : list (nat * str)) (tail : str) (m : mstate) :
  (forall st k',
      body st k'
      = match m_rest st with
        | x :: xs => if ok x then k' (advance st x xs) else None
        | [] => None
        end) ->
  forall (u : str) (prev : option ascii) (fuel : nat),
    Forall (fun c => ok c = true) u ->
    (forall u1 c u2,
        u = u1 ++ c :: u2 ->
        k (mkMstate (last_seen prev u1) (c :: u2 ++ tail) gs) = None) ->
    k (mkMstate (last_seen prev u) tail gs) = Some m ->
    length (u ++ tail) < fuel ->
    star_loop body false k fuel (mkMstate prev (u ++ tail) gs) = Some m.
Proof.
  intros Hbody. induction u as [|c u IH]; intros prev fuel Hok Hmid Hend Hfuel;
    (destruct fuel as [|fuel]; [lia|]); cbn [star_loop].
  - cbn [app]. unfold last_seen in Hend. cbn [fold_left] in Hend. rewrite Hend. reflexivity.
  - pose proof (Hmid [] c u eq_refl) as H0. unfold last_seen in H0.
    cbn [fold_left app] in H0 |- *. rewrite H0. rewrite Hbody. cbn [m_rest].
    inversion Hok as [|? ? Hc Hu]; subst. rewrite Hc.
    unfold advance. cbn [m_rest m_groups length].
    assert (Hlt : (length (u ++ tail) <? S (length (u ++ tail))) = true)
      by (apply Nat.ltb_lt; lia).
    rewrite Hlt. apply IH.
    + exact Hu.
    + intros u1 c0 u2 E. apply (Hmid (c :: u1) c0 u2). rewrite E. reflexivity.
    + exact Hend.
    + cbn [app length] in Hfuel. lia.
Qed.

Lemma return_re_match (name types rest : str) :
  name <> [] ->
  Forall (fun c => c <> NL /\ c <> chr "<") name ->
  types <> [] ->
  Forall (fun c => isspace c || isword c = true) types ->
  re_match no_flags return_re (name ++ py "<" ++ types ++ py ">" ++ rest)
  = Some (mkMatch (name ++ py "<" ++ types ++ py ">") [(2, types); (1, name)]).
Proof.
  intros Hname Hn Htypes Ht.
  destruct name as [|n0 name]; [contradiction|].
  destruct types as [|t0 types]; [contradiction|].
  inversion Hn as [|? ? [Hn0 _] Hn']; subst.
  inversion Ht as [|? ? Ht0 Ht']; subst.
  unfold re_match, match_at, return_re.
  rewrite rmatch_Cat, rmatch_Bol. cbn [at_bol m_prev].
  rewrite rmatch_Cat, rmatch_Grp. unfold Plus at 1. rewrite rmatch_Cat, rmatch_Dot.
  cbn [m_rest app DOTALL no_flags orb].
  assert (E0 : negb (char_eqb n0 NL) = true).
  { apply negb_true_iff. destruct (char_eqb n0 NL) eqn:E; [|reflexivity].
    apply char_eqb_eq in E. contradiction. }
  rewrite E0. rewrite rmatch_Star.
  unfold advance. cbn [m_rest m_groups].
  match goal with
  | |- match star_loop ?b false ?k ?f ?st with _ => _ end = _ =>
      assert (Hloop : star_loop b false k f st
                      = Some (mkMstate (Some (chr ">")) rest
                                [(2, t0 :: types); (1, n0 :: name)]))
  end.
  { apply (@lazy_loop_reaches _ (fun x => negb (char_eqb x NL)) _ []
             (py "<" ++ t0 :: types ++ py ">" ++ rest)).
    - intros st k'. rewrite rmatch_Dot. reflexivity.
    - apply Forall_forall. intros c Hc. rewrite Forall_forall in Hn'.
      apply negb_true_iff. destruct (char_eqb c NL) eqn:E; [|reflexivity].
      apply char_eqb_eq in E. destruct (Hn' c Hc) as [H _]. contradiction.
    - intros u1 c u2 E. rewrite rmatch_Cat, rmatch_Lit. cbn [m_rest set_group].
      unfold lit_matches. cbn [IGNORECASE no_flags].
      destruct (char_eqb (chr "<") c) eqn:Ec; [|reflexivity].
      apply char_eqb_eq in Ec. rewrite Forall_forall in Hn'.
      destruct (Hn' c) as [_ H]; [rewrite E; apply in_elt|]. congruence.
    - cbn [m_rest].
      change (n0 :: name ++ py "<" ++ t0 :: types ++ py ">" ++ rest)
        with ((n0 :: name) ++ py "<" ++ t0 :: types ++ py ">" ++ rest).
      rewrite firstn_matched.
      rewrite rmatch_Cat, rmatch_Lit. cbn [m_rest set_group app py list_ascii_of_string].
      unfold lit_matches. cbn [IGNORECASE no_flags].
      replace (char_eqb (chr "<") "<"%char) with true by reflexivity.
      rewrite rmatch_Cat, rmatch_Grp. unfold Plus. rewrite rmatch_Cat, rmatch_Cls.
      unfold advance. cbn [m_rest m_groups m_prev in_cset]. rewrite Ht0.
      rewrite rmatch_Star. cbn [m_rest].
      apply (@lazy_loop_reaches _ (fun x => isspace x || isword x) _ _ (">"%char :: rest)).
      + intros st k'. rewrite rmatch_Cls. reflexivity.
      + exact Ht'.
      + intros u1 c u2 E. rewrite rmatch_Lit. cbn [m_rest set_group].
        unfold lit_matches. cbn [IGNORECASE no_flags].
        destruct (char_eqb (chr ">") c) eqn:Ec; [|reflexivity].
        apply char_eqb_eq in Ec. rewrite Forall_forall in Ht'.
        assert (Hc : isspace c || isword c = true) by (apply Ht'; rewrite E; apply in_elt).
        rewrite <- Ec in Hc. discriminate Hc.
      + rewrite rmatch_Lit. cbn [m_rest set_group].
        unfold lit_matches. cbn [IGNORECASE no_flags].
        replace (char_eqb (chr ">") ">"%char) with true by reflexivity.
        unfold advance. cbn [m_groups m_rest m_prev].
        change (t0 :: types ++ ">"%char :: rest) with ((t0 :: types) ++ ">"%char :: rest).
        rewrite firstn_matched. reflexivity.
      + lia.
    - cbn [length]. lia. }
  rewrite Hloop. cbn [m_rest m_groups]. f_equal. f_equal.
  replace (n0 :: name ++ py "<" ++ t0 :: types ++ py ">" ++ rest)
    with ((n0 :: name ++ py "<" ++ t0 :: types ++ py ">") ++ rest)
    by (cbn [app]; rewrite <- !app_assoc; cbn [app]; rewrite <- !app_assoc; reflexivity).
  apply firstn_matched.
Qed.

Lemma title_keeps_bracket (previous_is_cased : bool) (s : str) :
  In (chr "<") s -> In (chr "<") (title_from previous_is_cased s).
Proof.
  revert previous_is_cased. induction s as [|c r IH]; intros b H; [destruct H|].
  cbn [title_from]. apply in_or_app. destruct H as [-> | H].
  - left. destruct b; left; reflexivity.
  - right. apply IH. exact H.
Qed.

(** X10: a description and a type in angle brackets are taken apart as written:
    the name is all that precedes the first "<" - the blank before it
    included - and the types are what the brackets enclose; what follows
    the ">" is dropped, and nothing is reported. *)
Theorem return_value_parsed (relpath : str -> str -> str) (raw : str) (w : World)
    (name types rest : str) :
  strip raw = name ++ py "<" ++ types ++ py ">" ++ rest ->
  name <> [] ->
  Forall (fun c => c <> NL /\ c <> chr "<") name ->
  types <> [] ->
  Forall (fun c => isspace c || isword c = true) types ->
  process_return_value relpath raw w = (Ok [name; types], w).
Proof.
  intros Hraw Hname Hn Htypes Ht. unfold process_return_value.
  assert (Hnone : str_eqb (title (strip raw)) (py "None") = false).
  { apply str_eqb_neq. intros E.
    assert (Hin : In (chr "<") (title (strip raw))).
    { apply title_keeps_bracket. rewrite Hraw. apply in_or_app. right. left. reflexivity. }
    rewrite E in Hin. cbn in Hin.
    repeat (destruct Hin as [Hin | Hin]; [discriminate Hin|]). exact Hin. }
  rewrite Hnone, Hraw, (return_re_match rest Hname Hn Htypes Ht). reflexivity.
Qed.

Lemma return_value_parsed_witness :
  process_return_value (fun p _ => p) (py "Success <BOOLEAN>" ++ [NL])
    (imported_world scenario_header)
  = (Ok [py "Success "; py "BOOLEAN"], imported_world scenario_header).
Proof.
  apply (@return_value_parsed (fun p _ => p) (py "Success <BOOLEAN>" ++ [NL])
           (imported_world scenario_header) (py "Success ") (py "BOOLEAN") []).
  - reflexivity.
  - discriminate.
  - repeat constructor; discriminate.
  - discriminate.
  - repeat constructor.
Defined.

(** ** The wiki file and the heading of a function *)

Lemma break_slash_app (a b : str) :
  noslash a -> break_slash (a ++ slash :: b) = (a, slash :: b).
Proof.
  induction 1 as [|c a Hc Ha IH]; cbn [app break_slash].
  - replace (char_eqb slash slash) with true by reflexivity. reflexivity.
  - destruct (char_eqb c slash) eqn:E; [apply char_eqb_eq in E; contradiction|].
    rewrite IH. reflexivity.
Qed.

Lemma noslash_rev (s : str) : noslash s -> noslash (rev s).
Proof. apply Forall_rev. Qed.

Lemma basename_join (p x : str) : noslash x -> basename (p ++ [slash] ++ x) = x.
Proof.
  intros Hx. unfold basename. rewrite !rev_app_distr. cbn [rev app].
  rewrite <- app_assoc. cbn [app].
  rewrite break_slash_app by (apply noslash_rev; exact Hx).
  cbn [fst]. apply rev_involutive.
Qed.

Lemma dirname_join (p x : str) (c : ascii) :
  c <> slash -> noslash x -> dirname ((p ++ [c]) ++ [slash] ++ x) = p ++ [c].
Proof.
  intros Hc Hx. unfold dirname. rewrite !rev_app_distr. cbn [rev app].
  rewrite <- !app_assoc. cbn [app].
  rewrite break_slash_app by (apply noslash_rev; exact Hx).
  cbn [snd rev]. rewrite rev_involutive.
  assert (Hall : forallb (fun c0 => char_eqb c0 slash) ((p ++ [c]) ++ [slash]) = false).
  { rewrite !forallb_app. cbn [forallb].
    destruct (char_eqb c slash) eqn:E; [apply char_eqb_eq in E; contradiction|].
    rewrite andb_false_r. reflexivity. }
  rewrite Hall. rewrite !rev_app_distr. cbn [rev app drop_slashes].
  replace (char_eqb slash slash) with true by reflexivity.
  destruct (char_eqb c slash) eqn:E; [apply char_eqb_eq in E; contradiction|].
  change (c :: rev p) with ([c] ++ rev p).
  rewrite rev_app_distr, rev_involutive. reflexivity.
Qed.

(** X13: in the layout "<root>/<component>/<folder>/fnc_<name>.sqf" the second
    directory above the file names the component: the fragment goes to
    "../wiki/functions/<component>.md" and opens with the heading
    "## ace_<component>_fnc_<name>". *)
Theorem document_function_target (root component folder name : str) (w : World) :
  component <> [] -> noslash component ->
  folder <> [] -> noslash folder ->
  noslash name ->
  path (self w)
  = root ++ [slash] ++ component ++ [slash] ++ folder ++ [slash]
      ++ py "fnc_" ++ name ++ py ".sqf" ->
  nth_error (files (snd (document_function w))) (length (files w))
  = Some (py "../wiki/functions/" ++ component ++ py ".md",
          [NL] ++ py "## ace_" ++ component ++ py "_fnc_" ++ name ++ [NL]).
Proof.
  intros Hc Hcs Hf Hfs Hn Hpath.
  assert (Hfile : noslash (py "fnc_" ++ name ++ py ".sqf")).
  { apply Forall_app. split; [repeat constructor; discriminate|].
    apply Forall_app. split; [exact Hn | repeat constructor; discriminate]. }
  destruct (exists_last Hf) as [folder0 [f Ef]].
  destruct (exists_last Hc) as [component0 [c Ec]].
  assert (Hfc : f <> slash).
  { unfold noslash in Hfs. rewrite Forall_forall in Hfs. apply Hfs. rewrite Ef.
    apply in_or_app. right. left. reflexivity. }
  assert (Hcc : c <> slash).
  { unfold noslash in Hcs. rewrite Forall_forall in Hcs. apply Hcs. rewrite Ec.
    apply in_or_app. right. left. reflexivity. }
  assert (Hbase : basename (path (self w)) = py "fnc_" ++ name ++ py ".sqf").
  { rewrite Hpath.
    replace (root ++ [slash] ++ component ++ [slash] ++ folder ++ [slash]
               ++ py "fnc_" ++ name ++ py ".sqf")
      with ((root ++ [slash] ++ component ++ [slash] ++ folder) ++ [slash]
              ++ py "fnc_" ++ name ++ py ".sqf")
      by (rewrite <- !app_assoc; reflexivity).
    apply basename_join. exact Hfile. }
  assert (Hdir1 : dirname (path (self w)) = root ++ [slash] ++ component ++ [slash] ++ folder).
  { rewrite Hpath, Ef.
    replace (root ++ [slash] ++ component ++ [slash] ++ (folder0 ++ [f]) ++ [slash]
               ++ py "fnc_" ++ name ++ py ".sqf")
      with (((root ++ [slash] ++ component ++ [slash] ++ folder0) ++ [f]) ++ [slash]
              ++ py "fnc_" ++ name ++ py ".sqf")
      by (rewrite <- !app_assoc; reflexivity).
    rewrite dirname_join by assumption. rewrite <- !app_assoc. reflexivity. }
  assert (Hdir2 : dirname (dirname (path (self w))) = root ++ [slash] ++ component).
  { rewrite Hdir1, Ec.
    replace (root ++ [slash] ++ (component0 ++ [c]) ++ [slash] ++ folder)
      with (((root ++ [slash] ++ component0) ++ [c]) ++ [slash] ++ folder)
      by (rewrite <- !app_assoc; reflexivity).
    rewrite dirname_join by assumption. rewrite <- !app_assoc. reflexivity. }
  assert (Hcomp : basename (dirname (dirname (path (self w)))) = component).
  { rewrite Hdir2. apply basename_join. exact Hcs. }
  assert (Hout : output_of (self w) = py "../wiki/functions/" ++ component ++ py ".md").
  { unfold output_of. rewrite Hcomp. reflexivity. }
  assert (Hhead : heading_of (self w)
                  = [NL] ++ py "## ace_" ++ component ++ py "_fnc_" ++ name ++ [NL]).
  { unfold heading_of. rewrite Hcomp, Hbase.
    change (skipn 4 (py "fnc_" ++ name ++ py ".sqf")) with (name ++ py ".sqf").
    replace (length (py "fnc_" ++ name ++ py ".sqf") - 8) with (length name)
      by (rewrite !length_app; cbn [length py list_ascii_of_string]; lia).
    rewrite firstn_app, Nat.sub_diag, firstn_all. cbn [firstn]. rewrite app_nil_r.
    reflexivity. }
  pose proof (document_function_run w) as Hrun. cbv zeta in Hrun. rewrite Hrun.
  rewrite Hout, Hhead.
  destruct (return_value (self w)) as [|return_name [|return_types rest]];
    cbn [snd files map app]; rewrite nth_error_app2 by lia; rewrite Nat.sub_diag;
    reflexivity.
Qed.

Lemma document_function_target_witness :
  let w := mkWorld (set_path (py "/addons/medical/functions/fnc_treat.sqf")
                      (init (py "/addons"))) [] [] [] in
  nth_error (files (snd (document_function w))) 0
  = Some (py "../wiki/functions/medical.md",
          [NL] ++ py "## ace_medical_fnc_treat" ++ [NL]).
Proof.
  intros w.
  apply (@document_function_target (py "/addons") (py "medical") (py "functions")
           (py "treat") w).
  - discriminate.
  - repeat constructor; discriminate.
  - discriminate.
  - repeat constructor; discriminate.
  - repeat constructor; discriminate.
  - reflexivity.
Defined.

(** ** Well-formed argument lines *)

(** A greedy repetition of a one-character pattern walks over [u] if the
    repetition succeeds from the end of [u]. *)
Lemma greedy_loop_takes (fl : flags) (a : regex) (ok : ascii -> bool)
    (k : kont) (gs : list (nat * str)) (tail : str) (m : mstate) :
  (forall st k',
      rmatch fl a st k'
      = match m_rest st with
        | x :: xs => if ok x then k' (advance st x xs) else None
        | [] => None
        end) ->
  forall (u : str) (prev : option ascii) (fuel : nat),
    Forall (fun c => ok c = true) u ->
    star_loop (rmatch fl a) true k (S (length tail))
      (mkMstate (last_seen prev u) tail gs) = Some m ->
    length (u ++ tail) < fuel ->
    star_loop (rmatch fl a) true k fuel (mkMstate prev (u ++ tail) gs) = Some m.
Proof.
  intros Hbody. induction u as [|c u IH]; intros prev fuel Hok Hend Hfuel.
  - cbn [app] in *. unfold last_seen in Hend. cbn [fold_left] in Hend.
    rewrite <- Hend. apply star_loop_fuel; cbn [m_rest]; lia.
  - destruct fuel as [|fuel]; [lia|]. cbn [star_loop app].
    rewrite Hbody. cbn [m_rest].
    inversion Hok as [|? ? Hc Hu]; subst. rewrite Hc.
    unfold advance. cbn [m_rest m_groups length].
    assert (Hlt : (length (u ++ tail) <? S (length (u ++ tail))) = true)
      by (apply Nat.ltb_lt; lia).
    rewrite Hlt. rewrite (IH (Some c) fuel Hu Hend); [reflexivity|].
    cbn [app length] in Hfuel. lia.
Qed.

Lemma rmatch_Eol fl st k :
  rmatch fl Eol st k = if at_eol fl st then k st else None.
Proof. reflexivity. Qed.

Lemma rmatch_Eps fl st k : rmatch fl Eps st k = k st.
Proof. reflexivity. Qed.

Lemma argument_tail_match (default : option (ascii * str)) (prev : option ascii)
    (gs : list (nat * str)) :
  good_default default ->
  exists p,
    rmatch no_flags
      (Cat (Opt true
              (Grp 4
                 (Cat (Cls CSpace)
                    (Cat (Str (py "(default: "))
                       (Cat (Grp 5 (Plus true Dot)) (Lit (chr ")")))))))
         Eol)
      (mkMstate prev (default_suffix default) gs) (fun st => Some st)
    = Some (mkMstate p [] (default_groups default ++ gs)).
Proof.
  intros Hgood. rewrite rmatch_Cat. unfold Opt. rewrite rmatch_Alt, rmatch_Grp.
  destruct default as [[gap_char value]|]; cbn [default_suffix default_groups].
  - destruct Hgood as [Hgap [Hne Hval]].
    destruct value as [|v0 value]; [contradiction|].
    inversion Hval as [|? ? Hv0 Hval']; subst.
    rewrite rmatch_Cat, rmatch_Cls. cbn [m_rest app in_cset]. rewrite Hgap.
    rewrite rmatch_Cat, rmatch_Str, lits_match_plain by reflexivity.
    unfold advance. cbn [m_rest m_groups].
    assert (Hs : forall x, startswith (py "(default: ") (py "(default: " ++ x) = true)
      by (intros; reflexivity).
    rewrite Hs.
    change (consume (mkMstate (Some gap_char) (py "(default: " ++ v0 :: value ++ py ")") gs)
              (length (py "(default: ")))
      with (mkMstate (Some " "%char) (v0 :: value ++ py ")") gs).
    rewrite rmatch_Cat, rmatch_Grp. unfold Plus. rewrite rmatch_Cat, rmatch_Dot.
    cbn [m_rest DOTALL no_flags orb].
    assert (E0 : negb (char_eqb v0 NL) = true).
    { apply negb_true_iff. destruct (char_eqb v0 NL) eqn:E; [|reflexivity].
      apply char_eqb_eq in E. contradiction. }
    rewrite E0. rewrite rmatch_Star. unfold advance. cbn [m_rest m_groups].
    match goal with
    | |- exists p, match star_loop ?b true ?k ?f ?st with _ => _ end = _ =>
        assert (Hloop : star_loop b true k f st
                        = Some (mkMstate (Some ")"%char) []
                                  ((4, gap_char :: py "(default: " ++ v0 :: value ++ py ")")
                                     :: (5, v0 :: value) :: gs)))
    end.
    { apply (@greedy_loop_takes no_flags Dot (fun x => negb (char_eqb x NL)) _ gs (py ")")).
      - intros st k'. rewrite rmatch_Dot. reflexivity.
      - apply Forall_forall. intros c Hc. rewrite Forall_forall in Hval'.
        apply negb_true_iff. destruct (char_eqb c NL) eqn:E; [|reflexivity].
        apply char_eqb_eq in E. specialize (Hval' c Hc). contradiction.
      - cbn [star_loop length py list_ascii_of_string].
        rewrite rmatch_Dot. cbn [m_rest DOTALL no_flags orb].
        replace (negb (char_eqb ")" NL)) with true by reflexivity.
        unfold advance. cbn [m_rest length Nat.ltb Nat.leb].
        rewrite rmatch_Dot. cbn [m_rest].
        rewrite rmatch_Lit. cbn [m_rest set_group].
        rewrite rmatch_Lit. cbn [m_rest set_group].
        unfold lit_matches. cbn [IGNORECASE no_flags].
        replace (char_eqb (chr ")") ")"%char) with true by reflexivity.
        unfold advance. cbn [m_rest m_groups m_prev].
        rewrite rmatch_Eol. cbn [at_eol m_rest set_group m_groups m_prev length Nat.sub].
        unfold set_group. cbn [m_prev m_rest m_groups]. f_equal. f_equal.
        f_equal; [|f_equal].
        + f_equal.
          match goal with
          | |- firstn (S (length ?l)) (?x :: ?l) = _ =>
              change (firstn (length (x :: l)) (x :: l) = x :: l); apply firstn_all
          end.
        + f_equal. rewrite Nat.sub_0_r, length_app, Nat.add_1_r. cbn [length firstn].
          f_equal. rewrite firstn_app, Nat.sub_diag, firstn_all. cbn [firstn].
          apply app_nil_r.
      - cbn [length]. lia. }
    rewrite Hloop. eexists. reflexivity.
  - rewrite rmatch_Cat, rmatch_Cls. cbn [m_rest].
    rewrite rmatch_Eps, rmatch_Eol. cbn [at_eol m_rest app].
    eexists. reflexivity.
Qed.

Lemma argument_re_match (digits : str) (ws : ascii) (name types : str)
    (default : option (ascii * str)) :
  digits <> [] -> Forall (fun c => isdigit c = true) digits ->
  isspace ws = true ->
  name <> [] -> Forall (fun c => c <> NL /\ c <> chr "<") name ->
  types <> [] -> Forall (fun c => isspace c || isword c = true) types ->
  good_default default ->
  exists whole,
    re_match no_flags argument_re
      (digits ++ py ":" ++ [ws] ++ name ++ py "<" ++ types ++ py ">"
         ++ default_suffix default)
    = Some (mkMatch whole
              (default_groups default ++ [(3, types); (2, name); (1, digits)])).
Proof.
  intros Hdigits Hd Hws Hname Hn Htypes Ht Hgood.
  destruct digits as [|d0 digits]; [contradiction|].
  destruct name as [|n0 name]; [contradiction|].
  destruct types as [|t0 types]; [contradiction|].
  inversion Hd as [|? ? Hd0 Hd']; subst.
  inversion Hn as [|? ? [Hn0 _] Hn']; subst.
  inversion Ht as [|? ? Ht0 Ht']; subst.
  destruct (@argument_tail_match default (Some ">"%char)
              [(3, t0 :: types); (2, n0 :: name); (1, d0 :: digits)] Hgood) as [p Htail].
  set (suffix := default_suffix default) in *.
  set (final := mkMstate p []
                  (default_groups default
                     ++ [(3, t0 :: types); (2, n0 :: name); (1, d0 :: digits)])) in *.
  unfold re_match, match_at, argument_re.
  rewrite rmatch_Cat, rmatch_Bol. cbn [at_bol m_prev].
  rewrite rmatch_Cat, rmatch_Grp. unfold Plus at 1. rewrite rmatch_Cat, rmatch_Cls.
  cbn [m_rest app in_cset]. rewrite Hd0. rewrite rmatch_Star.
  unfold advance. cbn [m_rest m_groups].
  match goal with
  | |- exists whole, match star_loop ?b true ?k ?f ?st with _ => _ end = _ =>
      assert (Hloop : star_loop b true k f st = Some final)
  end.
  { apply (@greedy_loop_takes no_flags (Cls CDigit) isdigit _ []
             (":"%char :: ws :: n0 :: name ++ py "<" ++ t0 :: types ++ py ">" ++ suffix)).
    - intros st k'. rewrite rmatch_Cls. reflexivity.
    - exact Hd'.
    - cbn [star_loop]. rewrite rmatch_Cls. cbn [m_rest in_cset].
      replace (isdigit ":") with false by reflexivity.
      change (d0 :: digits ++ py ":" ++ ws :: n0 :: name ++ py "<" ++ t0 :: types
                ++ py ">" ++ suffix)
        with ((d0 :: digits) ++ ":"%char :: ws :: n0 :: name ++ py "<" ++ t0 :: types
                ++ py ">" ++ suffix).
      rewrite firstn_matched.
      rewrite rmatch_Cat, rmatch_Lit. cbn [m_rest set_group].
      unfold lit_matches. cbn [IGNORECASE no_flags].
      replace (char_eqb (chr ":") ":"%char) with true by reflexivity.
      rewrite rmatch_Cat, rmatch_Cls. unfold advance. cbn [m_rest m_groups in_cset].
      rewrite Hws.
      rewrite rmatch_Cat, rmatch_Grp. unfold Plus at 1. rewrite rmatch_Cat, rmatch_Dot.
      cbn [m_rest DOTALL no_flags orb].
      assert (E0 : negb (char_eqb n0 NL) = true).
      { apply negb_true_iff. destruct (char_eqb n0 NL) eqn:E; [|reflexivity].
        apply char_eqb_eq in E. contradiction. }
      rewrite E0. rewrite rmatch_Star. unfold advance. cbn [m_rest m_groups].
      apply (@lazy_loop_reaches _ (fun x => negb (char_eqb x NL)) _ _
               (py "<" ++ t0 :: types ++ py ">" ++ suffix)).
      + intros st k'. rewrite rmatch_Dot. reflexivity.
      + apply Forall_forall. intros c Hc. rewrite Forall_forall in Hn'.
        apply negb_true_iff. destruct (char_eqb c NL) eqn:E; [|reflexivity].
        apply char_eqb_eq in E. destruct (Hn' c Hc) as [H _]. contradiction.
      + intros u1 c u2 E. rewrite rmatch_Cat, rmatch_Lit. cbn [m_rest set_group].
        unfold lit_matches. cbn [IGNORECASE no_flags].
        destruct (char_eqb (chr "<") c) eqn:Ec; [|reflexivity].
        apply char_eqb_eq in Ec. rewrite Forall_forall in Hn'.
        destruct (Hn' c) as [_ H]; [rewrite E; apply in_elt|]. congruence.
      + cbn [m_rest].
        change (n0 :: name ++ py "<" ++ t0 :: types ++ py ">" ++ suffix)
          with ((n0 :: name) ++ py "<" ++ t0 :: types ++ py ">" ++ suffix).
        rewrite firstn_matched.
        rewrite rmatch_Cat, rmatch_Lit.
        cbn [m_rest set_group app py list_ascii_of_string].
        unfold lit_matches. cbn [IGNORECASE no_flags].
        replace (char_eqb (chr "<") "<"%char) with true by reflexivity.
        rewrite rmatch_Cat, rmatch_Grp. unfold Plus at 1. rewrite rmatch_Cat, rmatch_Cls.
        unfold advance. cbn [m_rest m_groups m_prev in_cset]. rewrite Ht0.
        rewrite rmatch_Star. cbn [m_rest].
        apply (@lazy_loop_reaches _ (fun x => isspace x || isword x) _ _
                 (">"%char :: suffix)).
        * intros st k'. rewrite rmatch_Cls. reflexivity.
        * exact Ht'.
        * intros u1 c u2 E. rewrite rmatch_Cat, rmatch_Lit. cbn [m_rest set_group].
          unfold lit_matches. cbn [IGNORECASE no_flags].
          destruct (char_eqb (chr ">") c) eqn:Ec; [|reflexivity].
          apply char_eqb_eq in Ec. rewrite Forall_forall in Ht'.
          assert (Hc : isspace c || isword c = true)
            by (apply Ht'; rewrite E; apply in_elt).
          rewrite <- Ec in Hc. discriminate Hc.
        * cbn [m_rest].
          change (t0 :: types ++ ">"%char :: suffix)
            with ((t0 :: types) ++ ">"%char :: suffix).
          rewrite firstn_matched.
          rewrite rmatch_Cat, rmatch_Lit. cbn [m_rest set_group].
          unfold lit_matches. cbn [IGNORECASE no_flags].
          replace (char_eqb (chr ">") ">"%char) with true by reflexivity.
          unfold advance. cbn [m_groups m_rest m_prev].
          exact Htail.
        * apply Nat.lt_succ_diag_r.
      + apply Nat.lt_succ_diag_r.
    - apply Nat.lt_succ_diag_r. }
  rewrite Hloop. eexists. reflexivity.
Qed.

(** X8: an argument line written as "<index>: <name><<types>>", with or without
    " (default: <value>)" after it, is taken apart as written: the index is
    the digits, the name all that stands between the white space after the
    colon and the first "<", the types what the brackets enclose, and the
    default the text between "(default: " and the last ")" - the empty text
    if there is none.  The argument is appended with no notes; an index in
    the listed order is accepted silently. *)
Theorem argument_line_parsed (relpath : str -> str -> str) (digits : str) (ws : ascii)
    (name types : str) (default : option (ascii * str)) (arguments : list Argument)
    (w : World) :
  digits <> [] -> Forall (fun c => isdigit c = true) digits ->
  isspace ws = true ->
  name <> [] -> Forall (fun c => c <> NL /\ c <> chr "<") name ->
  types <> [] -> Forall (fun c => isspace c || isword c = true) types ->
  good_default default ->
  let line :=
    digits ++ py ":" ++ [ws] ++ name ++ py "<" ++ types ++ py ">"
      ++ default_suffix default in
  let accepted :=
    mkArgument digits name types
      (match default with Some (_, value) => value | None => [] end) [] in
  exists w',
    process_argument_line relpath line arguments w = (Ok (arguments ++ [accepted]), w')
    /\ (digits = str_of_nat (length arguments) -> w' = w)
    /\ (digits <> str_of_nat (length arguments) ->
        diagnostics w'
        = diagnostics w
            ++ [(Warning, py "Argument index " ++ digits
                            ++ py " does not match listed order")]).
Proof.
  intros Hdigits Hd Hws Hname Hn Htypes Ht Hgood line accepted.
  destruct (@argument_re_match digits ws name types default
              Hdigits Hd Hws Hname Hn Htypes Ht Hgood) as [whole Hm].
  fold line in Hm.
  destruct (@process_argument_line_valid relpath line arguments w _ Hm)
    as [w' [Hrun [Hsame Hwarn]]].
  assert (H1 : group_text 1 (mkMatch whole
                 (default_groups default ++ [(3, types); (2, name); (1, digits)]))
               = digits)
    by (destruct default as [[g v]|]; reflexivity).
  assert (H2 : group_text 2 (mkMatch whole
                 (default_groups default ++ [(3, types); (2, name); (1, digits)]))
               = name)
    by (destruct default as [[g v]|]; reflexivity).
  assert (H3 : group_text 3 (mkMatch whole
                 (default_groups default ++ [(3, types); (2, name); (1, digits)]))
               = types)
    by (destruct default as [[g v]|]; reflexivity).
  assert (H5 : match group 5 (mkMatch whole
                 (default_groups default ++ [(3, types); (2, name); (1, digits)]))
               with None => [] | Some d => d end
               = match default with Some (_, value) => value | None => [] end)
    by (destruct default as [[g v]|]; reflexivity).
  rewrite H1 in Hsame, Hwarn. rewrite H1, H2, H3, H5 in Hrun.
  exists w'. split; [exact Hrun|]. split; [exact Hsame | exact Hwarn].
Qed.

Lemma argument_line_parsed_witness :
  exists w',
    process_argument_line (fun p _ => p)
      (py "0: Unit <OBJECT> (default: player)") [] (imported_world scenario_header)
    = (Ok [mkArgument (py "0") (py "Unit ") (py "OBJECT") (py "player") []], w')
    /\ w' = imported_world scenario_header.
Proof.
  destruct (@argument_line_parsed (fun p _ => p) (py "0") " "%char (py "Unit ")
              (py "OBJECT") (Some (" "%char, py "player")) []
              (imported_world scenario_header))
    as [w' [Hrun [Hsame _]]].
  - discriminate.
  - repeat constructor.
  - reflexivity.
  - discriminate.
  - repeat constructor; discriminate.
  - discriminate.
  - repeat constructor.
  - split; [reflexivity|]. split; [discriminate | repeat constructor; discriminate].
  - exists w'. split; [exact Hrun|]. apply Hsame. reflexivity.
Defined.
